(** * Kosmos execution core: [kosmos/models/Execution.py]

    A shallow embedding of the execution driver (the scheduler loop, the CPU
    admission sweep, the handling of finished tasks, [terminate], [start] and
    the execution status setter) together with the properties of its
    specification.

    Python objects are kept in explicit stores: task objects live in a map
    from their identity to their attributes, the execution object is the
    [self] field of the world.  Exceptions and the one blocking call are
    outcomes of a small state monad.  Logging has no effect on any value the
    code reads back and is left out. *)

From Stdlib Require Import Ascii.
From stdpp Require Import gmap strings list fin_maps pretty sorting.

Local Open Scope Z_scope.

(** ** Enumerations *)

(** [TaskStatus.submitted] is the state a task is in between
    [JobManager.submit] and its report by [get_finished_tasks]. *)
Module TaskStatus.
Inductive t := no_attempt | submitted | successful | failed.
#[global] Instance eq_dec : EqDecision t.
Proof. solve_decision. Defined.
End TaskStatus.

Module ExecutionStatus.
Inductive t := no_attempt | running | successful | failed | killed.
#[global] Instance eq_dec : EqDecision t.
Proof. solve_decision. Defined.
End ExecutionStatus.

(** ** Records *)

Record TaskFile := mkTaskFile {
  basename : string;
  path : option string;
}.

(** The attributes of a task that [Execution.py] reads or writes.  [profile]
    is the dict filled by the job manager; [profile.get('exit_status', None)]
    is the lookup [profile !! "exit_status"]. *)
Record Task := mkTask {
  task_id : nat;
  task_stage : nat;
  cpu_req : Z;
  must_succeed : bool;
  NOOP : bool;
  task_status : TaskStatus.t;
  task_successful : bool;
  profile : gmap string Z;
  task_output_dir : option string;
  log_dir : option string;
  command : option string;
  output_files : list TaskFile;
}.

Record Stage := mkStage {
  stage_id : nat;
  stage_name : string;
  stage_execution : nat;
}.

(** The columns of the [execution] table; [status] is the [_status] column
    behind the [status] property. *)
Record Execution := mkExecution {
  id : option nat;
  name : string;
  successful : bool;
  output_dir : string;
  started_on : option nat;
  finished_on : option nat;
  max_cpus : option Z;
  info : gmap string string;
  status : ExecutionStatus.t;
}.

#[export] Instance Task_inhabited : Inhabited Task :=
  populate (mkTask 0 0 0 false false TaskStatus.no_attempt false ∅ None None None []).

(** ** The task graph (a networkx [DiGraph] over task identities) *)

Record DiGraph := mkDiGraph {
  nodes : list nat;
  edges : list (nat * nat);
}.

Definition add_node (n : nat) (g : DiGraph) : DiGraph :=
  if decide (n ∈ nodes g) then g else mkDiGraph (nodes g ++ [n]) (edges g).

Definition add_nodes_from (ns : list nat) (g : DiGraph) : DiGraph :=
  foldl (λ g n, add_node n g) g ns.

Definition add_edge (e : nat * nat) (g : DiGraph) : DiGraph :=
  let g' := add_node e.2 (add_node e.1 g) in
  if decide (e ∈ edges g') then g' else mkDiGraph (nodes g') (edges g' ++ [e]).

Definition add_edges_from (es : list (nat * nat)) (g : DiGraph) : DiGraph :=
  foldl (λ g e, add_edge e g) g es.

(** [remove_node] raises [NetworkXError] (here [None]) on a node that is not
    in the graph; [remove_nodes_from] skips such nodes. *)
Definition drop_node (n : nat) (g : DiGraph) : DiGraph :=
  mkDiGraph (filter (λ m, m ≠ n) (nodes g))
            (filter (λ e, e.1 ≠ n ∧ e.2 ≠ n) (edges g)).

Definition remove_node (n : nat) (g : DiGraph) : option DiGraph :=
  if decide (n ∈ nodes g) then Some (drop_node n g) else None.

Definition remove_nodes_from (ns : list nat) (g : DiGraph) : DiGraph :=
  foldl (λ g n, drop_node n g) g ns.

Definition in_degree (g : DiGraph) (n : nat) : nat :=
  length (filter (λ e, e.2 = n) (edges g)).

Definition _copy_graph (graph : DiGraph) : DiGraph :=
  let graph2 := mkDiGraph [] [] in
  let graph2 := add_edges_from (edges graph) graph2 in
  add_nodes_from (nodes graph) graph2.

(** ** Exceptions, outcomes and the state monad *)

Inductive Exception :=
| ExecutionFailed
| AssertionError (msg : string)
| AttributeError
| TypeError
| NetworkXError
| SystemExit (msg : string).

(** [Blocked]: the call waits for a completion that never comes.
    [OutOfFuel]: the [while] loop has not finished within the given number
    of iterations; [s] is the state at the head of the next iteration. *)
Inductive Result (S A : Type) :=
| Ok (a : A) (s : S)
| Raise (e : Exception) (s : S)
| Blocked (s : S)
| OutOfFuel (s : S).
Arguments Ok {S A} a s.
Arguments Raise {S A} e s.
Arguments Blocked {S A} s.
Arguments OutOfFuel {S A} s.

Definition M (S A : Type) : Type := S → Result S A.

Definition ret {S A} (a : A) : M S A := λ s, Ok a s.

Definition bind {S A B} (m : M S A) (k : A → M S B) : M S B :=
  λ s, match m s with
       | Ok a s' => k a s'
       | Raise e s' => Raise e s'
       | Blocked s' => Blocked s'
       | OutOfFuel s' => OutOfFuel s'
       end.

Definition raise {S A} (e : Exception) : M S A := λ s, Raise e s.
Definition get {S} : M S S := λ s, Ok s s.
Definition modify {S} (f : S → S) : M S unit := λ s, Ok tt (f s).

(** [assert cond, msg] *)
Definition assert {S} (cond : bool) (msg : string) : M S unit :=
  if cond then ret tt else raise (AssertionError msg).

(** [try: m except ExecutionFailed: handler; raise] *)
Definition try_except_ExecutionFailed {S A} (m : M S A) (handler : M S unit) : M S A :=
  λ s, match m s with
       | Raise ExecutionFailed s' =>
           match handler s' with
           | Ok _ s'' => Raise ExecutionFailed s''
           | Raise e s'' => Raise e s''
           | Blocked s'' => Blocked s''
           | OutOfFuel s'' => OutOfFuel s''
           end
       | r => r
       end.

#[export] Instance M_ret {S} : MRet (M S) := λ A, ret.
#[export] Instance M_bind {S} : MBind (M S) := λ A B k m, bind m k.

(** [for x in l: body x] *)
Fixpoint for_each {S A} (l : list A) (body : A → M S unit) : M S unit :=
  match l with
  | [] => ret tt
  | x :: l' => body x ;; for_each l' body
  end.

Definition state_of {S A} (r : Result S A) : S :=
  match r with Ok _ s | Raise _ s | Blocked s | OutOfFuel s => s end.

(** ** The store and the running process *)

(** The persistent store behind the sqlalchemy session, with the directories
    that exist on disk.  [deleted_tasks] are the [session.delete(t)] not yet
    committed; [history] keeps the execution row written by every commit,
    newest first; [clock] is what [func.now()] gives. *)
Record Session := mkSession {
  executions : list Execution;
  stages : list Stage;
  tasks : gmap nat Task;
  deleted_tasks : list nat;
  dirs : gset string;
  history : list Execution;
  clock : nat;
}.

(** Modelled from the spec: the [JobManager] class is not part of these
    sources.  It tracks the submitted tasks as running until
    [get_finished_tasks] reports them, and [terminate] is a best-effort kill,
    of which only the fact that it was asked is kept. *)
Record JobManager := mkJobManager {
  running_tasks : list nat;
  terminated : bool;
}.

(** [self] is the execution object, [jobmanager] its attribute of that name,
    [task_queue] the local variable of [run], [drm] the answers the resource
    manager will give to the successive polls (each a batch of finished tasks
    with the profile it reports), [sigint_handler] whether [ctrl_c] is
    registered and [main_thread] whether [signal.signal] is allowed.
    [in_session] tells whether the execution object belongs to a session:
    [self.session] is [session] if it does and [None] otherwise. *)
Record World := mkWorld {
  session : Session;
  self : Execution;
  jobmanager : option JobManager;
  task_queue : DiGraph;
  drm : list (list (nat * gmap string Z));
  sigint_handler : bool;
  main_thread : bool;
  in_session : bool;
}.

Definition set_session (f : Session → Session) (w : World) : World :=
  mkWorld (f (session w)) (self w) (jobmanager w) (task_queue w) (drm w)
          (sigint_handler w) (main_thread w) (in_session w).
Definition set_self (f : Execution → Execution) (w : World) : World :=
  mkWorld (session w) (f (self w)) (jobmanager w) (task_queue w) (drm w)
          (sigint_handler w) (main_thread w) (in_session w).
Definition set_jobmanager (j : option JobManager) (w : World) : World :=
  mkWorld (session w) (self w) j (task_queue w) (drm w)
          (sigint_handler w) (main_thread w) (in_session w).
Definition set_task_queue (g : DiGraph) (w : World) : World :=
  mkWorld (session w) (self w) (jobmanager w) g (drm w)
          (sigint_handler w) (main_thread w) (in_session w).
Definition set_drm (d : list (list (nat * gmap string Z))) (w : World) : World :=
  mkWorld (session w) (self w) (jobmanager w) (task_queue w) d
          (sigint_handler w) (main_thread w) (in_session w).
Definition set_sigint_handler (b : bool) (w : World) : World :=
  mkWorld (session w) (self w) (jobmanager w) (task_queue w) (drm w)
          b (main_thread w) (in_session w).

Definition set_tasks (f : gmap nat Task → gmap nat Task) (s : Session) : Session :=
  mkSession (executions s) (stages s) (f (tasks s)) (deleted_tasks s) (dirs s)
            (history s) (clock s).
Definition set_stages (f : list Stage → list Stage) (s : Session) : Session :=
  mkSession (executions s) (f (stages s)) (tasks s) (deleted_tasks s) (dirs s)
            (history s) (clock s).
Definition set_dirs (f : gset string → gset string) (s : Session) : Session :=
  mkSession (executions s) (stages s) (tasks s) (deleted_tasks s) (f (dirs s))
            (history s) (clock s).
Definition set_deleted_tasks (f : list nat → list nat) (s : Session) : Session :=
  mkSession (executions s) (stages s) (tasks s) (f (deleted_tasks s)) (dirs s)
            (history s) (clock s).
Definition set_executions (f : list Execution → list Execution) (s : Session) : Session :=
  mkSession (f (executions s)) (stages s) (tasks s) (deleted_tasks s) (dirs s)
            (history s) (clock s).

(** Attribute assignments on the execution object. *)
Definition with_id (v : option nat) (ex : Execution) : Execution :=
  mkExecution v (name ex) (successful ex) (output_dir ex) (started_on ex)
              (finished_on ex) (max_cpus ex) (info ex) (status ex).
Definition with_successful (v : bool) (ex : Execution) : Execution :=
  mkExecution (id ex) (name ex) v (output_dir ex) (started_on ex)
              (finished_on ex) (max_cpus ex) (info ex) (status ex).
Definition with_started_on (v : option nat) (ex : Execution) : Execution :=
  mkExecution (id ex) (name ex) (successful ex) (output_dir ex) v
              (finished_on ex) (max_cpus ex) (info ex) (status ex).
Definition with_finished_on (v : option nat) (ex : Execution) : Execution :=
  mkExecution (id ex) (name ex) (successful ex) (output_dir ex) (started_on ex)
              v (max_cpus ex) (info ex) (status ex).
Definition with_max_cpus (v : option Z) (ex : Execution) : Execution :=
  mkExecution (id ex) (name ex) (successful ex) (output_dir ex) (started_on ex)
              (finished_on ex) v (info ex) (status ex).
Definition with_info (v : gmap string string) (ex : Execution) : Execution :=
  mkExecution (id ex) (name ex) (successful ex) (output_dir ex) (started_on ex)
              (finished_on ex) (max_cpus ex) v (status ex).
Definition with_status (v : ExecutionStatus.t) (ex : Execution) : Execution :=
  mkExecution (id ex) (name ex) (successful ex) (output_dir ex) (started_on ex)
              (finished_on ex) (max_cpus ex) (info ex) v.

(** Attribute assignments on a task object. *)
Definition with_task_status (v : TaskStatus.t) (T : Task) : Task :=
  mkTask (task_id T) (task_stage T) (cpu_req T) (must_succeed T) (NOOP T) v
         (task_successful T) (profile T) (task_output_dir T) (log_dir T)
         (command T) (output_files T).
Definition with_task_successful (v : bool) (T : Task) : Task :=
  mkTask (task_id T) (task_stage T) (cpu_req T) (must_succeed T) (NOOP T)
         (task_status T) v (profile T) (task_output_dir T) (log_dir T)
         (command T) (output_files T).
Definition with_profile (v : gmap string Z) (T : Task) : Task :=
  mkTask (task_id T) (task_stage T) (cpu_req T) (must_succeed T) (NOOP T)
         (task_status T) (task_successful T) v (task_output_dir T) (log_dir T)
         (command T) (output_files T).
Definition with_task_output_dir (v : option string) (T : Task) : Task :=
  mkTask (task_id T) (task_stage T) (cpu_req T) (must_succeed T) (NOOP T)
         (task_status T) (task_successful T) (profile T) v (log_dir T)
         (command T) (output_files T).
Definition with_log_dir (v : option string) (T : Task) : Task :=
  mkTask (task_id T) (task_stage T) (cpu_req T) (must_succeed T) (NOOP T)
         (task_status T) (task_successful T) (profile T) (task_output_dir T) v
         (command T) (output_files T).
Definition with_command (v : option string) (T : Task) : Task :=
  mkTask (task_id T) (task_stage T) (cpu_req T) (must_succeed T) (NOOP T)
         (task_status T) (task_successful T) (profile T) (task_output_dir T)
         (log_dir T) v (output_files T).
Definition with_output_files (v : list TaskFile) (T : Task) : Task :=
  mkTask (task_id T) (task_stage T) (cpu_req T) (must_succeed T) (NOOP T)
         (task_status T) (task_successful T) (profile T) (task_output_dir T)
         (log_dir T) (command T) v.

(** The task object with identity [t], and an in-place update of it. *)
Definition task (w : World) (t : nat) : Task := tasks (session w) !!! t.

Definition upd_task (t : nat) (f : Task → Task) (w : World) : World :=
  set_session (set_tasks (λ m, <[t := f (m !!! t)]> m)) w.

(** ** Collaborators that are outside [Execution.py] *)

(** [os.path.join] of two components (posixpath). *)
Fixpoint endswith_slash (a : string) : bool :=
  match a with
  | EmptyString => false
  | String c EmptyString => bool_decide (c = "/"%char)
  | String _ a' => endswith_slash a'
  end.

Definition opj (a b : string) : string :=
  if String.prefix "/" b then b
  else if bool_decide (a = "") || endswith_slash a then a +:+ b
  else a +:+ "/" +:+ b.

(** Modelled from the spec: the status setter of the [Task] class, which is
    not part of these sources.  It writes the status, raises the
    [successful] flag with the [successful] status, and a transition to
    [failed] of a task that must succeed raises [ExecutionFailed]. *)
Definition set_task_status (t : nat) (v : TaskStatus.t) : M World unit :=
  λ w,
    let w' := upd_task t (λ T,
                with_task_successful
                  (bool_decide (v = TaskStatus.successful) || task_successful T)
                  (with_task_status v T)) w in
    if bool_decide (v = TaskStatus.failed) && must_succeed (task w t)
    then Raise ExecutionFailed w'
    else Ok tt w'.

(** Modelled from the spec: [JobManager()], [submit], [running_tasks],
    [get_finished_tasks] and [terminate] of the absent [JobManager]. *)
Definition JobManager_new : JobManager := mkJobManager [] false.

Definition submit (t : nat) : M World unit :=
  λ w, match jobmanager w with
       | None => Raise AttributeError w
       | Some jm =>
           set_task_status t TaskStatus.submitted
             (set_jobmanager
                (Some (mkJobManager (running_tasks jm ++ [t]) (terminated jm))) w)
       end.

Definition get_running_tasks : M World (list nat) :=
  λ w, match jobmanager w with
       | None => Raise AttributeError w
       | Some jm => Ok (running_tasks jm) w
       end.

(** The entries of a batch that name a running task are reported, each task
    once, and leave the running tasks. *)
Fixpoint report (batch : list (nat * gmap string Z)) (running : list nat)
  : list (nat * gmap string Z) * list nat :=
  match batch with
  | [] => ([], running)
  | (t, p) :: batch' =>
      if decide (t ∈ running) then
        let r := report batch' (filter (λ u, u ≠ t) running) in
        ((t, p) :: r.1, r.2)
      else report batch' running
  end.

Definition set_profiles (done : list (nat * gmap string Z)) (w : World) : World :=
  foldl (λ w tp, upd_task tp.1 (with_profile tp.2) w) w done.

Definition get_finished_tasks (at_least_one : bool) : M World (list nat) :=
  λ w, match jobmanager w with
       | None => Raise AttributeError w
       | Some jm =>
           match drm w with
           | [] => if at_least_one then Blocked w else Ok [] w
           | batch :: rest =>
               let r := report batch (running_tasks jm) in
               if at_least_one && bool_decide (r.1 = []) then Blocked w
               else Ok (r.1.*1)
                       (set_profiles r.1
                          (set_drm rest
                             (set_jobmanager
                                (Some (mkJobManager r.2 (terminated jm))) w)))
           end
       end.

Definition JobManager_terminate : M World unit :=
  λ w, match jobmanager w with
       | None => Raise AttributeError w
       | Some jm => Ok tt (set_jobmanager (Some (mkJobManager (running_tasks jm) true)) w)
       end.

(** ** [_run_ready_tasks] *)

(** [sorted(l, key=key)]: a stable insertion sort. *)
Fixpoint insert_by (key : nat → Z) (x : nat) (l : list nat) : list nat :=
  match l with
  | [] => [x]
  | y :: l' => if decide (key x ≤ key y) then x :: y :: l' else y :: insert_by key x l'
  end.

Definition sorted (key : nat → Z) (l : list nat) : list nat :=
  foldr (insert_by key) [] l.

Definition sumZ (l : list Z) : Z := foldr Z.add 0 l.

Definition ready_tasks (task_queue : DiGraph) (w : World) : list nat :=
  filter (λ t, in_degree task_queue t = 0%nat
               ∧ task_status (task w t) = TaskStatus.no_attempt)
         (nodes task_queue).

(** [for f in ready_task.output_files: if f.path is None: f.path = join(...)].
    The join is evaluated only for a file without a path, and fails on a
    task without an output directory. *)
Definition render_paths (t : nat) : M World unit :=
  λ w,
    let T := task w t in
    if forallb (λ f, bool_decide (path f ≠ None)) (output_files T) then Ok tt w
    else match task_output_dir T with
         | None => Raise TypeError w
         | Some d =>
             Ok tt (upd_task t (with_output_files
                      (map (λ f, match path f with
                                 | None => mkTaskFile (basename f) (Some (opj d (basename f)))
                                 | Some _ => f
                                 end) (output_files T))) w)
         end.

(** [max_cpus is not None and ready_task.cpu_req + cores_used > max_cpus] *)
Definition over_budget (max_cpus : option Z) (cpu_req cores_used : Z) : bool :=
  match max_cpus with
  | Some m => bool_decide (cpu_req + cores_used > m)
  | None => false
  end.

(** The body of the [for] loop over the sorted candidates; [break] leaves
    the remaining candidates untouched. *)
Fixpoint sweep (max_cpus : option Z) (candidates : list nat) : M World unit :=
  match candidates with
  | [] => ret tt
  | ready_task :: rest =>
      running ← get_running_tasks;
      w ← get;
      let cores_used := sumZ (map (λ t, cpu_req (task w t)) running) in
      if over_budget max_cpus (cpu_req (task w ready_task)) cores_used
      then ret tt
      else render_paths ready_task ;; submit ready_task ;; sweep max_cpus rest
  end.

Definition _run_ready_tasks : M World unit :=
  w ← get;
  let max_cpus := max_cpus (self w) in
  let ready_tasks := ready_tasks (task_queue w) w in
  sweep max_cpus (sorted (λ t, cpu_req (task w t)) ready_tasks).

(** ** [_process_finished_tasks] *)

(** A generator is the body of the generator function with the consumer's
    loop body in the place of [yield]: nothing of it runs until a [for] loop
    iterates it, and after each [yield] it resumes where it stopped. *)
Definition Generator : Type := (nat → M World unit) → M World unit.

(** [for x in g: body x] *)
Definition iterate (g : Generator) (body : nat → M World unit) : M World unit := g body.

Definition process_finished_task (yield : nat → M World unit) (t : nat) : M World unit :=
  w ← get;
  if bool_decide (profile (task w t) !! "exit_status" = Some 0) || NOOP (task w t) then
    set_task_status t TaskStatus.successful ;;
    yield t
  else
    (if negb (must_succeed (task w t)) then yield t else ret tt) ;;
    set_task_status t TaskStatus.failed.

Definition _process_finished_tasks (at_least_one : bool) : Generator :=
  λ yield,
    finished ← get_finished_tasks at_least_one;
    for_each finished (process_finished_task yield).

(** ** Commits *)

Definition fresh_id (rows : list Execution) : nat :=
  S (foldr (λ r n, Nat.max (default 0%nat (id r)) n) 0%nat rows).

Fixpoint upsert (ex : Execution) (rows : list Execution) : list Execution :=
  match rows with
  | [] => [ex]
  | r :: rows' => if decide (id r = id ex) then ex :: rows' else r :: upsert ex rows'
  end.

(** [session.commit()] with the execution object [ex] in the session: a new
    object gets its id, its row is written, pending deletes are applied.
    [commit] is [self.session.commit()]: outside a session [self.session] is
    [None], which has no [commit]. *)
Definition flush (ex : Execution) (s : Session) : Execution * Session :=
  let ex' := match id ex with
             | Some _ => ex
             | None => with_id (Some (fresh_id (executions s))) ex
             end in
  (ex', mkSession (upsert ex' (executions s)) (stages s)
                  (filter (λ kv, kv.1 ∉ deleted_tasks s) (tasks s)) []
                  (dirs s) (ex' :: history s) (S (clock s))).

Definition commit : M World unit :=
  λ w, if in_session w then
         let r := flush (self w) (session w) in
         Ok tt (set_self (λ _, r.1) (set_session (λ _, r.2) w))
       else Raise AttributeError w.

(** ** The [status] property of the execution and its signal *)

Definition _execution_status_changed : M World unit :=
  w ← get;
  (if bool_decide (status (self w) ∈ [ExecutionStatus.successful;
                                      ExecutionStatus.failed;
                                      ExecutionStatus.killed])
   then modify (set_self (with_finished_on (Some (clock (session w)))))
   else ret tt) ;;
  (if bool_decide (status (self w) = ExecutionStatus.successful)
   then modify (set_self (with_successful true))
   else ret tt) ;;
  commit.

Definition set_status (value : ExecutionStatus.t) : M World unit :=
  w ← get;
  if bool_decide (status (self w) ≠ value) then
    modify (set_self (with_status value)) ;;
    _execution_status_changed
  else ret tt.

(** ** [Execution.terminate] and the interrupt handler *)

(** The call [_process_finished_tasks(self.jobmanager, at_least_one=False)]
    builds a generator and drops it: no [for] loop iterates it. *)
Definition terminate : M World unit :=
  w ← get;
  match jobmanager w with
  | Some _ =>
      let _ := _process_finished_tasks false in
      JobManager_terminate
  | None => ret tt
  end ;;
  set_status ExecutionStatus.killed.

Definition ctrl_c : M World unit :=
  w ← get;
  if negb (successful (self w)) then
    terminate ;;
    raise (SystemExit "Execution terminated with a SIGINT (ctrl+c) event")
  else ret tt.

(** [signal.signal] raises [ValueError] off the main thread, which is
    swallowed. *)
Definition terminate_on_ctrl_c : M World unit :=
  modify (λ w, if main_thread w then set_sigint_handler true w else w).

(** ** [Execution.run] *)

(** Modelled from the spec: [taskgraph.render_recipe] and the tools are not
    part of these sources.  A rendered recipe is the two graphs, the task and
    stage objects their nodes stand for, and the command each tool
    generates. *)
Record Rendered := mkRendered {
  task_g : DiGraph;
  stage_g : DiGraph;
  task_objects : list Task;
  stage_objects : list Stage;
  generate_command : Task → string;
}.

Definition stage_name_of (s : Session) (sid : nat) : string :=
  match find (λ st, bool_decide (stage_id st = sid)) (stages s) with
  | Some st => stage_name st
  | None => ""
  end.

Definition _default_task_log_output_dir (w : World) (T : Task) : string :=
  opj (opj (opj (output_dir (self w)) "log") (stage_name_of (session w) (task_stage T)))
      (pretty (task_id T)).

Definition _default_task_output_dir (w : World) (T : Task) : string :=
  opj (opj (output_dir (self w)) (stage_name_of (session w) (task_stage T)))
      (pretty (task_id T)).

(** [session.add_all]: objects already in the session stay as they are. *)
Definition add_all_tasks (objs : list Task) (m : gmap nat Task) : gmap nat Task :=
  foldl (λ m T, match m !! task_id T with Some _ => m | None => <[task_id T := T]> m end)
        m objs.

Definition add_all_stages (objs : list Stage) (l : list Stage) : list Stage :=
  foldl (λ l st, if bool_decide (stage_id st ∈ stage_id <$> l) then l else l ++ [st])
        l objs.

(** The message of the assertion on a log directory met twice,
    ['Duplicate log_dir detected for %s and %s' % (task, log_dirs[log_dir])];
    the two tasks are written by their ids, [Task.__repr__] being outside the
    module. *)
Definition duplicate_log_dir (t u : nat) : string :=
  "Duplicate log_dir detected for " +:+ pretty t +:+ " and " +:+ pretty u.

(** The loop that sets the directories of the queued tasks; [log_dirs] is
    the dict of the log directories seen so far. *)
Fixpoint set_output_dirs (task_output_dir task_log_output_dir : World → Task → string)
    (queue : list nat) (log_dirs : gmap (option string) nat) : M World unit :=
  match queue with
  | [] => ret tt
  | t :: queue' =>
      w ← get;
      modify (upd_task t (with_task_output_dir (Some (task_output_dir w (task w t))))) ;;
      w ← get;
      let log_dir := task_log_output_dir w (task w t) in
      match log_dirs !! Some log_dir with
      | None => ret tt
      | Some u => raise (AssertionError (duplicate_log_dir t u))
      end ;;
      modify (upd_task t (with_log_dir (Some log_dir))) ;;
      render_paths t ;;
      set_output_dirs task_output_dir task_log_output_dir queue'
                      (<[Some log_dir := t]> log_dirs)
  end.

Definition set_commands (generate_command : Task → string) (queue : list nat) : M World unit :=
  for_each queue (λ t,
    w ← get;
    if negb (NOOP (task w t))
    then modify (upd_task t (with_command (Some (generate_command (task w t)))))
    else ret tt).

Definition remove_from_queue (t : nat) : M World unit :=
  λ w, match remove_node t (task_queue w) with
       | Some g => Ok tt (set_task_queue g w)
       | None => Raise NetworkXError w
       end.

(** The body of the [while] loop. *)
Definition loop_body : M World unit :=
  _run_ready_tasks ;;
  iterate (_process_finished_tasks true) remove_from_queue.

(** [while len(task_queue) > 0: ...], at most [fuel] iterations. *)
Fixpoint scheduler_loop (fuel : nat) : M World unit :=
  λ w,
    if bool_decide (0 < length (nodes (task_queue w)))%nat then
      match fuel with
      | O => OutOfFuel w
      | S fuel' => (loop_body ;; scheduler_loop fuel') w
      end
    else Ok tt w.

(** The part of [run] before [if not dry]. *)
Definition run_setup (recipe : Rendered)
    (task_output_dir task_log_output_dir : World → Task → string) : M World unit :=
  w ← get;
  assert (in_session w) "Execution must be part of a sqlalchemy session" ;;
  set_status ExecutionStatus.running ;;
  modify (set_self (with_successful false)) ;;
  modify (set_jobmanager (Some JobManager_new)) ;;
  w ← get;
  match started_on (self w) with
  | None => modify (set_self (with_started_on (Some (clock (session w)))))
  | Some _ => ret tt
  end ;;
  modify (set_session (set_stages (add_all_stages (stage_objects recipe)))) ;;
  modify (set_session (set_tasks (add_all_tasks (task_objects recipe)))) ;;
  w ← get;
  let successful :=
    filter (λ t, task_status (task w t) = TaskStatus.successful) (nodes (task_g recipe)) in
  modify (set_task_queue (remove_nodes_from successful (_copy_graph (task_g recipe)))) ;;
  terminate_on_ctrl_c ;;
  commit ;;
  w ← get;
  let log_dirs := foldl (λ d t, <[log_dir (task w t) := t]> d) ∅ successful in
  set_output_dirs task_output_dir task_log_output_dir (nodes (task_queue w)) log_dirs ;;
  set_commands (generate_command recipe) (nodes (task_queue w)) ;;
  commit.

Definition run_body (recipe : Rendered)
    (task_output_dir task_log_output_dir : World → Task → string)
    (dry : bool) (fuel : nat) : M World unit :=
  run_setup recipe task_output_dir task_log_output_dir ;;
  (if negb dry then
     scheduler_loop fuel ;;
     set_status ExecutionStatus.successful
   else ret tt) ;;
  commit.

Definition run (recipe : Rendered)
    (task_output_dir task_log_output_dir : World → Task → string)
    (dry : bool) (fuel : nat) : M World unit :=
  try_except_ExecutionFailed
    (run_body recipe task_output_dir task_log_output_dir dry fuel)
    terminate.

(** ** [get_last_cmd_executed] ([util/args.py]) *)

Fixpoint contains_space (a : string) : bool :=
  match a with
  | EmptyString => false
  | String c a' => bool_decide (c = " "%char) || contains_space a'
  end.

(** [os.path.basename]: what follows the last slash. *)
Fixpoint basename_from (acc p : string) : string :=
  match p with
  | EmptyString => acc
  | String c p' =>
      if bool_decide (c = "/"%char) then basename_from "" p'
      else basename_from (acc +:+ String c "") p'
  end.

Definition os_path_basename (p : string) : string := basename_from "" p.

Definition get_last_cmd_executed (argv : list string) : string :=
  let cmd_args := map (λ a, if contains_space a then "'" +:+ a +:+ "'" else a) (tail argv) in
  "$ " +:+ String.concat " " (os_path_basename (default "" (head argv)) :: cmd_args).

(** ** [Execution.start] *)

(** [validate_name]: the name matches [^[\w]+$]. *)
Definition is_word_char (c : ascii) : bool :=
  let n := nat_of_ascii c in
  (bool_decide (48 ≤ n ≤ 57) || bool_decide (65 ≤ n ≤ 90)
   || bool_decide (97 ≤ n ≤ 122) || bool_decide (n = 95))%nat.

(** After the first word character: word characters up to the end, where
    [$] also matches before a final newline. *)
Fixpoint word_chars_to_end (s : string) : bool :=
  match s with
  | EmptyString => true
  | String c EmptyString => is_word_char c || bool_decide (c = "010"%char)
  | String c s' => is_word_char c && word_chars_to_end s'
  end.

Definition validate_name (a_name : string) : bool :=
  match a_name with
  | EmptyString => false
  | String c s' => is_word_char c && word_chars_to_end s'
  end.

(** The directories above a path, outermost first: ["/a/b"] has ["/"] and
    ["/a"] above it, ["a/b"] has ["a"].  Paths are compared as they are
    written. *)
Fixpoint parents_from (acc p : string) : list string :=
  match p with
  | EmptyString => []
  | String c p' =>
      if bool_decide (c = "/"%char)
      then (if bool_decide (acc = "") then "/" else acc) :: parents_from (acc +:+ "/") p'
      else parents_from (acc +:+ String c "") p'
  end.

Definition parents (p : string) : list string := parents_from "" p.

(** [mkdir] and [shutil.rmtree] on the set of directories that exist.  The
    helper [mkdir] is not part of these sources: it makes the directory
    together with the directories above it, as [os.makedirs] does, and leaves
    a directory that exists alone.  [rmtree] removes the directory with all
    that is below it, and nothing above it. *)
Definition makedirs (d : string) (ds : gset string) : gset string :=
  {[d]} ∪ list_to_set (parents d) ∪ ds.

Definition mkdir (d : string) : M Session unit :=
  modify (set_dirs (makedirs d)).

Definition rmtree (d : string) : M Session unit :=
  modify (set_dirs (filter (λ p, p ≠ d ∧ d ∉ parents p))).

(** [session.query(Execution).filter_by(name=name).first()]; loading the
    object runs its constructor, which makes sure of the output directory. *)
Definition query_first (a_name : string) : M Session (option Execution) :=
  s ← get;
  match find (λ ex, bool_decide (name ex = a_name)) (executions s) with
  | Some ex => mkdir (output_dir ex) ;; ret (Some ex)
  | None => ret None
  end.

(** [ex.stages] and [ex.tasksq.filter_by(successful=False)]. *)
Definition stages_of (ex : Execution) (s : Session) : list Stage :=
  filter (λ st, Some (stage_execution st) = id ex) (stages s).

Definition tasksq (ex : Execution) (s : Session) : list (nat * Task) :=
  filter (λ kv, task_stage (kv.2) ∈ stage_id <$> stages_of ex s)
         (map_to_list (tasks s)).

(** [ex.delete(delete_output_dir)]: the row goes, and with it its stages and
    their tasks. *)
Definition delete_execution (ex : Execution) (delete_output_dir : bool) : M Session unit :=
  (if delete_output_dir then rmtree (output_dir ex) else ret tt) ;;
  s ← get;
  let gone := stage_id <$> stages_of ex s in
  modify (λ s, mkSession
                 (filter (λ r, id r ≠ id ex) (executions s))
                 (filter (λ st, stage_id st ∉ gone) (stages s))
                 (filter (λ kv, (task_stage (kv.2) ∉ gone) ∧ (kv.1 ∉ deleted_tasks s)) (tasks s))
                 [] (dirs s) (history s) (S (clock s))).


Definition session_commit (ex : Execution) : M Session Execution :=
  λ s, let r := flush ex s in Ok r.1 r.2.

(** [confirm] is the answer the user gives when asked, [argv] the command
    line of the process. *)
Definition start (a_name : string) (a_output_dir : option string)
    (restart prompt_confirm : bool) (a_max_cpus : option Z)
    (confirm : bool) (argv : list string) : M Session Execution :=
  assert (bool_decide (a_output_dir ≠ None)) "output_dir cannot be None" ;;
  old_id ← (if restart then
              found ← query_first a_name;
              match found with
              | Some ex =>
                  (if prompt_confirm && negb confirm
                   then raise (SystemExit "Quitting") else ret tt) ;;
                  delete_execution ex true ;;
                  ret (id ex)
              | None => ret None
              end
            else ret None);
  found ← query_first a_name;
  ex ← match found with
       | Some ex =>
           let ex := with_max_cpus a_max_cpus ex in
           match a_output_dir with
           | None => ret tt
           | Some d =>
               assert (bool_decide (output_dir ex = d))
                      "cannot change the output_dir of an execution being resumed."
           end ;;
           s ← get;
           let q := filter (λ kv, task_successful (kv.2) = false) (tasksq ex s) in
           (if bool_decide (0 < length q)%nat
            then for_each q (λ kv, modify (set_deleted_tasks (λ l, l ++ [kv.1])))
            else ret tt) ;;
           ret ex
       | None =>
           match a_output_dir with
           | None => raise TypeError
           | Some d =>
               s ← get;
               assert (bool_decide (d ∉ dirs s)) (d +:+ " already exists") ;;
               mkdir d ;;
               assert (validate_name a_name) "Invalid execution name." ;;
               mkdir d ;;
               ret (mkExecution old_id a_name false d None None a_max_cpus ∅
                                ExecutionStatus.no_attempt)
           end
       end;
  session_commit
    (with_info (<["last_cmd_executed" := get_last_cmd_executed argv]> (info ex)) ex).

(** ** Example worlds *)

Definition exit_status (z : Z) : gmap string Z := {["exit_status" := z]}.

Definition example_task (i : nat) (cpu : Z) (must : bool) (st : TaskStatus.t) : Task :=
  mkTask i 1 cpu must false st false ∅ (Some "/out/align/task") None None
         [mkTaskFile "out.txt" None].

Definition example_execution (m : option Z) (st : ExecutionStatus.t) : Execution :=
  mkExecution (Some 1%nat) "run1" false "/out" None None m ∅ st.

Definition example_session (ex : Execution) (ts : list Task) : Session :=
  mkSession [ex] [mkStage 1 "align" 1] (add_all_tasks ts ∅) [] {["/"; "/out"]} [] 0.

(** A world in the middle of [run]: [ts] are the task objects, [g] the task
    queue, [running] the tasks the job manager has in flight. *)
Definition example_world (m : option Z) (ts : list Task) (g : DiGraph)
    (running : list nat) (d : list (list (nat * gmap string Z))) : World :=
  mkWorld (example_session (example_execution m ExecutionStatus.running) ts)
          (example_execution m ExecutionStatus.running)
          (Some (mkJobManager running false)) g d true true true.

(** ** Predicates and worlds used by the properties *)

Definition world_budget (m : option Z) : World :=
  example_world m [example_task 1 1 true TaskStatus.no_attempt]
                (mkDiGraph [1%nat] []) [] [].

Definition is_terminal (st : TaskStatus.t) : bool :=
  bool_decide (st = TaskStatus.successful) || bool_decide (st = TaskStatus.failed).

(** The loop body of [run] with the status of the yielded task checked at
    the moment it is removed. *)
Definition checked_remove (t : nat) : M World unit :=
  w ← get;
  assert (is_terminal (task_status (task w t))) "removed before its status was set" ;;
  remove_from_queue t.

(** One task in flight, which need not succeed, and which the resource
    manager reports with the given exit status. *)
Definition world_one_running (must : bool) (exit : Z) : World :=
  example_world None [example_task 1 1 must TaskStatus.submitted]
                (mkDiGraph [1%nat] []) [1%nat] [[(1%nat, exit_status exit)]].


(** The tasks the job manager has in flight and the CPUs they take. *)
Definition running_of (w : World) : list nat :=
  match jobmanager w with
  | Some jm => running_tasks jm
  | None => []
  end.

Definition cores_used (w : World) : Z :=
  sumZ ((λ t, cpu_req (task w t)) <$> running_of w).

(** What the scheduler never touches: the execution object, the store apart
    from the dynamic attributes of the tasks, and the attributes of a task
    that are fixed when it is rendered. *)
Definition session_rest (s : Session) :=
  (executions s, stages s, deleted_tasks s, dirs s, history s, clock s).

Definition static_eq (T T' : Task) : Prop :=
  cpu_req T' = cpu_req T ∧ must_succeed T' = must_succeed T ∧ NOOP T' = NOOP T.

Definition sched_frame (w w' : World) : Prop :=
  self w' = self w
  ∧ session_rest (session w') = session_rest (session w)
  ∧ ∀ t, static_eq (task w t) (task w' t).

(** Nothing of the process adds the execution to a session or takes it out
    of one. *)
Definition bound (w w' : World) : Prop := in_session w' = in_session w.

(** [respects R m]: whatever the outcome of [m], the state it ends in is
    related by [R] to the state it started from. *)
Definition respects {A} (R : World → World → Prop) (m : M World A) : Prop :=
  ∀ w, R w (state_of (m w)).

(** As [sched_frame], with the job manager, the task queue, the pending
    answers of the resource manager and the status of every task kept too. *)
Definition task_frame (w w' : World) : Prop :=
  sched_frame w w'
  ∧ jobmanager w' = jobmanager w
  ∧ task_queue w' = task_queue w
  ∧ drm w' = drm w
  ∧ ∀ t, task_status (task w' t) = task_status (task w t).


(** What processing the finished tasks leaves alone besides [sched_frame]:
    the job manager and the pending answers of the resource manager. *)
Definition drain_frame (w w' : World) : Prop :=
  sched_frame w w' ∧ jobmanager w' = jobmanager w ∧ drm w' = drm w.

(** The CPUs in flight are within the budget, when there is one. *)
Definition within_budget (w : World) : Prop :=
  (∀ t, 0 ≤ cpu_req (task w t))
  ∧ ∀ m, max_cpus (self w) = Some m → cores_used w ≤ m.

(** Every task object asks for a non-negative number of CPUs. *)
Definition cpu_reqs_nonneg (w : World) : Prop :=
  map_Forall (λ _ T, 0 ≤ cpu_req T) (tasks (session w)).

(** The diamond A→{B,C}→D after A has completed: B and C, of two CPUs each,
    are ready, D of one CPU waits for both, and three CPUs may be used. *)
Definition world_diamond : World :=
  example_world (Some 3)
    [example_task 2 2 true TaskStatus.no_attempt;
     example_task 3 2 true TaskStatus.no_attempt;
     example_task 4 1 true TaskStatus.no_attempt]
    (mkDiGraph [2; 3; 4]%nat [(2, 4); (3, 4)]%nat) []
    [[(2%nat, exit_status 0)]; [(3%nat, exit_status 0)]; [(4%nat, exit_status 0)]].

#[global] Instance cpu_reqs_nonneg_dec w : Decision (cpu_reqs_nonneg w).
Proof. unfold cpu_reqs_nonneg. apply _. Defined.

(** The test of [_process_finished_tasks] on a finished task. *)
Definition finished_ok (w : World) (t : nat) : bool :=
  bool_decide (profile (task w t) !! "exit_status" = Some 0) || NOOP (task w t).

(** The status [_process_finished_tasks] gives to a finished task. *)
Definition verdict (w : World) (t : nat) : TaskStatus.t :=
  if finished_ok w t then TaskStatus.successful else TaskStatus.failed.

(** A finished task at which the status setter raises [ExecutionFailed]: it
    must succeed and the test of [_process_finished_tasks] fails on it. *)
Definition hard_failure (w : World) (t : nat) : bool :=
  must_succeed (task w t) && negb (finished_ok w t).

(** The status of the task [t] in [w'] is the one its profile and its NOOP
    flag in [w1] ask for. *)
Definition status_by_exit (w1 w' : World) (t : nat) : Prop :=
  (task_status (task w' t) = TaskStatus.successful
   ↔ NOOP (task w1 t) = true ∨ profile (task w1 t) !! "exit_status" = Some 0)
  ∧ (task_status (task w' t) = TaskStatus.failed
     ↔ NOOP (task w1 t) = false ∧ profile (task w1 t) !! "exit_status" ≠ Some 0).

(** What the set-up of [run] keeps once the job manager is created: the job
    manager, the pending answers of the resource manager, and the status,
    flag, finishing time and budget of the execution. *)
Definition setup_frame (w w' : World) : Prop :=
  jobmanager w' = jobmanager w
  ∧ drm w' = drm w
  ∧ status (self w') = status (self w)
  ∧ successful (self w') = successful (self w)
  ∧ finished_on (self w') = finished_on (self w)
  ∧ max_cpus (self w') = max_cpus (self w).

(** A recipe of two tasks, 1 → 2, in one stage. *)
Definition recipe_chain (must1 must2 : bool) : Rendered :=
  mkRendered (mkDiGraph [1; 2]%nat [(1, 2)]%nat) (mkDiGraph [1%nat] [])
             [mkTask 1 1 1 must1 false TaskStatus.no_attempt false ∅ None None None
                     [mkTaskFile "out.txt" None];
              mkTask 2 1 1 must2 false TaskStatus.no_attempt false ∅ None None None
                     [mkTaskFile "out.txt" None]]
             [mkStage 1 "align" 1]
             (λ T, "align " +:+ pretty (task_id T)).

(** The world of a process that has just started the execution [ex], with
    the answers [d] of the resource manager ahead of it. *)
Definition world_of (ex : Execution) (s : Session)
    (d : list (list (nat * gmap string Z))) : World :=
  mkWorld s ex None (mkDiGraph [] []) d false true true.

Definition world_started (d : list (list (nat * gmap string Z))) : World :=
  world_of (example_execution (Some 1) ExecutionStatus.no_attempt)
           (example_session (example_execution (Some 1) ExecutionStatus.no_attempt) [])
           d.

(** The invariant of the scheduler loop, [queue0] being the queue it starts
    from: a task in flight is still queued and [submitted]; a task that has
    left the queue is [successful], or [failed] without having to succeed. *)
Definition settled (w : World) (t : nat) : Prop :=
  task_status (task w t) = TaskStatus.successful
  ∨ (task_status (task w t) = TaskStatus.failed ∧ must_succeed (task w t) = false).

Definition loop_inv (queue0 : list nat) (w : World) : Prop :=
  (∀ t, t ∈ running_of w →
     t ∈ nodes (task_queue w) ∧ task_status (task w t) = TaskStatus.submitted)
  ∧ (∀ t, t ∈ queue0 → t ∉ nodes (task_queue w) → settled w t).

(** The recipe 1 → 2 run from scratch; task 1 need not succeed and exits with
    status 1, then task 2 exits with status 0. *)
Definition run_soft_failure : Result World unit :=
  run (recipe_chain false true) _default_task_output_dir _default_task_log_output_dir
      false 5 (world_started [[(1%nat, exit_status 1)]; [(2%nat, exit_status 0)]]).

(** Three tasks with no edge between them, of which the first need not
    succeed, run from scratch with three CPUs; the resource manager reports
    them in one batch: task 1 with exit status 1, task 2 with exit status 3,
    task 3 with exit status 0. *)
Definition recipe_three : Rendered :=
  mkRendered (mkDiGraph [1; 2; 3]%nat []) (mkDiGraph [1%nat] [])
             [mkTask 1 1 1 false false TaskStatus.no_attempt false ∅ None None None
                     [mkTaskFile "out.txt" None];
              mkTask 2 1 1 true false TaskStatus.no_attempt false ∅ None None None
                     [mkTaskFile "out.txt" None];
              mkTask 3 1 1 true false TaskStatus.no_attempt false ∅ None None None
                     [mkTaskFile "out.txt" None]]
             [mkStage 1 "align" 1]
             (λ T, "align " +:+ pretty (task_id T)).

Definition world_three : World :=
  world_of (example_execution (Some 3) ExecutionStatus.no_attempt)
           (example_session (example_execution (Some 3) ExecutionStatus.no_attempt) [])
           [[(1%nat, exit_status 1); (2%nat, exit_status 3); (3%nat, exit_status 0)]].

Definition run_three : Result World unit :=
  run recipe_three _default_task_output_dir _default_task_log_output_dir
      false 3 world_three.

(** The same three tasks in flight, in the middle of [run], with the same
    batch ahead. *)
Definition world_three_running : World :=
  example_world (Some 3)
    [example_task 1 1 false TaskStatus.submitted;
     example_task 2 1 true TaskStatus.submitted;
     example_task 3 1 true TaskStatus.submitted]
    (mkDiGraph [1; 2; 3]%nat []) [1; 2; 3]%nat
    [[(1%nat, exit_status 1); (2%nat, exit_status 3); (3%nat, exit_status 0)]].

(** The first [k] turns of the scheduler loop. *)
Fixpoint iterations (k : nat) : M World unit :=
  match k with
  | O => ret tt
  | S k' =>
      λ w, if bool_decide (0 < length (nodes (task_queue w)))%nat
           then (loop_body ;; iterations k') w
           else Ok tt w
  end.

(** The recipe 1 → 2 run from scratch; task 1 must succeed and exits with
    status 1. *)
Definition world_hard_failure : World :=
  world_started [[(1%nat, exit_status 1)]].

(** What the status setter and its signal keep true of an execution row: the
    flag is up under the [successful] status, and a terminal status has a
    finishing time. *)
Definition status_inv (ex : Execution) : Prop :=
  (status ex = ExecutionStatus.successful → successful ex = true)
  ∧ (status ex ∈ [ExecutionStatus.successful; ExecutionStatus.failed;
                  ExecutionStatus.killed] → is_Some (finished_on ex)).

(** The same of the execution object, of every row of the table and of every
    row ever committed. *)
Definition session_inv (s : Session) : Prop :=
  Forall status_inv (history s) ∧ Forall status_inv (executions s).

Definition lifecycle_inv (w : World) : Prop :=
  status_inv (self w) ∧ session_inv (session w).

(** [keeps P]: the relation of a state with [P] to a state with [P]. *)
Definition keeps (P : World → Prop) (w w' : World) : Prop := P w → P w'.

#[global] Instance status_inv_dec ex : Decision (status_inv ex).
Proof. unfold status_inv. apply _. Defined.

#[global] Instance session_inv_dec s : Decision (session_inv s).
Proof. unfold session_inv. apply _. Defined.

#[global] Instance lifecycle_inv_dec w : Decision (lifecycle_inv w).
Proof. unfold lifecycle_inv. apply _. Defined.

(** A task row belongs to the execution [ex] and has its flag down: the rows
    [start] deletes when it resumes [ex]. *)
Definition pruned_on_resume (ex : Execution) (s : Session) (T : Task) : Prop :=
  task_stage T ∈ stage_id <$> stages_of ex s ∧ task_successful T = false.

#[global] Instance pruned_on_resume_dec ex s T : Decision (pruned_on_resume ex s T).
Proof. unfold pruned_on_resume. apply _. Defined.

(** A store with the execution "run1", finished, and three task rows of its
    stage: 1 successful, 2 failed, 3 never attempted; task 4 belongs to a
    stage of another execution. *)
Definition finished_execution : Execution :=
  mkExecution (Some 1%nat) "run1" true "/out" (Some 0%nat) (Some 7%nat) (Some 2) ∅
              ExecutionStatus.successful.

Definition session_finished : Session :=
  mkSession [finished_execution]
            [mkStage 1 "align" 1; mkStage 2 "other" 2]
            (add_all_tasks
               [mkTask 1 1 1 true false TaskStatus.successful true ∅ None None None [];
                mkTask 2 1 1 true false TaskStatus.failed false ∅ None None None [];
                mkTask 3 1 1 true false TaskStatus.no_attempt false ∅ None None None [];
                mkTask 4 2 1 true false TaskStatus.failed false ∅ None None None []] ∅)
            [] {["/"; "/out"]} [] 8.

(** The paths of the output files of a task can be rendered: they are all
    set, or the task has an output directory. *)
Definition renderable (w : World) (t : nat) : Prop :=
  forallb (λ f, bool_decide (path f ≠ None)) (output_files (task w t)) = true
  ∨ is_Some (task_output_dir (task w t)).

(** A queued task is ready for submission: it has its output and log
    directories, every output file has its path, and it has its command
    unless it is a NOOP. *)
Definition prepared (w : World) (t : nat) : Prop :=
  is_Some (task_output_dir (task w t))
  ∧ is_Some (log_dir (task w t))
  ∧ Forall (λ f, is_Some (path f)) (output_files (task w t))
  ∧ (NOOP (task w t) = false → is_Some (command (task w t))).

(** The attributes the directory loop of [run] sets. *)
Definition placed (T T' : Task) : Prop :=
  task_output_dir T' = task_output_dir T
  ∧ log_dir T' = log_dir T
  ∧ output_files T' = output_files T
  ∧ NOOP T' = NOOP T.

(** The world the set-up of [run] leaves for [recipe_chain]. *)
Definition world_set_up : World :=
  state_of (run_setup (recipe_chain true true) _default_task_output_dir
              _default_task_log_output_dir (world_started [])).

(** A queued task that is not in flight and that no sweep can submit: its
    status is not [no_attempt], or it asks for more CPUs than the budget. *)
Definition starved (t : nat) (w : World) : Prop :=
  t ∈ nodes (task_queue w) ∧ (t ∉ running_of w)
  ∧ (task_status (task w t) ≠ TaskStatus.no_attempt
     ∨ ∃ m, max_cpus (self w) = Some m ∧ m < cpu_req (task w t)).

(** A process that has just started an execution with a budget of [m]. *)
Definition world_with_budget (m : Z) : World :=
  world_of (example_execution (Some m) ExecutionStatus.no_attempt)
           (example_session (example_execution (Some m) ExecutionStatus.no_attempt) [])
           [].

(** ** [ListOfStrings] ([util/sqla.py]) *)

(** [', ' in s] *)
Fixpoint contains_sep (s : string) : bool :=
  match s with
  | EmptyString => false
  | String c s' =>
      match s' with
      | String c' _ =>
          (bool_decide (c = ","%char) && bool_decide (c' = " "%char)) || contains_sep s'
      | EmptyString => false
      end
  end.

(** [s.split(', ')]: the text is cut at each occurrence of the separator,
    found from left to right; [cur] is the piece read so far. *)
Fixpoint split_from (cur s : string) : list string :=
  match s with
  | EmptyString => [cur]
  | String c s' =>
      match s' with
      | String c' s'' =>
          if bool_decide (c = ","%char) && bool_decide (c' = " "%char)
          then cur :: split_from "" s''
          else split_from (cur +:+ String c "") s'
      | EmptyString => split_from (cur +:+ String c "") s'
      end
  end.

Definition split_comma_space (s : string) : list string := split_from "" s.

Module ListOfStrings.

(** [', '.join(value) if value else None] *)
Definition process_bind_param (value : list string) : option string :=
  match value with
  | [] => None
  | _ => Some (String.concat ", " value)
  end.

(** [value.split(', ') if value else []]: [None] and the empty text are
    both falsy. *)
Definition process_result_value (value : option string) : list string :=
  match value with
  | None | Some EmptyString => []
  | Some s => split_comma_space s
  end.

End ListOfStrings.

(** ** [parse_and_start] ([util/args.py]) *)

(** What [parser.parse_args()] gives for the arguments of
    [add_execution_args]. *)
Record Parsed := mkParsed {
  p_name : string;
  p_output_dir : option string;
  p_restart : bool;
  p_prompt_confirm : bool;
  p_max_cpus : option Z;
}.

Definition parse_and_start (parsed : Parsed) (root_output_dir : option string)
    (confirm : bool) (argv : list string) : M Session Execution :=
  output_dir ← match p_output_dir parsed with
                | None =>
                    s ← get;
                    assert (match root_output_dir with
                            | Some r => negb (bool_decide (r = "")) && bool_decide (r ∈ dirs s)
                            | None => false
                            end)
                           "root_output_dir does not exist." ;;
                    ret (Some (opj (default "" root_output_dir) (p_name parsed)))
                | Some d => ret (Some d)
                end;
  ex ← start (p_name parsed) output_dir (p_restart parsed) (p_prompt_confirm parsed)
             (p_max_cpus parsed) confirm argv;
  session_commit ex.

(** Relations for what the loop does to a task [u] that is not queued.  A
    sweep over [cands] leaves [u] and the queue alone and adds candidates
    only to the running tasks; processing the finished tasks [fin] leaves [u]
    and the job manager alone and takes nodes of [fin] only off the queue. *)
Definition running_queued (w : World) : Prop :=
  ∀ t, t ∈ running_of w → t ∈ nodes (task_queue w).

Definition swept_only (u : nat) (cands : list nat) (w w' : World) : Prop :=
  task w' u = task w u ∧ task_queue w' = task_queue w
  ∧ ∀ x, x ∈ running_of w' → x ∈ running_of w ∨ x ∈ cands.

Definition drained_only (u : nat) (fin : list nat) (w w' : World) : Prop :=
  task w' u = task w u ∧ jobmanager w' = jobmanager w
  ∧ (∀ x, x ∈ nodes (task_queue w) → x ∉ fin → x ∈ nodes (task_queue w'))
  ∧ (∀ x, x ∈ nodes (task_queue w') → x ∈ nodes (task_queue w)).

Definition untouched (u : nat) (w w' : World) : Prop :=
  running_queued w → u ∉ nodes (task_queue w) →
  task w' u = task w u ∧ running_queued w' ∧ (u ∉ nodes (task_queue w')).

(** With no delete pending, a commit leaves the task [u] as it is. *)
Definition kept (u : nat) (w w' : World) : Prop :=
  deleted_tasks (session w) = [] →
  task w' u = task w u ∧ deleted_tasks (session w') = [].

(** The recipe 1 → 2 of an execution that is run again: task 1 was
    successful in the earlier run. *)
Definition recipe_resumed : Rendered :=
  mkRendered (mkDiGraph [1; 2]%nat [(1, 2)]%nat) (mkDiGraph [1%nat] [])
             [mkTask 1 1 1 true false TaskStatus.successful true ∅
                     (Some "/out/align/1") (Some "/out/log/align/1") (Some "align 1")
                     [mkTaskFile "out.txt" (Some "/out/align/1/out.txt")];
              mkTask 2 1 1 true false TaskStatus.no_attempt false ∅ None None None
                     [mkTaskFile "out.txt" None]]
             [mkStage 1 "align" 1]
             (λ T, "align " +:+ pretty (task_id T)).

Definition world_resumed : World := world_started [[(2%nat, exit_status 0)]].

Definition world_resumed_set_up : World :=
  state_of (run_setup recipe_resumed _default_task_output_dir
              _default_task_log_output_dir world_resumed).

(** [SystemExit] is raised by the interrupt handler and by [start] only. *)
Definition no_exit (e : Exception) : Prop :=
  match e with SystemExit _ => False | _ => True end.

Definition never_exits {A} (m : M World A) : Prop :=
  ∀ w e w', m w = Raise e w' → no_exit e.

(** An execution object that has not been added to a session. *)
Definition world_detached : World :=
  mkWorld (example_session (example_execution (Some 1) ExecutionStatus.no_attempt) [])
          (example_execution (Some 1) ExecutionStatus.no_attempt)
          None (mkDiGraph [] []) [] false true false.
(** ** Properties *)

(** *** The CPU budget of zero *)

(** C6 (failing input): with [max_cpus = 0] the only ready task, of one CPU,
    is not submitted although nothing is running, while with [max_cpus]
    unset the same sweep submits it. *)
Theorem C6_max_cpus_zero_admits_nothing :
  ready_tasks (task_queue (world_budget (Some 0))) (world_budget (Some 0)) = [1%nat]
  ∧ _run_ready_tasks (world_budget (Some 0)) = Ok tt (world_budget (Some 0))
  ∧ (running_tasks <$> jobmanager (state_of (_run_ready_tasks (world_budget (Some 0))))) = Some []
  ∧ (running_tasks <$> jobmanager (state_of (_run_ready_tasks (world_budget None)))) = Some [1%nat].
Proof. repeat split; vm_compute; reflexivity. Qed.

(** *** Removal from the task queue and the status at that moment *)

(** A failed task that need not succeed is yielded, and so removed, before
    its status is assigned. *)
Lemma process_finished_task_soft_failure (yield : nat → M World unit) t w :
  profile (task w t) !! "exit_status" ≠ Some 0 →
  NOOP (task w t) = false →
  must_succeed (task w t) = false →
  process_finished_task yield t w
  = (yield t ;; set_task_status t TaskStatus.failed) w.
Proof.
  intros Hexit Hnoop Hmust. unfold process_finished_task, mbind, M_bind, bind, get.
  rewrite bool_decide_eq_false_2 by done. rewrite Hnoop, Hmust. reflexivity.
Qed.

(** C3 (failing input): a task with [must_succeed = false] that exits with
    status 1 is removed from the task queue while its status is still
    [submitted]; [failed] is assigned only when the generator resumes.  A task
    that exits with 0 has its status set before it is removed. *)
Theorem C3_soft_failure_removed_before_status :
  (∃ w', iterate (_process_finished_tasks true) checked_remove (world_one_running false 1)
         = Raise (AssertionError "removed before its status was set") w'
         ∧ task_status (task w' 1%nat) = TaskStatus.submitted)
  ∧ (∃ w', iterate (_process_finished_tasks true) remove_from_queue (world_one_running false 1)
           = Ok tt w'
           ∧ nodes (task_queue w') = []
           ∧ task_status (task w' 1%nat) = TaskStatus.failed)
  ∧ (∃ w', iterate (_process_finished_tasks true) checked_remove (world_one_running false 0)
           = Ok tt w'
           ∧ task_status (task w' 1%nat) = TaskStatus.successful).
Proof.
  repeat split; eexists; (split; [vm_compute; reflexivity|]); repeat split;
    vm_compute; reflexivity.
Qed.

(** *** [terminate] *)

(** C4 (failing input): task 1 is in flight and the resource manager already
    has its completion, with exit status 0.  [terminate] returns with the
    execution [killed] and the job manager told to terminate, but the
    completion is not drained: the answer of the resource manager is still
    pending, task 1 is still running for the job manager and its status is
    still [submitted].  Iterating the generator once would have set it to
    [successful].  A second [terminate] changes nothing. *)
Theorem C4_terminate_does_not_drain :
  let w := world_one_running true 0 in
  ∃ w', terminate w = Ok tt w'
        ∧ status (self w') = ExecutionStatus.killed
        ∧ jobmanager w' = Some (mkJobManager [1%nat] true)
        ∧ drm w' = drm w
        ∧ task_status (task w' 1%nat) = TaskStatus.submitted
        ∧ task_status (task (state_of (iterate (_process_finished_tasks false)
                                               (λ _, ret tt) w)) 1%nat)
          = TaskStatus.successful
        ∧ terminate w' = Ok tt w'.
Proof.
  eexists. split; [vm_compute; reflexivity|].
  repeat split; vm_compute; reflexivity.
Qed.

(** *** The monad *)

Lemma bind_eq {S A B} (m : M S A) (k : A → M S B) s :
  (m ≫= k) s = match m s with
               | Ok a s' => k a s'
               | Raise e s' => Raise e s'
               | Blocked s' => Blocked s'
               | OutOfFuel s' => OutOfFuel s'
               end.
Proof. reflexivity. Qed.

Lemma bind_Ok {S A B} (m : M S A) (k : A → M S B) s a s' :
  m s = Ok a s' → (m ≫= k) s = k a s'.
Proof. intros H. rewrite bind_eq, H. reflexivity. Qed.

Lemma bind_Ok_inv {S A B} (m : M S A) (k : A → M S B) s b s'' :
  (m ≫= k) s = Ok b s'' → ∃ a s', m s = Ok a s' ∧ k a s' = Ok b s''.
Proof. rewrite bind_eq. destruct (m s); try discriminate. eauto. Qed.

Lemma for_each_app {S A} (l1 l2 : list A) (body : A → M S unit) s :
  for_each (l1 ++ l2) body s = (for_each l1 body ;; for_each l2 body) s.
Proof.
  revert s. induction l1 as [|x l1 IH]; intros s; simpl; [reflexivity|].
  rewrite !bind_eq. destruct (body x s); try reflexivity.
  rewrite IH. reflexivity.
Qed.

Section Respects.
Context (R : World → World → Prop) `{!Reflexive R} `{!Transitive R}.

Lemma respects_ret {A} (a : A) : respects R (ret a).
Proof. intros w. simpl. reflexivity. Qed.

Lemma respects_raise {A} e : respects R (raise e : M World A).
Proof. intros w. simpl. reflexivity. Qed.

Lemma respects_get : respects R get.
Proof. intros w. simpl. reflexivity. Qed.

Lemma respects_assert c msg : respects R (assert c msg).
Proof. intros w. destruct c; simpl; reflexivity. Qed.

Lemma respects_modify f : (∀ w, R w (f w)) → respects R (modify f).
Proof. intros H w. apply H. Qed.

Lemma respects_bind {A B} (m : M World A) (k : A → M World B) :
  respects R m → (∀ a, respects R (k a)) → respects R (m ≫= k).
Proof.
  intros Hm Hk w. rewrite bind_eq. specialize (Hm w).
  destruct (m w) as [a s| | |]; simpl in *; try done.
  etrans; [exact Hm|apply Hk].
Qed.

(** A continuation that reads the state first. *)
Lemma respects_get_bind {A} (k : World → M World A) :
  (∀ w, R w (state_of (k w w))) → respects R (get ≫= k).
Proof. intros H w. apply H. Qed.

Lemma respects_for_each {A} (l : list A) (body : A → M World unit) :
  (∀ x, respects R (body x)) → respects R (for_each l body).
Proof.
  intros H. induction l as [|x l IH]; simpl; [apply respects_ret|].
  apply respects_bind; auto.
Qed.

Lemma respects_try {A} (m : M World A) (h : M World unit) :
  respects R m → respects R h → respects R (try_except_ExecutionFailed m h).
Proof.
  intros Hm Hh w. unfold try_except_ExecutionFailed. specialize (Hm w).
  destruct (m w) as [|e s| |]; simpl in *; try done.
  destruct e; simpl; try done.
  specialize (Hh s). destruct (h s); simpl in *; etrans; eauto.
Qed.

End Respects.

(** *** What the scheduler leaves alone *)

#[local] Instance static_eq_refl : Reflexive static_eq.
Proof. intros T. repeat split. Qed.

#[local] Instance static_eq_trans : Transitive static_eq.
Proof. intros T1 T2 T3 (?&?&?) (?&?&?). repeat split; congruence. Qed.

#[local] Instance sched_frame_refl : Reflexive sched_frame.
Proof. intros w. repeat split. Qed.

#[local] Instance sched_frame_trans : Transitive sched_frame.
Proof.
  intros w1 w2 w3 (?&?&H12) (?&?&H23). split; [congruence|]. split; [congruence|].
  intros t. etrans; [apply H12|apply H23].
Qed.

Lemma task_upd_task t f w u :
  task (upd_task t f w) u = if decide (t = u) then f (task w t) else task w u.
Proof.
  unfold task, upd_task. simpl. destruct (decide (t = u)) as [->|Hne].
  - apply lookup_total_insert_eq.
  - by apply lookup_total_insert_ne.
Qed.

Lemma task_upd_task_eq t f w : task (upd_task t f w) t = f (task w t).
Proof. rewrite task_upd_task. by rewrite decide_True. Qed.

Lemma task_upd_task_ne t f w u : t ≠ u → task (upd_task t f w) u = task w u.
Proof. intros. rewrite task_upd_task. by rewrite decide_False. Qed.

Lemma upd_task_sched_frame t f w :
  (∀ T, static_eq T (f T)) → sched_frame w (upd_task t f w).
Proof.
  intros Hf. repeat split; try reflexivity;
    rewrite task_upd_task; destruct (decide (t = _)) as [<-|]; try reflexivity;
    apply Hf.
Qed.

Lemma set_jobmanager_sched_frame j w : sched_frame w (set_jobmanager j w).
Proof. repeat split. Qed.

Lemma set_task_queue_sched_frame g w : sched_frame w (set_task_queue g w).
Proof. repeat split. Qed.

Lemma set_drm_sched_frame d w : sched_frame w (set_drm d w).
Proof. repeat split. Qed.

Lemma set_task_status_state t v w :
  state_of (set_task_status t v w)
  = upd_task t (λ T, with_task_successful
                       (bool_decide (v = TaskStatus.successful) || task_successful T)
                       (with_task_status v T)) w.
Proof. unfold set_task_status. by destruct (_ && _). Qed.

Lemma set_task_status_respects t v : respects sched_frame (set_task_status t v).
Proof.
  intros w. rewrite set_task_status_state. apply upd_task_sched_frame.
  intros T. repeat split.
Qed.

Lemma submit_respects t : respects sched_frame (submit t).
Proof.
  intros w. unfold submit. destruct (jobmanager w); [|reflexivity].
  etrans; [|apply set_task_status_respects]. apply set_jobmanager_sched_frame.
Qed.

Lemma get_running_tasks_respects : respects sched_frame get_running_tasks.
Proof. intros w. unfold get_running_tasks. destruct (jobmanager w); reflexivity. Qed.

Lemma set_profiles_sched_frame done w : sched_frame w (set_profiles done w).
Proof.
  unfold set_profiles. revert w. induction done as [|tp done IH]; intros w; simpl.
  - reflexivity.
  - etrans; [|apply IH]. apply upd_task_sched_frame. intros T. repeat split.
Qed.

Lemma get_finished_tasks_respects b : respects sched_frame (get_finished_tasks b).
Proof.
  intros w. unfold get_finished_tasks.
  destruct (jobmanager w); [|reflexivity].
  destruct (drm w); [destruct b; reflexivity|].
  destruct (_ && _); [reflexivity|]. simpl.
  etrans; [|apply set_profiles_sched_frame].
  etrans; [|apply set_drm_sched_frame]. apply set_jobmanager_sched_frame.
Qed.

Lemma JobManager_terminate_respects : respects sched_frame JobManager_terminate.
Proof.
  intros w. unfold JobManager_terminate. destruct (jobmanager w); [|reflexivity].
  apply set_jobmanager_sched_frame.
Qed.

Lemma render_paths_respects t : respects sched_frame (render_paths t).
Proof.
  intros w. unfold render_paths. destruct (forallb _ _); [reflexivity|].
  destruct (task_output_dir _); [|reflexivity]. simpl.
  apply upd_task_sched_frame. intros T. repeat split.
Qed.

Lemma sweep_respects mx cands : respects sched_frame (sweep mx cands).
Proof.
  induction cands as [|c cands IH]; simpl; [apply respects_ret; apply _|].
  apply respects_bind; [apply _|apply get_running_tasks_respects|]. intros running.
  apply respects_get_bind. intros w. destruct (over_budget _ _ _).
  - reflexivity.
  - apply respects_bind; [apply _|apply render_paths_respects|]. intros _.
    apply respects_bind; [apply _|apply submit_respects|]. intros _. apply IH.
Qed.

Lemma _run_ready_tasks_respects : respects sched_frame _run_ready_tasks.
Proof. unfold _run_ready_tasks. apply respects_get_bind. intros w. apply sweep_respects. Qed.

Lemma remove_from_queue_respects t : respects sched_frame (remove_from_queue t).
Proof.
  intros w. unfold remove_from_queue. destruct (remove_node _ _); [|reflexivity].
  apply set_task_queue_sched_frame.
Qed.

Lemma process_finished_task_respects yield t :
  (∀ u, respects sched_frame (yield u)) →
  respects sched_frame (process_finished_task yield t).
Proof.
  intros Hy. unfold process_finished_task. apply respects_get_bind. intros w.
  destruct (_ || _).
  - apply respects_bind; [apply _|apply set_task_status_respects|]. intros _. apply Hy.
  - apply respects_bind; [apply _| |intros _; apply set_task_status_respects].
    destruct (negb _); [apply Hy|apply respects_ret; apply _].
Qed.

Lemma iterate_process_respects b yield :
  (∀ u, respects sched_frame (yield u)) →
  respects sched_frame (iterate (_process_finished_tasks b) yield).
Proof.
  intros Hy. unfold iterate, _process_finished_tasks.
  apply respects_bind; [apply _|apply get_finished_tasks_respects|]. intros fin.
  apply respects_for_each; [apply _..|]. intros t. by apply process_finished_task_respects.
Qed.

Lemma loop_body_respects : respects sched_frame loop_body.
Proof.
  unfold loop_body. apply respects_bind; [apply _|apply _run_ready_tasks_respects|].
  intros _. apply iterate_process_respects, remove_from_queue_respects.
Qed.

Lemma scheduler_loop_respects fuel : respects sched_frame (scheduler_loop fuel).
Proof.
  induction fuel as [|fuel IH]; intros w; simpl.
  - destruct (bool_decide _); reflexivity.
  - destruct (bool_decide _); [|reflexivity].
    apply (respects_bind sched_frame loop_body (λ _, scheduler_loop fuel));
      [apply loop_body_respects|intros _; apply IH].
Qed.

(** *** [sorted]: ascending and a permutation *)

Lemma insert_by_Permutation key x l : insert_by key x l ≡ₚ x :: l.
Proof.
  induction l as [|y l IH]; simpl; [done|].
  destruct (decide (key x ≤ key y)); [done|].
  rewrite IH. apply Permutation_swap.
Qed.

Lemma sorted_Permutation key l : sorted key l ≡ₚ l.
Proof.
  induction l as [|x l IH]; simpl; [done|].
  rewrite insert_by_Permutation. by rewrite IH.
Qed.

Lemma insert_by_StronglySorted key x l :
  StronglySorted (λ a b, key a ≤ key b) l →
  StronglySorted (λ a b, key a ≤ key b) (insert_by key x l).
Proof.
  induction 1 as [|y l Hs IH Hall]; simpl.
  - repeat constructor.
  - destruct (decide (key x ≤ key y)) as [Hle|Hgt].
    + constructor; [by constructor|]. constructor; [done|].
      eapply Forall_impl; [exact Hall|]. simpl. lia.
    + constructor; [done|].
      rewrite insert_by_Permutation. constructor; [lia|done].
Qed.

Lemma sorted_StronglySorted key l :
  StronglySorted (λ a b, key a ≤ key b) (sorted key l).
Proof.
  induction l as [|x l IH]; simpl; [constructor|].
  by apply insert_by_StronglySorted.
Qed.

(** Equal keys keep the order they had: the sort is stable. *)
Lemma insert_by_stable key x l :
  Forall (λ y, key x ≤ key y) l → insert_by key x l = x :: l.
Proof. destruct 1 as [|y l Hy _]; simpl; [done|]. by rewrite decide_True. Qed.

(** *** Sums of CPU requirements *)

Lemma sumZ_app l1 l2 : sumZ (l1 ++ l2) = sumZ l1 + sumZ l2.
Proof. induction l1 as [|x l1 IH]; simpl; lia. Qed.

Lemma sumZ_sublist l1 l2 :
  l1 `sublist_of` l2 → Forall (λ x, 0 ≤ x) l2 → sumZ l1 ≤ sumZ l2.
Proof.
  induction 1 as [|x l1 l2 _ IH|x l1 l2 _ IH]; intros Hall; simpl.
  - lia.
  - apply Forall_cons in Hall as [_ Hall]. specialize (IH Hall). lia.
  - apply Forall_cons in Hall as [Hx Hall]. specialize (IH Hall). lia.
Qed.

Lemma report_sublist batch running :
  (report batch running).2 `sublist_of` running.
Proof.
  revert running. induction batch as [|[t p] batch IH]; intros running; simpl; [done|].
  destruct (decide (t ∈ running)); simpl; [|apply IH].
  etrans; [apply IH|]. apply sublist_filter.
Qed.

Lemma report_not_running batch running t :
  t ∈ (report batch running).1.*1 → t ∉ (report batch running).2.
Proof.
  revert running. induction batch as [|[u p] batch IH]; intros running; simpl.
  - by intros ?%elem_of_nil.
  - destruct (decide (u ∈ running)); simpl; [|apply IH].
    intros [->|Hin]%elem_of_cons.
    + intros Hin. eapply elem_of_sublist in Hin; [|apply report_sublist].
      apply list_elem_of_filter in Hin as [? _]. done.
    + by apply IH.
Qed.

Lemma report_was_running batch running t :
  t ∈ (report batch running).1.*1 → t ∈ running.
Proof.
  revert running. induction batch as [|[u p] batch IH]; intros running; simpl.
  - by intros ?%elem_of_nil.
  - destruct (decide (u ∈ running)); simpl; [|apply IH].
    intros [->|Hin]%elem_of_cons; [done|].
    apply IH in Hin. by apply list_elem_of_filter in Hin as [_ ?].
Qed.

(** *** The admission sweep *)

#[local] Instance task_frame_refl : Reflexive task_frame.
Proof. intros w. repeat split. Qed.

#[local] Instance task_frame_trans : Transitive task_frame.
Proof.
  intros w1 w2 w3 (Ha&?&?&?&Hs1) (Hb&?&?&?&Hs2).
  split; [by etrans|]. repeat split; try congruence.
  all: intros t; by rewrite Hs2.
Qed.

Lemma upd_task_task_frame t f w :
  (∀ T, static_eq T (f T)) → (∀ T, task_status (f T) = task_status T) →
  task_frame w (upd_task t f w).
Proof.
  intros Hf Hs. split; [by apply upd_task_sched_frame|]. repeat split.
  intros u. rewrite task_upd_task. destruct (decide (t = u)) as [<-|]; [apply Hs|done].
Qed.

Lemma render_paths_task_frame t : respects task_frame (render_paths t).
Proof.
  intros w. unfold render_paths. destruct (forallb _ _); [reflexivity|].
  destruct (task_output_dir _); [|reflexivity]. simpl.
  apply upd_task_task_frame; intros T; repeat split.
Qed.

Lemma render_paths_outcome t w :
  render_paths t w = Raise TypeError w ∨ ∃ w1, render_paths t w = Ok tt w1.
Proof.
  unfold render_paths. destruct (forallb _ _); [right; eauto|].
  destruct (task_output_dir _); [right; eauto|by left].
Qed.

Lemma submit_Ok t w jm :
  jobmanager w = Some jm →
  ∃ w', submit t w = Ok tt w'
        ∧ jobmanager w' = Some (mkJobManager (running_tasks jm ++ [t]) (terminated jm))
        ∧ task_queue w' = task_queue w
        ∧ drm w' = drm w
        ∧ task_status (task w' t) = TaskStatus.submitted
        ∧ ∀ u, u ≠ t → task_status (task w' u) = task_status (task w u).
Proof.
  intros Hjm. unfold submit. rewrite Hjm. unfold set_task_status. simpl.
  eexists. split; [reflexivity|]. repeat split.
  - by rewrite task_upd_task_eq.
  - intros u Hne. by rewrite task_upd_task_ne.
Qed.

Lemma sweep_cons mx t cands w jm :
  jobmanager w = Some jm →
  sweep mx (t :: cands) w
  = if over_budget mx (cpu_req (task w t)) (cores_used w) then Ok tt w
    else (render_paths t ;; submit t ;; sweep mx cands) w.
Proof.
  intros Hjm. cbn [sweep]. rewrite bind_eq. unfold get_running_tasks at 1.
  rewrite Hjm. rewrite bind_eq. cbn [get]. unfold cores_used, running_of.
  rewrite Hjm. by destruct (over_budget _ _ _).
Qed.

Lemma sweep_spec (c : nat → Z) mx cands :
  ∀ w jm,
    jobmanager w = Some jm →
    (∀ t, cpu_req (task w t) = c t) →
    ∃ k, (k ≤ length cands)%nat
         ∧ running_of (state_of (sweep mx cands w)) = running_tasks jm ++ take k cands
         ∧ (∀ i t, (i < k)%nat → cands !! i = Some t →
              over_budget mx (c t) (sumZ (c <$> running_tasks jm ++ take i cands)) = false)
         ∧ (∀ w' t, sweep mx cands w = Ok tt w' → cands !! k = Some t →
              over_budget mx (c t) (sumZ (c <$> running_of w')) = true).
Proof.
  induction cands as [|t cands IH]; intros w jm Hjm Hc.
  { exists 0%nat. simpl. unfold running_of. rewrite Hjm, app_nil_r.
    split; [done|]. split; [done|]. split; [lia|]. intros ? ? _ ?. done. }
  rewrite (sweep_cons _ _ _ _ jm) by done.
  assert (cores_used w = sumZ (c <$> running_tasks jm)) as Hused.
  { unfold cores_used, running_of. rewrite Hjm. f_equal.
    apply list_fmap_ext. intros; apply Hc. }
  rewrite Hc, Hused.
  destruct (over_budget mx (c t) _) eqn:Hover.
  - exists 0%nat. simpl. unfold running_of. rewrite Hjm, app_nil_r.
    split; [lia|]. split; [done|]. split; [lia|]. intros w' t' [= <-] [= <-].
    by rewrite Hjm.
  - rewrite bind_eq.
    pose proof (render_paths_task_frame t w) as (Hsf&Hjm1&_).
    destruct (render_paths_outcome t w) as [Hr|[w1 Hr]]; rewrite Hr in *; simpl in *.
    { exists 0%nat. unfold running_of. rewrite Hjm, app_nil_r.
      split; [lia|]. split; [done|]. split; [lia|]. intros ? ? [=]. }
    rewrite Hjm in Hjm1.
    destruct (submit_Ok t w1 jm Hjm1) as (w2&Hsub&Hjm2&_).
    rewrite bind_eq, Hsub.
    destruct (IH w2 _ Hjm2) as (k&Hk&Hrun&Hadm&Hstop).
    { intros u. rewrite <- Hc.
      pose proof (submit_respects t w1) as (_&_&Hst). rewrite Hsub in Hst.
      simpl in Hst. destruct (Hst u) as (->&_). destruct Hsf as (_&_&Hst1).
      by destruct (Hst1 u) as (->&_). }
    exists (S k). simpl in *. split; [lia|].
    split; [by rewrite Hrun, <- app_assoc|].
    split.
    + intros [|i] u Hi Hu; simpl in *.
      * injection Hu as <-. by rewrite app_nil_r.
      * rewrite cons_middle, app_assoc. apply Hadm; [lia|done].
    + intros w' u Hw' Hu. by apply Hstop.
Qed.

(** *** The CPU budget *)

Lemma cores_used_frame w w' :
  sched_frame w w' → jobmanager w' = jobmanager w → cores_used w' = cores_used w.
Proof.
  intros (_&_&Hst) Hjm. unfold cores_used, running_of. rewrite Hjm. f_equal.
  apply list_fmap_ext. intros _ t _. by destruct (Hst t) as (->&_).
Qed.

Lemma sweep_budget m cands w jm :
  jobmanager w = Some jm →
  cores_used w ≤ m →
  cores_used (state_of (sweep (Some m) cands w)) ≤ m.
Proof.
  intros Hjm Hle.
  destruct (sweep_spec (λ t, cpu_req (task w t)) (Some m) cands w jm)
    as (k&Hk&Hrun&Hadm&_); [done..|].
  pose proof (sweep_respects (Some m) cands w) as (_&_&Hst).
  unfold cores_used. rewrite Hrun.
  rewrite (list_fmap_ext _ (λ t, cpu_req (task w t)))
    by (intros _ t _; by destruct (Hst t) as (->&_)).
  destruct k as [|k].
  - rewrite app_nil_r. unfold cores_used, running_of in Hle. by rewrite Hjm in Hle.
  - destruct (lookup_lt_is_Some_2 cands k) as [t Ht]; [lia|].
    specialize (Hadm k t ltac:(lia) Ht). simpl in Hadm.
    apply bool_decide_eq_false in Hadm.
    rewrite (take_S_r _ _ _ Ht), app_assoc, fmap_app, sumZ_app. simpl. lia.
Qed.

#[local] Instance drain_frame_refl : Reflexive drain_frame.
Proof. intros w. repeat split. Qed.

#[local] Instance drain_frame_trans : Transitive drain_frame.
Proof.
  intros w1 w2 w3 (Ha&?&?) (Hb&?&?). split; [by etrans|]. split; congruence.
Qed.

Lemma set_task_status_drain_frame t v : respects drain_frame (set_task_status t v).
Proof.
  intros w. split; [apply set_task_status_respects|].
  rewrite set_task_status_state. done.
Qed.

Lemma remove_from_queue_drain_frame t : respects drain_frame (remove_from_queue t).
Proof.
  intros w. split; [apply remove_from_queue_respects|].
  unfold remove_from_queue. by destruct (remove_node _ _).
Qed.

Lemma process_finished_task_drain_frame yield t :
  (∀ u, respects drain_frame (yield u)) →
  respects drain_frame (process_finished_task yield t).
Proof.
  intros Hy. unfold process_finished_task. apply respects_get_bind. intros w.
  destruct (_ || _).
  - apply respects_bind; [apply _|apply set_task_status_drain_frame|]. intros _. apply Hy.
  - apply respects_bind; [apply _| |intros _; apply set_task_status_drain_frame].
    destruct (negb _); [apply Hy|apply respects_ret; apply _].
Qed.

Lemma get_finished_tasks_budget b w :
  (∀ t, 0 ≤ cpu_req (task w t)) →
  cores_used (state_of (get_finished_tasks b w)) ≤ cores_used w.
Proof.
  intros Hpos.
  pose proof (get_finished_tasks_respects b w) as (_&_&Hst).
  unfold cores_used at 1.
  rewrite (list_fmap_ext _ (λ t, cpu_req (task w t)))
    by (intros _ t _; by destruct (Hst t) as (->&_)).
  clear Hst. unfold cores_used, running_of, get_finished_tasks.
  destruct (jobmanager w) as [jm|] eqn:Hjm; simpl; [|by rewrite Hjm].
  destruct (drm w); [destruct b; simpl; by rewrite Hjm|].
  destruct (_ && _); simpl; [by rewrite Hjm|].
  assert (∀ d w0, jobmanager (set_profiles d w0) = jobmanager w0) as ->.
  { unfold set_profiles. induction d as [|tp d IH]; intros w0; simpl; [done|].
    by rewrite IH. }
  simpl. apply sumZ_sublist.
  - apply fmap_sublist, report_sublist.
  - apply Forall_fmap, Forall_forall. intros t _. apply Hpos.
Qed.

Lemma iterate_process_budget b w m :
  (∀ t, 0 ≤ cpu_req (task w t)) →
  cores_used w ≤ m →
  cores_used (state_of (iterate (_process_finished_tasks b) remove_from_queue w)) ≤ m.
Proof.
  intros Hpos Hle. unfold iterate, _process_finished_tasks. rewrite bind_eq.
  pose proof (get_finished_tasks_budget b w Hpos) as Hfin.
  destruct (get_finished_tasks b w) as [fin w1| | |]; simpl in *; try lia.
  pose proof (respects_for_each drain_frame fin
                (process_finished_task remove_from_queue)
                (λ t, process_finished_task_drain_frame _ t
                        remove_from_queue_drain_frame) w1) as (Hsf&Hjm&_).
  rewrite (cores_used_frame _ _ Hsf Hjm). lia.
Qed.

Lemma sweep_within_budget cands w :
  within_budget w → within_budget (state_of (sweep (max_cpus (self w)) cands w)).
Proof.
  intros [Hpos Hle].
  pose proof (sweep_respects (max_cpus (self w)) cands w) as Hsf.
  split.
  { intros t. destruct Hsf as (_&_&Hst). destruct (Hst t) as (->&_). apply Hpos. }
  intros m Hm. destruct Hsf as (Hself&_). rewrite Hself in Hm.
  rewrite Hm. specialize (Hle m Hm).
  destruct (jobmanager w) as [jm|] eqn:Hjm; [by eapply sweep_budget|].
  destruct cands as [|t cands]; simpl; [done|].
  rewrite bind_eq. unfold get_running_tasks. by rewrite Hjm.
Qed.

Lemma _run_ready_tasks_within_budget w :
  within_budget w → within_budget (state_of (_run_ready_tasks w)).
Proof. intros H. unfold _run_ready_tasks. rewrite bind_eq. by apply sweep_within_budget. Qed.

Lemma iterate_process_within_budget b w :
  within_budget w →
  within_budget (state_of (iterate (_process_finished_tasks b) remove_from_queue w)).
Proof.
  intros [Hpos Hle].
  pose proof (iterate_process_respects b _ remove_from_queue_respects w) as (Hself&_&Hst).
  split.
  - intros t. destruct (Hst t) as (->&_). apply Hpos.
  - intros m Hm. rewrite Hself in Hm. apply iterate_process_budget; auto.
Qed.

Lemma loop_body_within_budget w :
  within_budget w → within_budget (state_of (loop_body w)).
Proof.
  intros H. unfold loop_body. rewrite bind_eq.
  pose proof (_run_ready_tasks_within_budget w H) as H1.
  destruct (_run_ready_tasks w) as [[] w1| | |]; simpl in *; try done.
  by apply iterate_process_within_budget.
Qed.

Lemma scheduler_loop_within_budget fuel w :
  within_budget w → within_budget (state_of (scheduler_loop fuel w)).
Proof.
  revert w. induction fuel as [|fuel IH]; intros w H; simpl.
  - by destruct (bool_decide _).
  - destruct (bool_decide _); [|done]. rewrite bind_eq.
    pose proof (loop_body_within_budget w H) as H1.
    destruct (loop_body w) as [[] w1| | |]; simpl in *; try done.
    by apply IH.
Qed.

Lemma cpu_reqs_nonneg_task w : cpu_reqs_nonneg w → ∀ t, 0 ≤ cpu_req (task w t).
Proof.
  intros H t. unfold task. rewrite lookup_total_alt.
  destruct (tasks (session w) !! t) as [T|] eqn:Ht; simpl; [|done].
  by apply (H t T).
Qed.

(** C2: in an admission sweep the ready tasks are taken in ascending order of
    [cpu_req]; with [max_cpus = m] the tasks submitted are a prefix of that
    order, each admitted with its [cpu_req] plus the CPUs in flight at most
    [m]; the first candidate over the budget ends the sweep, nothing after it
    is submitted; and the CPUs in flight stay within [m] after every part of
    a sweep, after the finished tasks are processed and at every turn of the
    scheduler loop. *)
Theorem C2_cpu_budget (w : World) (m : Z) (jm : JobManager) :
  max_cpus (self w) = Some m →
  jobmanager w = Some jm →
  cpu_reqs_nonneg w →
  cores_used w ≤ m →
  let c := λ t, cpu_req (task w t) in
  let candidates := sorted c (ready_tasks (task_queue w) w) in
  StronglySorted (λ a b, c a ≤ c b) candidates
  ∧ candidates ≡ₚ ready_tasks (task_queue w) w
  ∧ (∃ k, (k ≤ length candidates)%nat
          ∧ running_of (state_of (_run_ready_tasks w))
            = running_tasks jm ++ take k candidates
          ∧ (∀ i t, (i < k)%nat → candidates !! i = Some t →
               c t + sumZ (c <$> running_tasks jm ++ take i candidates) ≤ m)
          ∧ (∀ w' t, _run_ready_tasks w = Ok tt w' → candidates !! k = Some t →
               c t + sumZ (c <$> running_of w') > m))
  ∧ (∀ cands, cores_used (state_of (sweep (Some m) cands w)) ≤ m)
  ∧ (∀ b, cores_used (state_of (iterate (_process_finished_tasks b) remove_from_queue w)) ≤ m)
  ∧ cores_used (state_of (loop_body w)) ≤ m
  ∧ (∀ fuel, cores_used (state_of (scheduler_loop fuel w)) ≤ m).
Proof.
  intros Hm Hjm Hnonneg Hle c candidates.
  pose proof (cpu_reqs_nonneg_task w Hnonneg) as Hpos.
  assert (within_budget w) as Hwb.
  { split; [done|]. intros m' Hm'. congruence. }
  split; [apply sorted_StronglySorted|].
  split; [apply sorted_Permutation|].
  split.
  { destruct (sweep_spec c (Some m) candidates w jm) as (k&Hk&Hrun&Hadm&Hstop); [done..|].
    exists k. unfold _run_ready_tasks. rewrite bind_eq. cbn [get]. rewrite Hm.
    split; [done|]. split; [done|]. split.
    - intros i t Hi Ht. specialize (Hadm i t Hi Ht). simpl in Hadm.
      apply bool_decide_eq_false in Hadm. lia.
    - intros w' t Hw' Ht. specialize (Hstop w' t Hw' Ht). simpl in Hstop.
      by apply bool_decide_eq_true in Hstop. }
  split.
  { intros cands. by eapply sweep_budget. }
  split.
  { intros b. by apply iterate_process_budget. }
  split.
  { pose proof (loop_body_within_budget w Hwb) as [_ H].
    apply H. by destruct (loop_body_respects w) as (->&_). }
  intros fuel. pose proof (scheduler_loop_within_budget fuel w Hwb) as [_ H].
  apply H. by destruct (scheduler_loop_respects fuel w) as (->&_).
Qed.

Lemma C2_cpu_budget_witness :
  let w := world_diamond in
  let c := λ t, cpu_req (task w t) in
  let candidates := sorted c (ready_tasks (task_queue w) w) in
  candidates = [2; 3]%nat
  ∧ running_of (state_of (_run_ready_tasks w)) = [2%nat]
  ∧ StronglySorted (λ a b, c a ≤ c b) candidates
  ∧ (∀ fuel, cores_used (state_of (scheduler_loop fuel w)) ≤ 3).
Proof.
  split; [vm_compute; reflexivity|].
  split; [vm_compute; reflexivity|].
  assert (max_cpus (self world_diamond) = Some 3) as Hm by (vm_compute; reflexivity).
  assert (jobmanager world_diamond = Some (mkJobManager [] false)) as Hjm
    by (vm_compute; reflexivity).
  assert (cpu_reqs_nonneg world_diamond) as Hpos
    by (apply (bool_decide_unpack (cpu_reqs_nonneg world_diamond)); vm_compute; exact I).
  assert (cores_used world_diamond ≤ 3) as Hle by (vm_compute; discriminate).
  destruct (C2_cpu_budget world_diamond 3 _ Hm Hjm Hpos Hle) as (Hs&_&_&_&_&_&Hloop).
  split; [exact Hs|exact Hloop].
Defined.

(** *** The status of a finished task *)

Lemma set_task_status_task t v w u :
  task (state_of (set_task_status t v w)) u
  = if decide (t = u)
    then with_task_successful
           (bool_decide (v = TaskStatus.successful) || task_successful (task w t))
           (with_task_status v (task w t))
    else task w u.
Proof. rewrite set_task_status_state. apply task_upd_task. Qed.

Lemma set_task_status_Ok t v w :
  v ≠ TaskStatus.failed ∨ must_succeed (task w t) = false →
  ∃ w', set_task_status t v w = Ok tt w'.
Proof.
  intros H. unfold set_task_status.
  destruct H as [H| ->].
  - rewrite bool_decide_eq_false_2 by done. eauto.
  - rewrite andb_false_r. eauto.
Qed.

Lemma set_task_status_Raise t w :
  must_succeed (task w t) = true →
  ∃ w', set_task_status t TaskStatus.failed w = Raise ExecutionFailed w'.
Proof. intros H. unfold set_task_status. rewrite H. simpl. eauto. Qed.

Lemma remove_from_queue_Ok t w :
  t ∈ nodes (task_queue w) →
  remove_from_queue t w = Ok tt (set_task_queue (drop_node t (task_queue w)) w).
Proof. intros H. unfold remove_from_queue, remove_node. by rewrite decide_True. Qed.

(** One finished task, with the loop body of [run] as the consumer: in every
    outcome the task has the status the test decides, and no other task is
    touched. *)
Lemma process_finished_task_verdict t w :
  t ∈ nodes (task_queue w) →
  let w' := state_of (process_finished_task remove_from_queue t w) in
  task_status (task w' t) = verdict w t
  ∧ profile (task w' t) = profile (task w t)
  ∧ NOOP (task w' t) = NOOP (task w t)
  ∧ ∀ u, u ≠ t → task w' u = task w u.
Proof.
  intros Hin. unfold verdict, finished_ok, process_finished_task.
  rewrite bind_eq. cbn [get].
  destruct (_ || _).
  - rewrite bind_eq.
    destruct (set_task_status_Ok t TaskStatus.successful w) as [w1 Hw1]; [by left|].
    pose proof (set_task_status_state t TaskStatus.successful w) as Hst.
    rewrite Hw1 in Hst |- *. simpl in Hst. subst w1.
    rewrite remove_from_queue_Ok by done. simpl.
    change (task (set_task_queue ?g ?w0)) with (task w0).
    repeat split.
    + by rewrite task_upd_task_eq.
    + by rewrite task_upd_task_eq.
    + by rewrite task_upd_task_eq.
    + intros u Hu. by rewrite task_upd_task_ne.
  - rewrite bind_eq.
    assert (∃ w1, (if negb (must_succeed (task w t)) then remove_from_queue t else ret tt) w
                  = Ok tt w1 ∧ task w1 = task w) as (w1&->&Hs).
    { destruct (negb _); [rewrite remove_from_queue_Ok by done|]; eauto. }
    rewrite set_task_status_state. rewrite !task_upd_task_eq, Hs.
    repeat split. intros u Hu. by rewrite task_upd_task_ne, Hs.
Qed.

Lemma process_finished_task_Ok t w w' :
  process_finished_task remove_from_queue t w = Ok tt w' →
  task_status (task w' t) = verdict w t
  ∧ profile (task w' t) = profile (task w t)
  ∧ NOOP (task w' t) = NOOP (task w t)
  ∧ ∀ u, u ≠ t → task w' u = task w u.
Proof.
  intros HOk. destruct (decide (t ∈ nodes (task_queue w))) as [Hin|Hnin].
  { pose proof (process_finished_task_verdict t w Hin) as H. by rewrite HOk in H. }
  exfalso. revert HOk. unfold process_finished_task. rewrite bind_eq. cbn [get].
  assert (∀ w0, task_queue w0 = task_queue w →
                remove_from_queue t w0 = Raise NetworkXError w0) as Hrm.
  { intros w0 Hq. unfold remove_from_queue, remove_node. rewrite Hq.
    by rewrite decide_False. }
  destruct (_ || _).
  - rewrite bind_eq. unfold set_task_status at 1. simpl. by rewrite Hrm.
  - rewrite bind_eq. destruct (must_succeed (task w t)) eqn:Hmust; simpl.
    + unfold set_task_status. by rewrite Hmust.
    + by rewrite Hrm.
Qed.

Lemma for_each_process_Ok fin :
  ∀ w w',
    for_each fin (process_finished_task remove_from_queue) w = Ok tt w' →
    (∀ t, t ∈ fin → task_status (task w' t) = verdict w t)
    ∧ (∀ u, finished_ok w' u = finished_ok w u)
    ∧ (∀ u, u ∉ fin → task w' u = task w u).
Proof.
  induction fin as [|t fin IH]; intros w w' HOk.
  { injection HOk as <-. split; [by intros ? ?%elem_of_nil|done]. }
  simpl in HOk. apply bind_Ok_inv in HOk as ([]&w1&Ht&Hrest).
  apply process_finished_task_Ok in Ht as (Hst&Hprof&Hnoop&Hother).
  apply IH in Hrest as (IHst&IHok&IHother).
  assert (∀ u, finished_ok w1 u = finished_ok w u) as Hok1.
  { intros u. unfold finished_ok. destruct (decide (u = t)) as [->|Hne].
    - by rewrite Hprof, Hnoop.
    - by rewrite Hother. }
  split; [|split].
  - intros u Hu. destruct (decide (u ∈ fin)) as [Hin|Hnin].
    + rewrite IHst by done. unfold verdict. by rewrite Hok1.
    + apply elem_of_cons in Hu as [->|?]; [|done].
      by rewrite IHother.
  - intros u. by rewrite IHok.
  - intros u [Hne Hnin]%not_elem_of_cons. rewrite IHother by done. by apply Hother.
Qed.

Lemma verdict_successful w t :
  verdict w t = TaskStatus.successful
  ↔ NOOP (task w t) = true ∨ profile (task w t) !! "exit_status" = Some 0.
Proof.
  unfold verdict, finished_ok.
  destruct (bool_decide_reflect (profile (task w t) !! "exit_status" = Some 0));
    destruct (NOOP (task w t)); simpl; intuition congruence.
Qed.

Lemma verdict_failed w t :
  verdict w t = TaskStatus.failed
  ↔ NOOP (task w t) = false ∧ profile (task w t) !! "exit_status" ≠ Some 0.
Proof.
  unfold verdict, finished_ok.
  destruct (bool_decide_reflect (profile (task w t) !! "exit_status" = Some 0));
    destruct (NOOP (task w t)); simpl; intuition congruence.
Qed.

(** *** The set-up of [run] *)

Lemma respects_weaken {A} (R R' : World → World → Prop) (m : M World A) :
  (∀ w w', R w w' → R' w w') → respects R m → respects R' m.
Proof. intros H Hm w. apply H, Hm. Qed.

#[local] Instance setup_frame_refl : Reflexive setup_frame.
Proof. intros w. repeat split. Qed.

#[local] Instance setup_frame_trans : Transitive setup_frame.
Proof. intros w1 w2 w3 (?&?&?&?&?&?) (?&?&?&?&?&?). repeat split; congruence. Qed.

Lemma task_frame_setup_frame w w' : task_frame w w' → setup_frame w w'.
Proof. intros ((Hself&_)&?&_&?&_). unfold setup_frame. rewrite Hself. done. Qed.

Lemma commit_setup_frame : respects setup_frame commit.
Proof.
  intros w. unfold commit, flush. destruct (in_session w); [|reflexivity]. simpl.
  destruct (id (self w)); repeat split.
Qed.

Lemma assert_task_frame c msg : respects task_frame (assert c msg).
Proof. apply respects_assert; apply _. Qed.

Lemma set_output_dirs_task_frame tod tlod queue :
  ∀ log_dirs, respects task_frame (set_output_dirs tod tlod queue log_dirs).
Proof.
  induction queue as [|t queue IH]; intros log_dirs; cbn [set_output_dirs].
  { apply respects_ret; apply _. }
  apply respects_get_bind. intros w.
  apply (respects_bind task_frame).
  { apply respects_modify. intros w0. apply upd_task_task_frame; intros T; repeat split. }
  intros _. apply respects_get_bind. intros w1.
  apply (respects_bind task_frame).
  { destruct (log_dirs !! _); [apply respects_raise|apply respects_ret]; apply _. }
  intros _. apply (respects_bind task_frame).
  { apply respects_modify. intros w0. apply upd_task_task_frame; intros T; repeat split. }
  intros _. apply (respects_bind task_frame); [apply render_paths_task_frame|].
  intros _. apply IH.
Qed.

Lemma set_commands_task_frame gen queue : respects task_frame (set_commands gen queue).
Proof.
  unfold set_commands. apply respects_for_each; [apply _..|]. intros t.
  apply respects_get_bind. intros w. destruct (negb _); [|reflexivity].
  apply upd_task_task_frame; intros T; repeat split.
Qed.

(** *** The execution stays in its session, or outside *)

#[local] Instance bound_refl : Reflexive bound.
Proof. intros w. reflexivity. Qed.

#[local] Instance bound_trans : Transitive bound.
Proof. intros w1 w2 w3 H12 H23. unfold bound in *. congruence. Qed.

Lemma set_task_status_bound t v : respects bound (set_task_status t v).
Proof. intros w. by rewrite set_task_status_state. Qed.

Lemma render_paths_bound t : respects bound (render_paths t).
Proof.
  intros w. unfold render_paths. destruct (forallb _ _); [reflexivity|].
  destruct (task_output_dir _); reflexivity.
Qed.

Lemma submit_bound t : respects bound (submit t).
Proof.
  intros w. unfold submit. destruct (jobmanager w); [|reflexivity].
  by rewrite set_task_status_state.
Qed.

Lemma sweep_bound mx cands : respects bound (sweep mx cands).
Proof.
  induction cands as [|c cands IH]; simpl; [apply respects_ret; apply _|].
  apply respects_bind; [apply _| |].
  { intros w. unfold get_running_tasks. destruct (jobmanager w); reflexivity. }
  intros running. apply respects_get_bind. intros w. destruct (over_budget _ _ _).
  - reflexivity.
  - apply respects_bind; [apply _|apply render_paths_bound|]. intros _.
    apply respects_bind; [apply _|apply submit_bound|]. intros _. apply IH.
Qed.

Lemma set_profiles_bound done w : bound w (set_profiles done w).
Proof.
  unfold set_profiles. revert w. induction done as [|tp done IH]; intros w; simpl.
  - reflexivity.
  - etrans; [|apply IH]. reflexivity.
Qed.

Lemma get_finished_tasks_bound b : respects bound (get_finished_tasks b).
Proof.
  intros w. unfold get_finished_tasks. destruct (jobmanager w); [|reflexivity].
  destruct (drm w); [by destruct b|]. destruct (_ && _); [reflexivity|]. simpl.
  etrans; [|apply set_profiles_bound]. reflexivity.
Qed.

Lemma remove_from_queue_bound t : respects bound (remove_from_queue t).
Proof.
  intros w. unfold remove_from_queue. destruct (remove_node _ _); reflexivity.
Qed.

Lemma process_finished_task_bound yield t :
  (∀ u, respects bound (yield u)) →
  respects bound (process_finished_task yield t).
Proof.
  intros Hy. unfold process_finished_task. apply respects_get_bind. intros w.
  destruct (_ || _).
  - apply respects_bind; [apply _|apply set_task_status_bound|]. intros _. apply Hy.
  - apply respects_bind; [apply _| |intros _; apply set_task_status_bound].
    destruct (negb _); [apply Hy|apply respects_ret; apply _].
Qed.

Lemma loop_body_bound : respects bound loop_body.
Proof.
  unfold loop_body. apply respects_bind; [apply _| |].
  { unfold _run_ready_tasks. apply respects_get_bind. intros w. apply sweep_bound. }
  intros _. unfold iterate, _process_finished_tasks.
  apply respects_bind; [apply _|apply get_finished_tasks_bound|]. intros fin.
  apply respects_for_each; [apply _..|]. intros t.
  apply process_finished_task_bound, remove_from_queue_bound.
Qed.

Lemma scheduler_loop_bound fuel : respects bound (scheduler_loop fuel).
Proof.
  induction fuel as [|fuel IH]; intros w; simpl.
  - destruct (bool_decide _); reflexivity.
  - destruct (bool_decide _); [|reflexivity].
    apply (respects_bind bound loop_body (λ _, scheduler_loop fuel));
      [apply loop_body_bound|intros _; apply IH].
Qed.

Lemma commit_bound : respects bound commit.
Proof. intros w. unfold commit. destruct (in_session w) eqn:Hin; [|reflexivity]. done. Qed.

Lemma set_status_bound v : respects bound (set_status v).
Proof.
  unfold set_status. apply respects_get_bind. intros w.
  destruct (bool_decide _); [|reflexivity].
  apply (respects_bind bound); [by apply respects_modify|]. intros _.
  unfold _execution_status_changed. apply respects_get_bind. intros w1.
  apply (respects_bind bound).
  { destruct (bool_decide _); [by apply respects_modify|apply respects_ret; apply _]. }
  intros _. apply (respects_bind bound); [|intros _; apply commit_bound].
  destruct (bool_decide _); [by apply respects_modify|apply respects_ret; apply _].
Qed.

Lemma terminate_bound : respects bound terminate.
Proof.
  unfold terminate. apply respects_get_bind. intros w.
  apply (respects_bind bound); [|intros _; apply set_status_bound].
  destruct (jobmanager w); [|apply respects_ret; apply _].
  intros w0. unfold JobManager_terminate. destruct (jobmanager w0); reflexivity.
Qed.

Lemma set_output_dirs_bound tod tlod queue :
  ∀ log_dirs, respects bound (set_output_dirs tod tlod queue log_dirs).
Proof.
  induction queue as [|t queue IH]; intros log_dirs; cbn [set_output_dirs].
  { apply respects_ret; apply _. }
  apply respects_get_bind. intros w.
  apply (respects_bind bound); [by apply respects_modify|].
  intros _. apply respects_get_bind. intros w1.
  apply (respects_bind bound).
  { destruct (log_dirs !! _); [apply respects_raise|apply respects_ret]; apply _. }
  intros _. apply (respects_bind bound); [by apply respects_modify|].
  intros _. apply (respects_bind bound); [apply render_paths_bound|].
  intros _. apply IH.
Qed.

Lemma set_commands_bound gen queue : respects bound (set_commands gen queue).
Proof.
  unfold set_commands. apply respects_for_each; [apply _..|]. intros t.
  apply respects_get_bind. intros w. destruct (negb _); reflexivity.
Qed.

Lemma run_setup_bound recipe tod tlod : respects bound (run_setup recipe tod tlod).
Proof.
  unfold run_setup. apply respects_get_bind. intros w.
  apply (respects_bind bound); [apply respects_assert; apply _|]. intros _.
  apply (respects_bind bound); [apply set_status_bound|]. intros _.
  apply (respects_bind bound); [by apply respects_modify|]. intros _.
  apply (respects_bind bound); [by apply respects_modify|]. intros _.
  apply respects_get_bind. intros w4.
  apply (respects_bind bound).
  { destruct (started_on (self w4)); [apply respects_ret; apply _|].
    by apply respects_modify. }
  intros _. apply (respects_bind bound); [by apply respects_modify|].
  intros _. apply (respects_bind bound); [by apply respects_modify|].
  intros _. apply respects_get_bind. intros w5.
  apply (respects_bind bound); [by apply respects_modify|].
  intros _. apply (respects_bind bound).
  { apply respects_modify. intros w0. by destruct (main_thread w0). }
  intros _. apply (respects_bind bound); [apply commit_bound|].
  intros _. apply respects_get_bind. intros w6.
  apply (respects_bind bound); [apply set_output_dirs_bound|].
  intros _. apply (respects_bind bound); [apply set_commands_bound|].
  intros _. apply commit_bound.
Qed.

(** [run] outside a session: the assertion fails before anything is done. *)
Lemma run_setup_detached recipe tod tlod w :
  in_session w = false →
  run_setup recipe tod tlod w
  = Raise (AssertionError "Execution must be part of a sqlalchemy session") w.
Proof. intros Hin. unfold run_setup. rewrite bind_eq. cbn [get]. by rewrite Hin. Qed.

Lemma run_setup_Ok_in_session recipe tod tlod w w_s :
  run_setup recipe tod tlod w = Ok tt w_s →
  in_session w = true ∧ in_session w_s = true.
Proof.
  intros HOk. destruct (in_session w) eqn:Hin.
  - split; [done|]. pose proof (run_setup_bound recipe tod tlod w) as Hb.
    rewrite HOk in Hb. unfold bound in Hb. simpl in Hb. congruence.
  - by rewrite run_setup_detached in HOk.
Qed.

(** In every outcome of the set-up of an execution in a session the
    execution is [running] with its flag down and has a job manager with
    nothing in flight; the resource manager has not been polled. *)
Lemma run_setup_post recipe tod tlod w :
  in_session w = true →
  let w' := state_of (run_setup recipe tod tlod w) in
  status (self w') = ExecutionStatus.running
  ∧ successful (self w') = false
  ∧ jobmanager w' = Some JobManager_new
  ∧ drm w' = drm w
  ∧ max_cpus (self w') = max_cpus (self w)
  ∧ finished_on (self w') = finished_on (self w).
Proof.
  intros Hin. cbv zeta. unfold run_setup. rewrite bind_eq. cbn [get]. rewrite Hin.
  unfold assert. rewrite bind_eq. cbn [ret]. cbv beta. rewrite bind_eq.
  assert (∃ w1, set_status ExecutionStatus.running w = Ok tt w1
                ∧ status (self w1) = ExecutionStatus.running
                ∧ drm w1 = drm w
                ∧ max_cpus (self w1) = max_cpus (self w)
                ∧ finished_on (self w1) = finished_on (self w))
    as (w1&->&Hst&Hdrm&Hmax&Hfin).
  { unfold set_status. rewrite bind_eq. cbn [get].
    destruct (bool_decide_reflect (status (self w) ≠ ExecutionStatus.running)) as [Hne|Heq].
    - unfold _execution_status_changed, commit, mbind, M_bind, bind, get, modify, ret.
      simpl. rewrite Hin. eexists. split; [reflexivity|]. simpl.
      by destruct (id (self w)).
    - eexists. split; [reflexivity|]. apply dec_stable in Heq. done. }
  rewrite bind_eq. cbn [modify]. rewrite bind_eq. cbn [modify].
  set (w3 := set_jobmanager _ _).
  match goal with |- context [state_of (?m w3)] =>
    assert (setup_frame w3 (state_of (m w3))) as (Hjm'&Hdrm'&Hst'&Hsucc'&Hfin'&Hmax')
  end.
  { apply respects_get_bind. intros w4.
    apply (respects_bind setup_frame).
    { destruct (started_on (self w4)); [apply respects_ret; apply _|].
      apply respects_modify. intros w0. repeat split. }
    intros _. apply (respects_bind setup_frame).
    { apply respects_modify. intros w0. repeat split. }
    intros _. apply (respects_bind setup_frame).
    { apply respects_modify. intros w0. repeat split. }
    intros _. apply respects_get_bind. intros w5.
    apply (respects_bind setup_frame).
    { apply respects_modify. intros w0. repeat split. }
    intros _. apply (respects_bind setup_frame).
    { apply respects_modify. intros w0. by destruct (main_thread w0). }
    intros _. apply (respects_bind setup_frame); [apply commit_setup_frame|].
    intros _. apply respects_get_bind. intros w6.
    apply (respects_bind setup_frame).
    { eapply respects_weaken; [apply task_frame_setup_frame|].
      apply set_output_dirs_task_frame. }
    intros _. apply (respects_bind setup_frame).
    { eapply respects_weaken; [apply task_frame_setup_frame|].
      apply set_commands_task_frame. }
    intros _. apply commit_setup_frame. }
  cbv zeta. split_and!.
  - etrans; [exact Hst'|]. subst w3. simpl. done.
  - etrans; [exact Hsucc'|]. subst w3. simpl. done.
  - etrans; [exact Hjm'|]. subst w3. simpl. done.
  - etrans; [exact Hdrm'|]. subst w3. simpl. done.
  - etrans; [exact Hmax'|]. subst w3. simpl. done.
  - etrans; [exact Hfin'|]. subst w3. simpl. done.
Qed.

(** *** A dry run *)

(** C10: a dry [run] that passes the set-up returns with the execution still
    [running] and its flag down; the job manager is the fresh one, with
    nothing in flight, the resource manager has not been polled, and the
    tasks and the queue are as the set-up left them. *)
Theorem C10_dry_run recipe tod tlod fuel (w w_s : World) :
  run_setup recipe tod tlod w = Ok tt w_s →
  ∃ w', run recipe tod tlod true fuel w = Ok tt w'
        ∧ status (self w') = ExecutionStatus.running
        ∧ successful (self w') = false
        ∧ jobmanager w' = Some JobManager_new
        ∧ running_of w' = []
        ∧ drm w' = drm w
        ∧ task_queue w' = task_queue w_s
        ∧ tasks (session w') ⊆ tasks (session w_s).
Proof.
  intros Hs. destruct (run_setup_Ok_in_session _ _ _ _ _ Hs) as [Hin Hin_s].
  pose proof (run_setup_post recipe tod tlod w Hin) as Hpost.
  rewrite Hs in Hpost. simpl in Hpost. destruct Hpost as (Hst&Hsucc&Hjm&Hdrm&_).
  unfold run, try_except_ExecutionFailed, run_body.
  rewrite bind_eq, Hs. cbn [negb]. rewrite bind_eq. cbn [ret]. unfold commit.
  rewrite Hin_s. eexists. split; [reflexivity|]. simpl.
  unfold running_of. simpl. rewrite Hjm. repeat split; try done.
  - by destruct (id (self w_s)).
  - by destruct (id (self w_s)).
  - apply map_filter_subseteq.
Qed.

Lemma C10_dry_run_witness :
  ∃ w', run (recipe_chain true true) _default_task_output_dir
            _default_task_log_output_dir true 0 (world_started []) = Ok tt w'
        ∧ status (self w') = ExecutionStatus.running
        ∧ running_of w' = [].
Proof.
  destruct (C10_dry_run (recipe_chain true true) _default_task_output_dir
              _default_task_log_output_dir 0 (world_started [])
              (state_of (run_setup (recipe_chain true true) _default_task_output_dir
                           _default_task_log_output_dir (world_started []))))
    as (w'&Hrun&Hst&_&_&Hrunning&_).
  - vm_compute. reflexivity.
  - exists w'. split; [exact Hrun|]. split; [exact Hst|exact Hrunning].
Defined.

(** *** The scheduler loop up to the drained queue *)

Lemma process_finished_task_Ok_queue t w w' :
  process_finished_task remove_from_queue t w = Ok tt w' →
  t ∈ nodes (task_queue w)
  ∧ task_queue w' = drop_node t (task_queue w)
  ∧ jobmanager w' = jobmanager w
  ∧ (∀ u, must_succeed (task w' u) = must_succeed (task w u))
  ∧ (verdict w t = TaskStatus.failed → must_succeed (task w t) = false).
Proof.
  intros HOk.
  pose proof (process_finished_task_drain_frame _ t remove_from_queue_drain_frame w)
    as ((_&_&Hst)&Hjm&_).
  rewrite HOk in Hst, Hjm. simpl in Hst, Hjm.
  assert (∀ u, must_succeed (task w' u) = must_succeed (task w u)) as Hmust.
  { intros u. by destruct (Hst u) as (_&->&_). }
  revert HOk. unfold process_finished_task, verdict, finished_ok.
  rewrite bind_eq. cbn [get].
  assert (∀ w0, task_queue w0 = task_queue w → ∀ w1,
            remove_from_queue t w0 = Ok tt w1 →
            t ∈ nodes (task_queue w) ∧ task_queue w1 = drop_node t (task_queue w))
    as Hrm.
  { intros w0 Hq w1. unfold remove_from_queue, remove_node. rewrite Hq.
    destruct (decide _); [|done]. by intros [= <-]. }
  destruct (_ || _).
  - rewrite bind_eq. unfold set_task_status at 1. simpl.
    intros H. apply Hrm in H as [? ?]; done.
  - rewrite bind_eq. destruct (must_succeed (task w t)) eqn:Hm; simpl.
    { unfold set_task_status. by rewrite Hm. }
    pose proof (remove_from_queue_respects t w) as (_&_&Hst1).
    destruct (remove_from_queue t w) as [[] w1| | |] eqn:Hr; try done.
    simpl in Hst1. destruct (Hst1 t) as (_&Hms&_).
    apply Hrm in Hr as [? Hq]; [|done].
    unfold set_task_status. simpl. rewrite Hms, Hm.
    intros [= <-]. simpl. done.
Qed.

Lemma settled_frame w w' t :
  task w' t = task w t → settled w t → settled w' t.
Proof. unfold settled. by intros ->. Qed.

Lemma for_each_process_loop_inv queue0 fin :
  ∀ w w',
    for_each fin (process_finished_task remove_from_queue) w = Ok tt w' →
    (∀ t, t ∈ running_of w → t ∉ fin) →
    loop_inv queue0 w → loop_inv queue0 w'.
Proof.
  induction fin as [|t fin IH]; intros w w' HOk Hdisj Hinv.
  { by injection HOk as <-. }
  simpl in HOk. apply bind_Ok_inv in HOk as ([]&w1&Ht&Hrest).
  pose proof (process_finished_task_Ok _ _ _ Ht) as (Hst&_&_&Hother).
  pose proof (process_finished_task_Ok_queue _ _ _ Ht) as (Hin&Hq&Hjm&Hmust&Hsoft).
  assert (running_of w1 = running_of w) as Hrun by (unfold running_of; by rewrite Hjm).
  apply (IH w1 w' Hrest).
  { intros u Hu. rewrite Hrun in Hu. specialize (Hdisj u Hu).
    by apply not_elem_of_cons in Hdisj as [_ ?]. }
  destruct Hinv as [Ha Hb]. split.
  - intros u Hu. rewrite Hrun in Hu. destruct (Ha u Hu) as [Hnode Hsub].
    assert (u ≠ t) as Hne.
    { specialize (Hdisj u Hu). by apply not_elem_of_cons in Hdisj as [? _]. }
    rewrite Hq, Hother by done. split; [|done].
    unfold drop_node. simpl. apply list_elem_of_filter. done.
  - intros u Hu Hnin. destruct (decide (u = t)) as [->|Hne].
    + unfold settled. rewrite Hst, Hmust. unfold verdict in *.
      destruct (finished_ok w t); [by left|right]. split; [done|]. by apply Hsoft.
    + apply (settled_frame w); [by apply Hother|]. apply Hb; [done|].
      intros Hnode. apply Hnin. rewrite Hq. unfold drop_node. simpl.
      apply list_elem_of_filter. done.
Qed.

Lemma set_profiles_task_frame done w : task_frame w (set_profiles done w).
Proof.
  unfold set_profiles. revert w. induction done as [|tp done IH]; intros w; simpl.
  - reflexivity.
  - etrans; [|apply IH]. apply upd_task_task_frame; intros T; repeat split.
Qed.

Lemma get_finished_tasks_Ok b w fin w1 :
  get_finished_tasks b w = Ok fin w1 →
  (∀ t, t ∈ fin → t ∈ running_of w ∧ t ∉ running_of w1)
  ∧ (∀ t, t ∈ running_of w1 → t ∈ running_of w)
  ∧ task_queue w1 = task_queue w
  ∧ sched_frame w w1
  ∧ ∀ t, task_status (task w1 t) = task_status (task w t).
Proof.
  unfold get_finished_tasks, running_of.
  destruct (jobmanager w) as [jm|] eqn:Hjm; [|done].
  destruct (drm w) as [|batch rest].
  { destruct b; [done|]. intros [= <- <-]. rewrite Hjm.
    split; [by intros ? ?%elem_of_nil|]. split; [done|]. repeat split. }
  destruct (_ && _); [done|]. intros [= <- <-].
  match goal with |- context [set_profiles ?d ?w0] =>
    pose proof (set_profiles_task_frame d w0) as (Hsf&Hjm1&Hq&_&Hst) end.
  rewrite Hjm1, Hq. simpl. split; [|split; [|split; [done|split]]].
  - intros t Ht. split; [by eapply report_was_running|by apply report_not_running].
  - intros t Ht. eapply elem_of_sublist; [done|apply report_sublist].
  - etrans; [|exact Hsf]. repeat split.
  - intros t. by rewrite Hst.
Qed.

Lemma iterate_process_loop_inv queue0 b w w' :
  iterate (_process_finished_tasks b) remove_from_queue w = Ok tt w' →
  loop_inv queue0 w → loop_inv queue0 w'.
Proof.
  unfold iterate, _process_finished_tasks. intros HOk Hinv.
  apply bind_Ok_inv in HOk as (fin&w1&Hfin&Hrest).
  apply get_finished_tasks_Ok in Hfin as (Hfin&Hsub&Hq&(_&_&Hstat)&Hst).
  apply (for_each_process_loop_inv queue0 fin w1 w' Hrest).
  { intros t Ht Hin. by destruct (Hfin t Hin). }
  destruct Hinv as [Ha Hb]. split.
  - intros t Ht. rewrite Hq, Hst. by apply Ha, Hsub.
  - intros t Ht Hnin. rewrite Hq in Hnin. specialize (Hb t Ht Hnin).
    unfold settled in *. rewrite Hst. by destruct (Hstat t) as (_&->&_).
Qed.

Lemma sweep_loop_inv queue0 mx cands :
  ∀ w w',
    sweep mx cands w = Ok tt w' →
    (∀ t, t ∈ cands → t ∈ nodes (task_queue w)) →
    loop_inv queue0 w → loop_inv queue0 w'.
Proof.
  induction cands as [|t cands IH]; intros w w' HOk Hnodes Hinv.
  { by injection HOk as <-. }
  destruct (jobmanager w) as [jm|] eqn:Hjm; cycle 1.
  { simpl in HOk. rewrite bind_eq in HOk. unfold get_running_tasks in HOk.
    by rewrite Hjm in HOk. }
  rewrite (sweep_cons _ _ _ _ jm) in HOk by done.
  destruct (over_budget _ _ _); [by injection HOk as <-|].
  apply bind_Ok_inv in HOk as ([]&w1&Hrender&HOk).
  apply bind_Ok_inv in HOk as ([]&w2&Hsubmit&HOk).
  pose proof (render_paths_task_frame t w) as ((_&_&Hstat1)&Hjm1&Hq1&_&Hst1).
  rewrite Hrender in Hstat1, Hjm1, Hq1, Hst1. simpl in *. rewrite Hjm in Hjm1.
  destruct (submit_Ok t w1 jm Hjm1) as (w2'&Hsub'&Hjm2&Hq2&_&Hst2&Hst2').
  rewrite Hsubmit in Hsub'. injection Hsub' as <-.
  pose proof (submit_respects t w1) as (_&_&Hstat2). rewrite Hsubmit in Hstat2.
  simpl in Hstat2.
  apply (IH w2 w' HOk).
  { intros u Hu. rewrite Hq2, Hq1. apply Hnodes. by right. }
  destruct Hinv as [Ha Hb]. split.
  - intros u Hu. unfold running_of in Hu. rewrite Hjm2 in Hu. simpl in Hu.
    rewrite Hq2, Hq1. destruct (decide (u = t)) as [->|Hne].
    { split; [apply Hnodes; by left|done]. }
    apply elem_of_app in Hu as [Hu|Hu%list_elem_of_singleton]; [|done].
    rewrite Hst2', Hst1 by done. apply Ha. unfold running_of. by rewrite Hjm.
  - intros u Hu Hnin. rewrite Hq2, Hq1 in Hnin.
    assert (u ≠ t) as Hne.
    { intros ->. apply Hnin, Hnodes. by left. }
    specialize (Hb u Hu Hnin). unfold settled in *.
    rewrite Hst2', Hst1 by done.
    destruct (Hstat2 u) as (_&->&_). by destruct (Hstat1 u) as (_&->&_).
Qed.

Lemma _run_ready_tasks_loop_inv queue0 w w' :
  _run_ready_tasks w = Ok tt w' → loop_inv queue0 w → loop_inv queue0 w'.
Proof.
  unfold _run_ready_tasks. rewrite bind_eq. cbn [get]. intros HOk.
  eapply sweep_loop_inv; [exact HOk|].
  intros t Ht. rewrite sorted_Permutation in Ht.
  unfold ready_tasks in Ht. by apply list_elem_of_filter in Ht as [_ ?].
Qed.

Lemma loop_body_loop_inv queue0 w w' :
  loop_body w = Ok tt w' → loop_inv queue0 w → loop_inv queue0 w'.
Proof.
  unfold loop_body. intros HOk Hinv.
  apply bind_Ok_inv in HOk as ([]&w1&Hready&Hdrain).
  eapply iterate_process_loop_inv; [exact Hdrain|].
  by eapply _run_ready_tasks_loop_inv.
Qed.

Lemma scheduler_loop_Ok queue0 fuel :
  ∀ w w',
    scheduler_loop fuel w = Ok tt w' →
    loop_inv queue0 w →
    loop_inv queue0 w' ∧ nodes (task_queue w') = [].
Proof.
  induction fuel as [|fuel IH]; intros w w'; simpl;
    destruct (bool_decide_reflect (0 < length (nodes (task_queue w)))%nat) as [Hpos|Hzero];
    try done.
  - intros [= <-] Hinv. split; [done|].
    destruct (nodes (task_queue w)); [done|simpl in Hzero; lia].
  - intros HOk Hinv. apply bind_Ok_inv in HOk as ([]&w1&Hbody&Hloop).
    apply (IH w1 w' Hloop). by eapply loop_body_loop_inv.
  - intros [= <-] Hinv. split; [done|].
    destruct (nodes (task_queue w)); [done|simpl in Hzero; lia].
Qed.

(** *** Commits and the status of the execution *)

Lemma flush_tasks ex s :
  deleted_tasks s = [] → tasks (flush ex s).2 = tasks s.
Proof.
  intros Hdel. unfold flush. simpl. apply map_filter_id.
  intros t T _. simpl. rewrite Hdel. apply not_elem_of_nil.
Qed.

Lemma commit_Ok w :
  in_session w = true →
  ∃ w', commit w = Ok tt w'
        ∧ task_queue w' = task_queue w
        ∧ jobmanager w' = jobmanager w
        ∧ drm w' = drm w
        ∧ deleted_tasks (session w') = []
        ∧ status (self w') = status (self w)
        ∧ successful (self w') = successful (self w)
        ∧ finished_on (self w') = finished_on (self w)
        ∧ history (session w') = self w' :: history (session w)
        ∧ (deleted_tasks (session w) = [] → tasks (session w') = tasks (session w)).
Proof.
  intros Hin. unfold commit. rewrite Hin.
  eexists. split; [reflexivity|].
  split; [done|]. split; [done|]. split; [done|]. split; [done|].
  split; [simpl; by destruct (id (self w))|].
  split; [simpl; by destruct (id (self w))|].
  split; [simpl; by destruct (id (self w))|].
  split; [done|]. apply flush_tasks.
Qed.

Lemma commit_Ok_in_session w w' :
  commit w = Ok tt w' → in_session w = true ∧ in_session w' = true.
Proof.
  unfold commit. destruct (in_session w) eqn:Hin; [|done].
  intros [= <-]. done.
Qed.

Lemma commit_Ok_session w u w' : commit w = Ok u w' → in_session w = true.
Proof. unfold commit. by destruct (in_session w). Qed.

Lemma Ok_bound {A} (m : M World A) w a w' :
  respects bound m → m w = Ok a w' → in_session w' = in_session w.
Proof. intros Hb HOk. specialize (Hb w). by rewrite HOk in Hb. Qed.

(** An assignment to [status] that changes it: the signal handler sets the
    finishing time of a terminal status, raises the flag with [successful],
    and commits. *)
Lemma set_status_change v w :
  in_session w = true →
  status (self w) ≠ v →
  ∃ w', set_status v w = Ok tt w'
        ∧ status (self w') = v
        ∧ task_queue w' = task_queue w
        ∧ jobmanager w' = jobmanager w
        ∧ drm w' = drm w
        ∧ successful (self w')
          = (bool_decide (v = ExecutionStatus.successful) || successful (self w))
        ∧ finished_on (self w')
          = (if bool_decide (v ∈ [ExecutionStatus.successful; ExecutionStatus.failed;
                                  ExecutionStatus.killed])
             then Some (clock (session w)) else finished_on (self w))
        ∧ deleted_tasks (session w') = []
        ∧ history (session w') = self w' :: history (session w)
        ∧ (deleted_tasks (session w) = [] → tasks (session w') = tasks (session w)).
Proof.
  intros Hin Hne. unfold set_status. rewrite bind_eq. cbn [get].
  rewrite bool_decide_eq_true_2 by done.
  rewrite bind_eq. cbn [modify]. unfold _execution_status_changed.
  rewrite bind_eq. cbn [get]. rewrite bind_eq.
  set (w1 := set_self (with_status v) w).
  change (status (self w1)) with v.
  destruct (bool_decide (v ∈ _)) eqn:Hterm; cbn [modify ret];
    rewrite bind_eq;
    destruct (bool_decide (v = ExecutionStatus.successful)) eqn:Hsucc; cbn [modify ret];
    (destruct (commit_Ok (set_self (with_successful true)
                 (set_self (with_finished_on (Some (clock (session w1)))) w1)) Hin)
       as (w'&->&?&?&?&?&Hst&Hs&Hf&?&Ht)
     || destruct (commit_Ok (set_self (with_finished_on (Some (clock (session w1)))) w1)
                   Hin)
       as (w'&->&?&?&?&?&Hst&Hs&Hf&?&Ht)
     || destruct (commit_Ok (set_self (with_successful true) w1) Hin)
       as (w'&->&?&?&?&?&Hst&Hs&Hf&?&Ht)
     || destruct (commit_Ok w1 Hin) as (w'&->&?&?&?&?&Hst&Hs&Hf&?&Ht));
    exists w'; (split; [reflexivity|]);
    rewrite Hst, Hs, Hf; repeat split; try done.
Qed.

Ltac ok_inv H :=
  repeat (apply bind_Ok_inv in H as (?&?&?&H)).

Lemma run_setup_deleted recipe tod tlod w w_s :
  run_setup recipe tod tlod w = Ok tt w_s → deleted_tasks (session w_s) = [].
Proof.
  intros H. unfold run_setup in H. ok_inv H.
  match type of H with commit ?x = _ =>
    destruct (commit_Ok x) as (w'&Hc&_&_&_&Hdel&_);
      [by apply commit_Ok_in_session in H as [? _]|] end.
  rewrite H in Hc. by injection Hc as <-.
Qed.

(** *** A soft failure does not change the outcome of [run] *)

Lemma sched_frame_deleted w w' :
  sched_frame w w' → deleted_tasks (session w') = deleted_tasks (session w).
Proof. intros (_&H&_). unfold session_rest in H. by injection H. Qed.

Lemma try_except_Ok_inv {S A} (m : M S A) h s a s' :
  try_except_ExecutionFailed m h s = Ok a s' → m s = Ok a s'.
Proof.
  unfold try_except_ExecutionFailed. destruct (m s) as [| [] ?| |]; try done.
  by destruct (h _).
Qed.

Lemma soft_failure_step t w :
  t ∈ nodes (task_queue w) →
  must_succeed (task w t) = false →
  finished_ok w t = false →
  ∃ w', process_finished_task remove_from_queue t w = Ok tt w'
        ∧ task_status (task w' t) = TaskStatus.failed
        ∧ (t ∉ nodes (task_queue w'))
        ∧ self w' = self w.
Proof.
  intros Hin Hmust Hok. unfold finished_ok in Hok.
  apply orb_false_iff in Hok as [Hexit%bool_decide_eq_false Hnoop].
  rewrite process_finished_task_soft_failure by done.
  rewrite bind_eq, remove_from_queue_Ok by done.
  unfold set_task_status. simpl.
  change (task (set_task_queue ?g ?w0)) with (task w0). rewrite Hmust. simpl.
  eexists. split; [reflexivity|]. split; [by rewrite task_upd_task_eq|].
  split; [|done]. simpl. intros [? _]%list_elem_of_filter. done.
Qed.

(** C1 (counterexample): task 1 need not succeed and exits with status 1; it
    is marked [failed], task 2 then runs, the queue drains and [run] returns
    with the execution [successful], not [failed]. *)
Lemma C1_counterexample :
  run_soft_failure = Ok tt (state_of run_soft_failure)
  ∧ must_succeed (task (state_of run_soft_failure) 1%nat) = false
  ∧ profile (task (state_of run_soft_failure) 1%nat) !! "exit_status" = Some 1
  ∧ task_status (task (state_of run_soft_failure) 1%nat) = TaskStatus.failed
  ∧ task_status (task (state_of run_soft_failure) 2%nat) = TaskStatus.successful
  ∧ nodes (task_queue (state_of run_soft_failure)) = []
  ∧ status (self (state_of run_soft_failure)) = ExecutionStatus.successful
  ∧ status (self (state_of run_soft_failure)) ≠ ExecutionStatus.failed.
Proof.
  split_and!; [vm_compute; reflexivity..|].
  vm_compute. intros H. discriminate H.
Qed.

(** *** A failure of a task that must succeed *)

Lemma iterations_respects k : respects sched_frame (iterations k).
Proof.
  induction k as [|k IH]; intros w; simpl; [reflexivity|].
  destruct (bool_decide _); [|reflexivity].
  apply (respects_bind sched_frame loop_body (λ _, iterations k));
    [apply loop_body_respects|intros _; apply IH].
Qed.

Lemma scheduler_loop_split k n :
  ∀ w w_k,
    iterations k w = Ok tt w_k →
    scheduler_loop (k + n) w = scheduler_loop n w_k.
Proof.
  induction k as [|k IH]; intros w w_k Hk; simpl in *.
  { by injection Hk as <-. }
  destruct (bool_decide_reflect (0 < length (nodes (task_queue w)))%nat) as [Hpos|Hzero].
  - apply bind_Ok_inv in Hk as ([]&w1&Hbody&Hk).
    rewrite bind_eq, Hbody. by apply IH.
  - injection Hk as <-. destruct n; simpl; by rewrite bool_decide_eq_false_2.
Qed.

Lemma hard_failure_step yield t w :
  must_succeed (task w t) = true →
  finished_ok w t = false →
  ∃ w', process_finished_task yield t w = Raise ExecutionFailed w'
        ∧ task_status (task w' t) = TaskStatus.failed
        ∧ drain_frame w w'.
Proof.
  intros Hmust Hok. unfold process_finished_task. rewrite bind_eq. cbn [get].
  unfold finished_ok in Hok. rewrite Hok, Hmust, bind_eq. simpl.
  pose proof (set_task_status_drain_frame t TaskStatus.failed w) as Hframe.
  pose proof (set_task_status_task t TaskStatus.failed w t) as Htask.
  destruct (set_task_status_Raise t w Hmust) as (w'&Hraise).
  rewrite Hraise in *. simpl in *. exists w'. split; [done|]. split; [|done].
  by rewrite Htask, decide_True.
Qed.

Lemma terminate_Ok w jm :
  in_session w = true →
  jobmanager w = Some jm →
  status (self w) ≠ ExecutionStatus.killed →
  deleted_tasks (session w) = [] →
  ∃ w', terminate w = Ok tt w'
        ∧ status (self w') = ExecutionStatus.killed
        ∧ jobmanager w' = Some (mkJobManager (running_tasks jm) true)
        ∧ drm w' = drm w
        ∧ tasks (session w') = tasks (session w)
        ∧ task_queue w' = task_queue w.
Proof.
  intros Hin Hjm Hst Hdel. unfold terminate. rewrite bind_eq. cbn [get].
  rewrite Hjm, bind_eq. unfold JobManager_terminate. rewrite Hjm.
  destruct (set_status_change ExecutionStatus.killed
              (set_jobmanager (Some (mkJobManager (running_tasks jm) true)) w) Hin)
    as (w'&->&?&?&?&?&_&_&_&_&Ht); [done|].
  exists w'. split; [done|]. repeat split; try done. by apply Ht.
Qed.

(** The run has passed its set-up and [k] turns of the loop; in the next
    turn the tasks [pre] of the batch are processed, and the setter raises at
    the task [t] that follows them. *)
Lemma hard_failure_kills_run_from recipe tod tlod (k n : nat)
    (w w_s w_k w_a w_b w_t : World) (pre post : list nat) (t : nat) :
  run_setup recipe tod tlod w = Ok tt w_s →
  iterations k w_s = Ok tt w_k →
  (0 < length (nodes (task_queue w_k)))%nat →
  _run_ready_tasks w_k = Ok tt w_a →
  get_finished_tasks true w_a = Ok (pre ++ t :: post) w_b →
  for_each pre (process_finished_task remove_from_queue) w_b = Ok tt w_t →
  must_succeed (task w_t t) = true →
  finished_ok w_t t = false →
  ∃ w_f w',
    scheduler_loop (k + S n) w_s = Raise ExecutionFailed w_f
    ∧ task_status (task w_f t) = TaskStatus.failed
    ∧ terminate w_f = Ok tt w'
    ∧ run recipe tod tlod false (k + S n) w = Raise ExecutionFailed w'
    ∧ status (self w') = ExecutionStatus.killed
    ∧ task_status (task w' t) = TaskStatus.failed
    ∧ (terminated <$> jobmanager w') = Some true.
Proof.
  intros Hsetup Hk Hpos Hready Hfin Hpre Hmust Hok.
  destruct (hard_failure_step remove_from_queue t w_t Hmust Hok)
    as (w_f&Hstep&Hfailed&Hframe_t).
  exists w_f.
  (* the loop raises *)
  assert (loop_body w_k = Raise ExecutionFailed w_f) as Hbody.
  { unfold loop_body. rewrite bind_eq, Hready.
    unfold iterate, _process_finished_tasks. rewrite bind_eq, Hfin.
    rewrite for_each_app, bind_eq, Hpre. simpl. by rewrite bind_eq, Hstep. }
  assert (scheduler_loop (k + S n) w_s = Raise ExecutionFailed w_f) as Hloop.
  { rewrite (scheduler_loop_split k (S n) w_s w_k Hk). simpl.
    rewrite bool_decide_eq_true_2 by done. by rewrite bind_eq, Hbody. }
  (* what the loop has left alone *)
  assert (sched_frame w_s w_f) as Hframe.
  { pose proof (iterations_respects k w_s) as H1. rewrite Hk in H1.
    pose proof (_run_ready_tasks_respects w_k) as H2. rewrite Hready in H2.
    pose proof (get_finished_tasks_respects true w_a) as H3. rewrite Hfin in H3.
    pose proof (respects_for_each sched_frame pre _
                  (λ u, process_finished_task_respects _ u remove_from_queue_respects)
                  w_b) as H4.
    rewrite Hpre in H4. simpl in *. destruct Hframe_t as (H5&_).
    etrans; [exact H1|]. etrans; [exact H2|]. etrans; [exact H3|]. by etrans. }
  destruct (run_setup_Ok_in_session _ _ _ _ _ Hsetup) as [Hin Hin_s].
  assert (in_session w_f = true) as Hin_f.
  { pose proof (scheduler_loop_bound (k + S n) w_s) as Hb.
    rewrite Hloop in Hb. unfold bound in Hb. simpl in Hb. congruence. }
  pose proof (run_setup_post recipe tod tlod w Hin) as Hpost.
  rewrite Hsetup in Hpost. simpl in Hpost. destruct Hpost as (Hrunning&_).
  pose proof (sched_frame_deleted _ _ Hframe) as Hdel.
  rewrite (run_setup_deleted _ _ _ _ _ Hsetup) in Hdel.
  assert (∃ jm, jobmanager w_f = Some jm) as (jm&Hjm).
  { destruct Hframe_t as (_&->&_).
    pose proof (respects_for_each drain_frame pre _
                  (λ u, process_finished_task_drain_frame _ u
                          remove_from_queue_drain_frame) w_b) as (_&Hj&_).
    rewrite Hpre in Hj. simpl in Hj. rewrite Hj.
    unfold get_finished_tasks in Hfin.
    destruct (jobmanager w_a); [|done]. destruct (drm w_a); [done|].
    destruct (_ && _); [done|]. injection Hfin as _ <-.
    assert (∀ d w0, jobmanager (set_profiles d w0) = jobmanager w0) as ->.
    { unfold set_profiles. induction d as [|tp d IH]; intros w0; simpl; [done|].
      by rewrite IH. }
    simpl. eauto. }
  destruct (terminate_Ok w_f jm Hin_f Hjm) as (w'&Hterm&Hkilled&Hjm'&_&Htasks&_).
  { destruct Hframe as (->&_). by rewrite Hrunning. }
  { done. }
  exists w'. split; [done|]. split; [done|]. split; [done|]. split.
  { unfold run, try_except_ExecutionFailed, run_body.
    rewrite bind_eq, Hsetup. simpl. rewrite !bind_eq, Hloop, Hterm. done. }
  split; [done|]. split.
  - unfold task. rewrite Htasks. exact Hfailed.
  - by rewrite Hjm'.
Qed.

(** *** [terminate], the interrupt handler and the outcomes of [run] *)

Lemma set_status_same v w : status (self w) = v → set_status v w = Ok tt w.
Proof.
  intros H. unfold set_status. rewrite bind_eq. cbn [get].
  by rewrite bool_decide_eq_false_2 by (intros ?; done).
Qed.

(** Outside a session the assignment is made, the signal handler sets the
    finishing time and the flag, and its commit fails. *)
Lemma set_status_detached v w :
  in_session w = false →
  status (self w) ≠ v →
  ∃ w', set_status v w = Raise AttributeError w'
        ∧ status (self w') = v
        ∧ session w' = session w
        ∧ jobmanager w' = jobmanager w
        ∧ drm w' = drm w
        ∧ task_queue w' = task_queue w.
Proof.
  intros Hin Hne. unfold set_status. rewrite bind_eq. cbn [get].
  rewrite bool_decide_eq_true_2 by done.
  rewrite bind_eq. cbn [modify]. unfold _execution_status_changed.
  rewrite bind_eq. cbn [get]. rewrite bind_eq.
  destruct (bool_decide (_ ∈ _)); cbn [modify ret]; rewrite bind_eq;
    destruct (bool_decide (_ = ExecutionStatus.successful)); cbn [modify ret];
    unfold commit; simpl; rewrite Hin; eexists; (split; [reflexivity|]); done.
Qed.

Lemma set_status_outcome v w :
  in_session w = true →
  ∃ w', set_status v w = Ok tt w'
        ∧ status (self w') = v
        ∧ jobmanager w' = jobmanager w
        ∧ drm w' = drm w
        ∧ task_queue w' = task_queue w.
Proof.
  intros Hin. destruct (decide (status (self w) = v)) as [Heq|Hne].
  - exists w. by rewrite set_status_same.
  - destruct (set_status_change v w Hin Hne) as (w'&?&?&?&?&?&_). by exists w'.
Qed.

Lemma set_status_Ok_inv v w w' :
  set_status v w = Ok tt w' →
  status (self w') = v
  ∧ jobmanager w' = jobmanager w
  ∧ drm w' = drm w
  ∧ task_queue w' = task_queue w.
Proof.
  intros HOk. destruct (decide (status (self w) = v)) as [Heq|Hne].
  { rewrite set_status_same in HOk by done. by injection HOk as <-. }
  destruct (in_session w) eqn:Hin.
  - destruct (set_status_outcome v w Hin) as (w''&Hs&?&?&?&?).
    rewrite HOk in Hs. by injection Hs as <-.
  - destruct (set_status_detached v w Hin Hne) as (w''&Hs&_). by rewrite HOk in Hs.
Qed.

Lemma terminate_outcome w :
  in_session w = true →
  ∃ w', terminate w = Ok tt w'
        ∧ status (self w') = ExecutionStatus.killed
        ∧ jobmanager w' = (λ jm, mkJobManager (running_tasks jm) true) <$> jobmanager w
        ∧ drm w' = drm w
        ∧ task_queue w' = task_queue w.
Proof.
  intros Hin. unfold terminate. rewrite bind_eq. cbn [get]. rewrite bind_eq.
  destruct (jobmanager w) as [jm|] eqn:Hjm.
  - unfold JobManager_terminate. rewrite Hjm.
    destruct (set_status_outcome ExecutionStatus.killed
                (set_jobmanager (Some (mkJobManager (running_tasks jm) true)) w) Hin)
      as (w'&->&?&?&?&?).
    by exists w'.
  - cbn [ret]. destruct (set_status_outcome ExecutionStatus.killed w Hin)
      as (w'&->&?&Hj&?&?).
    exists w'. rewrite Hj, Hjm. done.
Qed.

Lemma terminate_Ok_inv w w' :
  terminate w = Ok tt w' →
  status (self w') = ExecutionStatus.killed
  ∧ jobmanager w' = (λ jm, mkJobManager (running_tasks jm) true) <$> jobmanager w
  ∧ drm w' = drm w
  ∧ task_queue w' = task_queue w.
Proof.
  unfold terminate. rewrite bind_eq. cbn [get]. rewrite bind_eq.
  destruct (jobmanager w) as [jm|] eqn:Hjm.
  - unfold JobManager_terminate. rewrite Hjm.
    intros (?&?&?&?)%set_status_Ok_inv. done.
  - cbn [ret]. intros (?&Hj&?&?)%set_status_Ok_inv. rewrite Hj, Hjm. done.
Qed.

(** [terminate] outside a session, on an execution that is not [killed]:
    the job manager is told to terminate, the status is assigned, and the
    commit of the signal handler fails. *)
Lemma terminate_detached w :
  in_session w = false →
  status (self w) ≠ ExecutionStatus.killed →
  ∃ w', terminate w = Raise AttributeError w'
        ∧ status (self w') = ExecutionStatus.killed
        ∧ session w' = session w.
Proof.
  intros Hin Hne. unfold terminate. rewrite bind_eq. cbn [get]. rewrite bind_eq.
  destruct (jobmanager w) as [jm|] eqn:Hjm.
  - unfold JobManager_terminate. rewrite Hjm.
    destruct (set_status_detached ExecutionStatus.killed
                (set_jobmanager (Some (mkJobManager (running_tasks jm) true)) w) Hin Hne)
      as (w'&->&?&?&_).
    by exists w'.
  - cbn [ret]. destruct (set_status_detached ExecutionStatus.killed w Hin Hne)
      as (w'&->&?&?&_).
    by exists w'.
Qed.

Lemma set_jobmanager_id w : set_jobmanager (jobmanager w) w = w.
Proof. by destruct w. Qed.

(** X2: when [terminate] returns, the execution is [killed]; the pending
    answers of the resource manager and the task queue are not touched; and a
    second [terminate] changes nothing at all. *)
Theorem terminate_idempotent (w w' : World) :
  terminate w = Ok tt w' →
  status (self w') = ExecutionStatus.killed
  ∧ drm w' = drm w
  ∧ task_queue w' = task_queue w
  ∧ terminate w' = Ok tt w'.
Proof.
  intros Hterm. destruct (terminate_Ok_inv w w' Hterm) as (Hst&Hjm&Hdrm&Hq).
  split; [done|]. split; [done|]. split; [done|].
  unfold terminate. rewrite bind_eq. cbn [get]. rewrite bind_eq.
  destruct (jobmanager w') as [jm'|] eqn:Hjm'.
  - unfold JobManager_terminate. rewrite Hjm'.
    assert (mkJobManager (running_tasks jm') true = jm') as ->.
    { destruct (jobmanager w) as [j|]; simpl in Hjm; [|done].
      injection Hjm as ->. done. }
    rewrite <- Hjm', set_jobmanager_id. by apply set_status_same.
  - cbn [ret]. by apply set_status_same.
Qed.

Lemma terminate_idempotent_witness :
  terminate (state_of (terminate (world_one_running true 0)))
  = Ok tt (state_of (terminate (world_one_running true 0))).
Proof.
  apply (terminate_idempotent (world_one_running true 0)).
  vm_compute. reflexivity.
Defined.


(** X3: the interrupt handler does nothing to an execution whose flag is up.
    Otherwise it terminates the execution: in a session, or when the
    execution is [killed] already, [terminate] returns with the execution
    [killed] and the handler raises [SystemExit]; outside a session the
    status is assigned, the commit of the signal handler fails and the
    [AttributeError] leaves the handler in the place of [SystemExit]. *)
Theorem ctrl_c_outcome (w : World) :
  (successful (self w) = true → ctrl_c w = Ok tt w)
  ∧ (successful (self w) = false →
     in_session w = true ∨ status (self w) = ExecutionStatus.killed →
       ∃ w', ctrl_c w
             = Raise (SystemExit "Execution terminated with a SIGINT (ctrl+c) event") w'
             ∧ terminate w = Ok tt w'
             ∧ status (self w') = ExecutionStatus.killed)
  ∧ (successful (self w) = false →
     in_session w = false → status (self w) ≠ ExecutionStatus.killed →
       ∃ w', ctrl_c w = Raise AttributeError w'
             ∧ terminate w = Raise AttributeError w'
             ∧ status (self w') = ExecutionStatus.killed
             ∧ session w' = session w).
Proof.
  unfold ctrl_c. rewrite bind_eq. cbn [get]. split; [|split]; intros ->; simpl; [done| |].
  - intros Hcase. rewrite bind_eq.
    assert (∃ w', terminate w = Ok tt w') as [w' Hterm].
    { destruct (decide (in_session w = true)) as [Hin|Hin].
      - destruct (terminate_outcome w Hin) as (w'&?&_). eauto.
      - destruct Hcase as [?|Hkilled]; [done|].
        unfold terminate. rewrite bind_eq. cbn [get]. rewrite bind_eq.
        destruct (jobmanager w) as [jm|] eqn:Hjm.
        + unfold JobManager_terminate. rewrite Hjm. eexists.
          by apply set_status_same.
        + cbn [ret]. eexists. by apply set_status_same. }
    rewrite Hterm. exists w'. split; [done|]. split; [done|].
    by apply terminate_Ok_inv in Hterm as (?&_).
  - intros Hin Hne. rewrite bind_eq.
    destruct (terminate_detached w Hin Hne) as (w'&->&?&?). by exists w'.
Qed.

Lemma ctrl_c_outcome_witness :
  ∃ w', ctrl_c (world_one_running true 0)
        = Raise (SystemExit "Execution terminated with a SIGINT (ctrl+c) event") w'
        ∧ status (self w') = ExecutionStatus.killed.
Proof.
  destruct (ctrl_c_outcome (world_one_running true 0)) as (_&Hsession&_).
  destruct Hsession as (w'&Hc&_&Hst).
  - vm_compute. reflexivity.
  - left. vm_compute. reflexivity.
  - exists w'. split; [exact Hc|exact Hst].
Defined.

(** *** [run] does not raise [SystemExit] *)

Lemma never_exits_ret {A} (a : A) : never_exits (ret a).
Proof. intros w e w' H. discriminate H. Qed.

Lemma never_exits_get : never_exits get.
Proof. intros w e w' H. discriminate H. Qed.

Lemma never_exits_modify f : never_exits (modify f).
Proof. intros w e w' H. discriminate H. Qed.


Lemma never_exits_bind {A B} (m : M World A) (k : A → M World B) :
  never_exits m → (∀ a, never_exits (k a)) → never_exits (m ≫= k).
Proof.
  intros Hm Hk w e w' H. rewrite bind_eq in H.
  destruct (m w) as [a s|e0 s|s|s] eqn:Hmw; try discriminate H.
  - by apply (Hk a s e w').
  - injection H as <- _. by apply (Hm w e0 s).
Qed.











Lemma never_exits_commit : never_exits commit.
Proof.
  intros w e w' H. unfold commit in H. destruct (in_session w); [discriminate H|].
  by injection H as <- _.
Qed.

Lemma never_exits_set_status v : never_exits (set_status v).
Proof.
  unfold set_status. apply never_exits_bind; [apply never_exits_get|]. intros w.
  destruct (bool_decide _); [|apply never_exits_ret].
  apply never_exits_bind; [apply never_exits_modify|]. intros _.
  unfold _execution_status_changed. apply never_exits_bind; [apply never_exits_get|].
  intros w1. apply never_exits_bind.
  { destruct (bool_decide _); [apply never_exits_modify|apply never_exits_ret]. }
  intros _. apply never_exits_bind; [|intros _; apply never_exits_commit].
  destruct (bool_decide _); [apply never_exits_modify|apply never_exits_ret].
Qed.

Lemma never_exits_terminate : never_exits terminate.
Proof.
  unfold terminate. apply never_exits_bind; [apply never_exits_get|]. intros w.
  apply never_exits_bind; [|intros _; apply never_exits_set_status].
  destruct (jobmanager w); [|apply never_exits_ret].
  intros w0 e w' H. unfold JobManager_terminate in H.
  destruct (jobmanager w0); [discriminate H|]. by injection H as <- _.
Qed.








(** *** The status of the execution over its life *)

#[local] Instance keeps_refl P : Reflexive (keeps P).
Proof. intros w H. exact H. Qed.

#[local] Instance keeps_trans P : Transitive (keeps P).
Proof. intros w1 w2 w3 H1 H2 H. apply H2, H1, H. Qed.

Lemma upsert_Forall (P : Execution → Prop) ex rows :
  P ex → Forall P rows → Forall P (upsert ex rows).
Proof.
  intros Hex. induction 1 as [|r rows Hr Hrows IH]; simpl.
  - by constructor.
  - destruct (decide _); by constructor.
Qed.

Lemma flush_session_inv ex s :
  status_inv ex → session_inv s →
  status_inv (flush ex s).1 ∧ session_inv (flush ex s).2.
Proof.
  intros Hex [Hh He].
  assert (status_inv (flush ex s).1) as Hex'.
  { unfold flush. simpl. by destruct (id ex). }
  split; [done|]. split; simpl.
  - constructor; [exact Hex'|done].
  - by apply upsert_Forall.
Qed.

Lemma commit_lifecycle : respects (keeps lifecycle_inv) commit.
Proof.
  intros w [Hself Hs]. unfold commit. destruct (in_session w); [|by split]. simpl.
  destruct (flush_session_inv (self w) (session w) Hself Hs) as [H1 H2].
  by split.
Qed.

Lemma sched_frame_lifecycle w w' : sched_frame w w' → keeps lifecycle_inv w w'.
Proof.
  intros (Hself&Hrest&_) [Hs [Hh He]]. unfold session_rest in Hrest.
  injection Hrest as Hex _ _ _ Hhist _.
  split; [by rewrite Hself|]. split; [by rewrite Hhist|by rewrite Hex].
Qed.

Lemma set_status_lifecycle v w :
  session_inv (session w) →
  (status (self w) = v → status_inv (self w)) →
  lifecycle_inv (state_of (set_status v w))
  ∧ status (self (state_of (set_status v w))) = v.
Proof.
  intros Hs Hsame. destruct (decide (status (self w) = v)) as [Heq|Hne].
  { rewrite set_status_same by done. split; [|done].
    split; [by apply Hsame|done]. }
  unfold set_status. rewrite bind_eq. cbn [get].
  rewrite bool_decide_eq_true_2 by done.
  rewrite bind_eq. cbn [modify]. unfold _execution_status_changed.
  rewrite bind_eq. cbn [get]. rewrite bind_eq.
  set (w1 := set_self (with_status v) w).
  change (status (self w1)) with v.
  assert (∀ w2, session w2 = session w → status (self w2) = v →
                (v = ExecutionStatus.successful → successful (self w2) = true) →
                (v ∈ [ExecutionStatus.successful; ExecutionStatus.failed;
                      ExecutionStatus.killed] → is_Some (finished_on (self w2))) →
                lifecycle_inv (state_of (commit w2))
                ∧ status (self (state_of (commit w2))) = v)
    as Hcommit.
  { intros w2 Hsess Hst Hflag Hfin.
    assert (lifecycle_inv w2) as Hinv2.
    { split; [|by rewrite Hsess]. unfold status_inv. rewrite Hst. done. }
    pose proof (commit_lifecycle w2 Hinv2) as Hk. split; [done|].
    destruct (in_session w2) eqn:Hin2.
    - destruct (commit_Ok w2 Hin2) as (w'&Hc&_&_&_&_&Hst'&_).
      rewrite Hc. simpl. by rewrite Hst'.
    - unfold commit. by rewrite Hin2. }
  destruct (bool_decide_reflect (v ∈ [ExecutionStatus.successful; ExecutionStatus.failed;
                                      ExecutionStatus.killed])) as [Hterm|Hnterm];
    cbn [modify ret]; rewrite bind_eq;
    destruct (bool_decide_reflect (v = ExecutionStatus.successful)) as [Hsucc|Hnsucc];
    cbn [modify ret]; apply Hcommit; try done; simpl; eauto.
Qed.

Lemma set_status_keeps_lifecycle v : respects (keeps lifecycle_inv) (set_status v).
Proof.
  intros w [Hself Hs].
  destruct (set_status_lifecycle v w Hs) as (H&_); [done|]. exact H.
Qed.

Lemma respects_sched_lifecycle {A} (m : M World A) :
  respects sched_frame m → respects (keeps lifecycle_inv) m.
Proof. apply respects_weaken, sched_frame_lifecycle. Qed.

Lemma modify_keeps_lifecycle f :
  (∀ w, status_inv (self w) → status_inv (self (f w))) →
  (∀ w, history (session (f w)) = history (session w)) →
  (∀ w, executions (session (f w)) = executions (session w)) →
  respects (keeps lifecycle_inv) (modify f).
Proof.
  intros Hself Hh He w [H1 [H2 H3]]. cbn [modify state_of].
  split; [by apply Hself|]. split; [by rewrite Hh|by rewrite He].
Qed.

Lemma terminate_keeps_lifecycle : respects (keeps lifecycle_inv) terminate.
Proof.
  unfold terminate. apply respects_get_bind. intros w.
  apply (respects_bind (keeps lifecycle_inv)); [|intros _; apply set_status_keeps_lifecycle].
  destruct (jobmanager w); [|apply respects_ret; apply _].
  apply respects_sched_lifecycle, JobManager_terminate_respects.
Qed.

Lemma run_setup_keeps_lifecycle recipe tod tlod :
  respects (keeps lifecycle_inv) (run_setup recipe tod tlod).
Proof.
  intros w [Hself Hs]. unfold run_setup. rewrite bind_eq. cbn [get].
  destruct (in_session w) eqn:Hsess; [|by split].
  unfold assert. rewrite bind_eq. cbn [ret]. cbv beta. rewrite bind_eq.
  destruct (set_status_lifecycle ExecutionStatus.running w Hs)
    as ([Hself1 Hs1]&Hrunning); [done|].
  destruct (set_status_outcome ExecutionStatus.running w Hsess) as (w1&Hset&_).
  rewrite Hset in Hself1, Hs1, Hrunning |- *. cbn [state_of] in Hself1, Hs1, Hrunning.
  rewrite bind_eq. cbn [modify].
  set (w2 := set_self (with_successful false) w1).
  assert (lifecycle_inv w2) as Hinv2.
  { split; [|done]. split; simpl; rewrite Hrunning; [done|].
    intros Hin. by repeat (apply elem_of_cons in Hin as [?|Hin]; [done|]);
      apply elem_of_nil in Hin. }
  match goal with |- lifecycle_inv (state_of (?m w2)) =>
    cut (respects (keeps lifecycle_inv) m); [intros Hr; by apply (Hr w2)|] end.
  apply (respects_bind (keeps lifecycle_inv)).
  { by apply modify_keeps_lifecycle. }
  intros _. apply respects_get_bind. intros w4.
  apply (respects_bind (keeps lifecycle_inv)).
  { destruct (started_on (self w4)); [apply respects_ret; apply _|].
    by apply modify_keeps_lifecycle. }
  intros _. apply (respects_bind (keeps lifecycle_inv)).
  { by apply modify_keeps_lifecycle. }
  intros _. apply (respects_bind (keeps lifecycle_inv)).
  { by apply modify_keeps_lifecycle. }
  intros _. apply respects_get_bind. intros w5.
  apply (respects_bind (keeps lifecycle_inv)).
  { by apply modify_keeps_lifecycle. }
  intros _. apply (respects_bind (keeps lifecycle_inv)).
  { apply modify_keeps_lifecycle; intros w0; by destruct (main_thread w0). }
  intros _. apply (respects_bind (keeps lifecycle_inv)); [apply commit_lifecycle|].
  intros _. apply respects_get_bind. intros w6.
  apply (respects_bind (keeps lifecycle_inv)).
  { apply respects_sched_lifecycle.
    eapply respects_weaken; [|apply set_output_dirs_task_frame]. by intros ? ? [? _]. }
  intros _. apply (respects_bind (keeps lifecycle_inv)).
  { apply respects_sched_lifecycle.
    eapply respects_weaken; [|apply set_commands_task_frame]. by intros ? ? [? _]. }
  intros _. apply commit_lifecycle.
Qed.

(** X5: if the execution object, every row of the execution table and every
    row committed so far have the flag up whenever the status is [successful]
    and a finishing time whenever the status is [successful], [failed] or
    [killed], then the same holds after [run], after [terminate] and after
    the interrupt handler, whatever their outcome, and so of every row they
    commit on the way. *)
Theorem status_lifecycle_invariant recipe tod tlod dry fuel (w : World) :
  lifecycle_inv w →
  lifecycle_inv (state_of (run recipe tod tlod dry fuel w))
  ∧ lifecycle_inv (state_of (terminate w))
  ∧ lifecycle_inv (state_of (ctrl_c w)).
Proof.
  intros Hinv. split; [|split].
  - revert w Hinv.
    change (respects (keeps lifecycle_inv) (run recipe tod tlod dry fuel)).
    unfold run. apply respects_try; [apply _..| |apply terminate_keeps_lifecycle].
    unfold run_body.
    apply (respects_bind (keeps lifecycle_inv)); [apply run_setup_keeps_lifecycle|].
    intros _. apply (respects_bind (keeps lifecycle_inv)); [|intros _; apply commit_lifecycle].
    destruct dry; [apply respects_ret; apply _|]. cbn [negb].
    apply (respects_bind (keeps lifecycle_inv)).
    + apply respects_sched_lifecycle. intros w0. apply scheduler_loop_respects.
    + intros _. apply set_status_keeps_lifecycle.
  - by apply terminate_keeps_lifecycle.
  - revert w Hinv. change (respects (keeps lifecycle_inv) ctrl_c).
    unfold ctrl_c. apply respects_get_bind. intros w.
    destruct (negb _); [|reflexivity].
    apply (respects_bind (keeps lifecycle_inv)); [apply terminate_keeps_lifecycle|].
    intros _. apply respects_raise. apply _.
Qed.

Lemma status_lifecycle_invariant_witness :
  lifecycle_inv (state_of run_soft_failure).
Proof.
  apply (status_lifecycle_invariant (recipe_chain false true)
           _default_task_output_dir _default_task_log_output_dir false 5
           (world_started [[(1%nat, exit_status 1)]; [(2%nat, exit_status 0)]])).
  apply (bool_decide_unpack (lifecycle_inv (world_started _))).
  vm_compute. exact I.
Defined.



(** *** [start] *)

Ltac mred :=
  repeat first [ rewrite bind_eq
               | progress cbn [ret get modify raise]
               | progress unfold assert ].

Lemma for_each_delete (q : list (nat * Task)) :
  ∀ s, for_each q (λ kv, modify (set_deleted_tasks (λ l, l ++ [kv.1]))) s
       = Ok tt (set_deleted_tasks (λ l, l ++ q.*1) s).
Proof.
  induction q as [|kv q IH]; intros s; simpl.
  - unfold set_deleted_tasks. rewrite app_nil_r. by destruct s.
  - rewrite bind_eq. cbn [modify]. rewrite IH. unfold set_deleted_tasks. simpl.
    by rewrite <- app_assoc.
Qed.

Lemma query_first_found a_name s ex0 :
  find (λ ex, bool_decide (name ex = a_name)) (executions s) = Some ex0 →
  query_first a_name s = Ok (Some ex0) (set_dirs (makedirs (output_dir ex0)) s).
Proof.
  intros H. unfold query_first. rewrite bind_eq. cbn [get]. rewrite H.
  by rewrite bind_eq.
Qed.

Lemma query_first_missing a_name s :
  find (λ ex, bool_decide (name ex = a_name)) (executions s) = None →
  query_first a_name s = Ok None s.
Proof. intros H. unfold query_first. rewrite bind_eq. cbn [get]. by rewrite H. Qed.

(** X7: [start] without [restart] on a name that is in the store, with the
    output directory the execution was created with: it returns the stored
    execution with the new CPU limit and the command line recorded in its
    info; it deletes exactly the task rows of that execution whose flag is
    down and keeps every other row, those of other executions included. *)
Theorem start_resume a_name d cpus prompt confirm argv (s : Session) (ex0 : Execution) :
  find (λ ex, bool_decide (name ex = a_name)) (executions s) = Some ex0 →
  output_dir ex0 = d →
  deleted_tasks s = [] →
  is_Some (id ex0) →
  ∃ ex s',
    start a_name (Some d) false prompt cpus confirm argv s = Ok ex s'
    ∧ ex = with_info (<["last_cmd_executed" := get_last_cmd_executed argv]> (info ex0))
             (with_max_cpus cpus ex0)
    ∧ (∀ t T, tasks s !! t = Some T →
         tasks s' !! t = if decide (pruned_on_resume ex0 s T) then None else Some T)
    ∧ (∀ t, tasks s !! t = None → tasks s' !! t = None)
    ∧ stages s' = stages s
    ∧ deleted_tasks s' = [].
Proof.
  intros Hfind Hdir Hdel [i Hid]. unfold start.
  mred. rewrite bool_decide_eq_true_2 by done. mred.
  rewrite (query_first_found _ _ _ Hfind). mred.
  rewrite bool_decide_eq_true_2 by done. mred.
  set (s1 := set_dirs _ s).
  set (q := filter _ (tasksq _ s1)).
  assert ((if bool_decide (0 < length q)%nat
           then for_each q (λ kv, modify (set_deleted_tasks (λ l, l ++ [kv.1])))
           else ret tt) s1 = Ok tt (set_deleted_tasks (λ l, l ++ q.*1) s1)) as ->.
  { destruct (bool_decide_reflect (0 < length q)%nat) as [|Hz].
    - apply for_each_delete.
    - destruct q; [|simpl in Hz; lia]. cbn [ret]. unfold set_deleted_tasks.
      simpl. rewrite app_nil_r. by destruct s. }
  cbn [ret]. unfold session_commit.
  eexists _, _. split; [reflexivity|].
  split. { unfold flush. simpl. by rewrite Hid. }
  assert (∀ t T, tasks s !! t = Some T →
                 t ∈ q.*1 ↔ pruned_on_resume ex0 s T) as Hq.
  { intros t T Ht. subst q. unfold tasksq, pruned_on_resume. split.
    - intros ([t' T']&->&Hin)%list_elem_of_fmap.
      apply list_elem_of_filter in Hin as [Hs Hin].
      apply list_elem_of_filter in Hin as [Hst Hin].
      apply elem_of_map_to_list in Hin. simpl in *.
      rewrite Ht in Hin. injection Hin as <-. done.
    - intros [Hst Hs]. apply list_elem_of_fmap. exists (t, T). split; [done|].
      apply list_elem_of_filter. split; [done|].
      apply list_elem_of_filter. split; [done|]. by apply elem_of_map_to_list. }
  simpl. rewrite Hdel. simpl. split; [|split; [|done]].
  - intros t T Ht. destruct (decide (pruned_on_resume ex0 s T)) as [Hp|Hnp].
    + apply map_lookup_filter_None. right. intros T' Ht' Hnin. simpl in Hnin.
      apply Hnin. by apply (Hq t T).
    + apply map_lookup_filter_Some. split; [done|]. simpl.
      intros Hin. apply Hnp. by apply (Hq t T).
  - intros t Ht. apply map_lookup_filter_None. by left.
Qed.

Lemma start_resume_witness :
  ∃ ex s',
    start "run1" (Some "/out") false true (Some 4) false ["recipe.py"; "-n"; "run1"]
          session_finished = Ok ex s'
    ∧ max_cpus ex = Some 4
    ∧ tasks s' !! 1%nat = tasks session_finished !! 1%nat
    ∧ tasks s' !! 2%nat = None
    ∧ tasks s' !! 3%nat = None
    ∧ tasks s' !! 4%nat = tasks session_finished !! 4%nat.
Proof.
  destruct (start_resume "run1" "/out" (Some 4) true false ["recipe.py"; "-n"; "run1"]
              session_finished finished_execution)
    as (ex&s'&Hstart&Hex&Hkeep&_).
  - vm_compute. reflexivity.
  - reflexivity.
  - reflexivity.
  - vm_compute. eauto.
  - exists ex, s'. split; [exact Hstart|]. split; [by rewrite Hex|].
    split; [|split; [|split]].
    + rewrite (Hkeep 1%nat _ eq_refl). vm_compute. reflexivity.
    + rewrite (Hkeep 2%nat _ eq_refl). vm_compute. reflexivity.
    + rewrite (Hkeep 3%nat _ eq_refl). vm_compute. reflexivity.
    + rewrite (Hkeep 4%nat _ eq_refl). vm_compute. reflexivity.
Defined.

(** X8: on a name that is in the store and without [restart], [start] raises
    an [AssertionError] and deletes nothing when no output directory is
    given (the stored one is never used in its place) and when the directory
    given is not the stored one. *)
Theorem start_resume_rejects a_name cpus prompt confirm argv (s : Session)
    (ex0 : Execution) :
  find (λ ex, bool_decide (name ex = a_name)) (executions s) = Some ex0 →
  start a_name None false prompt cpus confirm argv s
  = Raise (AssertionError "output_dir cannot be None") s
  ∧ ∀ d, d ≠ output_dir ex0 →
      ∃ s', start a_name (Some d) false prompt cpus confirm argv s
            = Raise (AssertionError
                       "cannot change the output_dir of an execution being resumed.") s'
            ∧ executions s' = executions s
            ∧ tasks s' = tasks s
            ∧ deleted_tasks s' = deleted_tasks s.
Proof.
  intros Hfind. split.
  - unfold start. mred. reflexivity.
  - intros d Hd. unfold start. mred. rewrite bool_decide_eq_true_2 by done. mred.
    rewrite (query_first_found _ _ _ Hfind). mred.
    rewrite bool_decide_eq_false_2 by (simpl; congruence). mred.
    eexists. split; [reflexivity|]. done.
Qed.

Lemma start_resume_rejects_witness :
  start "run1" None false true None false [] session_finished
  = Raise (AssertionError "output_dir cannot be None") session_finished.
Proof.
  apply (start_resume_rejects "run1" None true false [] session_finished
           finished_execution).
  vm_compute. reflexivity.
Defined.

Lemma fresh_id_above rows r :
  r ∈ rows → (default 0%nat (id r) < fresh_id rows)%nat.
Proof.
  unfold fresh_id. induction rows as [|r' rows IH]; intros Hin.
  - by apply elem_of_nil in Hin.
  - simpl. apply elem_of_cons in Hin as [->|Hin]; [lia|].
    specialize (IH Hin). lia.
Qed.

Lemma upsert_fresh ex rows :
  (∀ r, r ∈ rows → id r ≠ id ex) → upsert ex rows = rows ++ [ex].
Proof.
  induction rows as [|r rows IH]; intros Hne; simpl; [done|].
  rewrite decide_False by (apply Hne; by left).
  rewrite IH; [done|]. intros r' Hr'. apply Hne. by right.
Qed.

Lemma find_snoc {A} (f : A → bool) l x :
  find f l = None → find f (l ++ [x]) = if f x then Some x else None.
Proof.
  induction l as [|y l IH]; simpl; [done|].
  destruct (f y); [done|]. exact IH.
Qed.

(** X9: [start] on a name that is not in the store.  If the output directory
    exists it raises an [AssertionError] and changes nothing.  If the name
    is not made of word characters it raises an [AssertionError] too, but
    only after it has created the output directory, which stays.  Otherwise
    it returns a new execution with a fresh id, status [no_attempt], the flag
    down and the command line in its info; the directory exists afterwards,
    and a query by the name finds the execution. *)
Theorem start_create a_name d restart prompt cpus confirm argv (s : Session) :
  find (λ ex, bool_decide (name ex = a_name)) (executions s) = None →
  (d ∈ dirs s →
     start a_name (Some d) restart prompt cpus confirm argv s
     = Raise (AssertionError (d +:+ " already exists")) s)
  ∧ (d ∉ dirs s → validate_name a_name = false →
       start a_name (Some d) restart prompt cpus confirm argv s
       = Raise (AssertionError "Invalid execution name.")
               (set_dirs (makedirs d) s))
  ∧ (d ∉ dirs s → validate_name a_name = true →
       ∃ ex s',
         start a_name (Some d) restart prompt cpus confirm argv s = Ok ex s'
         ∧ ex = mkExecution (Some (fresh_id (executions s))) a_name false d None None
                            cpus {["last_cmd_executed" := get_last_cmd_executed argv]}
                            ExecutionStatus.no_attempt
         ∧ d ∈ dirs s'
         ∧ executions s' = executions s ++ [ex]
         ∧ find (λ ex, bool_decide (name ex = a_name)) (executions s') = Some ex).
Proof.
  intros Hfind.
  assert ((if restart
           then found ← query_first a_name;
                match found with
                | Some ex =>
                    (if prompt && negb confirm
                     then raise (SystemExit "Quitting") else ret tt) ;;
                    delete_execution ex true ;; ret (id ex)
                | None => ret None
                end
           else ret None) s = Ok None s) as Hold.
  { destruct restart; mred; [|done].
    rewrite (query_first_missing _ _ Hfind). by mred. }
  split; [|split].
  - intros Hin. unfold start. mred. rewrite bool_decide_eq_true_2 by done. mred.
    rewrite Hold. mred. rewrite (query_first_missing _ _ Hfind). mred.
    by rewrite bool_decide_eq_false_2 by (intros H; by apply H).
  - intros Hnin Hname. unfold start. mred. rewrite bool_decide_eq_true_2 by done. mred.
    rewrite Hold. mred. rewrite (query_first_missing _ _ Hfind). mred.
    rewrite bool_decide_eq_true_2 by done. mred. unfold mkdir at 1. mred.
    by rewrite Hname.
  - intros Hnin Hname. unfold start. mred. rewrite bool_decide_eq_true_2 by done. mred.
    rewrite Hold. mred. rewrite (query_first_missing _ _ Hfind). mred.
    rewrite bool_decide_eq_true_2 by done. mred. unfold mkdir. mred.
    rewrite Hname. mred. unfold session_commit, flush. simpl.
    eexists _, _. split; [reflexivity|]. split; [done|].
    split; [unfold makedirs; set_solver|].
    assert (∀ r, r ∈ executions s → id r ≠ Some (fresh_id (executions s))) as Hfresh.
    { intros r Hr Hid. pose proof (fresh_id_above _ _ Hr) as Hlt.
      rewrite Hid in Hlt. simpl in Hlt. lia. }
    cbn [executions]. rewrite upsert_fresh by exact Hfresh.
    split; [done|]. rewrite find_snoc by done. simpl.
    by rewrite bool_decide_eq_true_2.
Qed.

Lemma start_create_witness :
  ∃ ex s', start "run2" (Some "/out2") false true None false ["recipe.py"]
                 session_finished = Ok ex s'
           ∧ id ex = Some 2%nat
           ∧ status ex = ExecutionStatus.no_attempt
           ∧ find (λ ex, bool_decide (name ex = "run2")) (executions s') = Some ex.
Proof.
  destruct (start_create "run2" "/out2" false true None false ["recipe.py"]
              session_finished) as (_&_&Hok).
  - vm_compute. reflexivity.
  - destruct Hok as (ex&s'&Hstart&Hex&_&_&Hfind).
    + vm_compute. intros H. discriminate H.
    + vm_compute. reflexivity.
    + exists ex, s'. split; [exact Hstart|]. rewrite Hex at 1 2.
      split; [vm_compute; reflexivity|]. split; [reflexivity|exact Hfind].
Defined.

(** *** What a sweep submits *)

Lemma render_paths_Ok t w :
  renderable w t →
  ∃ w1, render_paths t w = Ok tt w1
        ∧ (∀ u, renderable w u → renderable w1 u).
Proof.
  intros Hr. unfold render_paths.
  destruct (forallb _ (output_files (task w t))) eqn:Hall; [by exists w|].
  destruct Hr as [Hr|[d Hd]]; [congruence|]. rewrite Hd.
  eexists. split; [reflexivity|]. intros u Hu. unfold renderable.
  rewrite task_upd_task. destruct (decide (t = u)) as [<-|]; [|done].
  left. simpl. apply forallb_forall. intros f Hf. apply in_map_iff in Hf as (f0&<-&_).
  destruct (path f0) eqn:Hp; simpl; [rewrite Hp|]; done.
Qed.

Lemma submit_renderable t w w' :
  submit t w = Ok tt w' → ∀ u, renderable w u → renderable w' u.
Proof.
  unfold submit. destruct (jobmanager w); [|done].
  unfold set_task_status. simpl. intros [= <-] u Hu. unfold renderable.
  rewrite task_upd_task. destruct (decide (t = u)) as [<-|]; done.
Qed.

Lemma sweep_unbounded cands :
  ∀ w jm,
    jobmanager w = Some jm →
    (∀ t, t ∈ cands → renderable w t) →
    ∃ w', sweep None cands w = Ok tt w'
          ∧ running_of w' = running_tasks jm ++ cands
          ∧ (∀ t, t ∈ cands → task_status (task w' t) = TaskStatus.submitted)
          ∧ (∀ u, u ∉ cands → task_status (task w' u) = task_status (task w u)).
Proof.
  induction cands as [|t cands IH]; intros w jm Hjm Hr.
  { exists w. unfold running_of. rewrite Hjm, app_nil_r.
    split; [done|]. split; [done|]. split; [by intros ? ?%elem_of_nil|done]. }
  rewrite (sweep_cons _ _ _ _ jm) by done. cbn [over_budget]. rewrite bind_eq.
  destruct (render_paths_Ok t w) as (w1&Hrender&Hr1); [apply Hr; by left|].
  pose proof (render_paths_task_frame t w) as (_&Hjm1&_&_&Hst1).
  rewrite Hrender in *. simpl in Hjm1, Hst1. rewrite Hjm in Hjm1.
  destruct (submit_Ok t w1 jm Hjm1) as (w2&Hsub&Hjm2&_&_&Hst2&Hst2').
  rewrite bind_eq, Hsub.
  destruct (IH w2 _ Hjm2) as (w'&->&Hrun&Hsubm&Hother).
  { intros u Hu. eapply submit_renderable; [exact Hsub|]. apply Hr1, Hr. by right. }
  exists w'. split; [done|]. simpl in Hrun.
  split; [by rewrite Hrun, <- app_assoc|]. split.
  - intros u Hu. destruct (decide (u ∈ cands)) as [Hin|Hnin]; [by apply Hsubm|].
    apply elem_of_cons in Hu as [->|?]; [|done]. by rewrite Hother.
  - intros u [Hne Hnin]%not_elem_of_cons. rewrite Hother by done.
    by rewrite Hst2', Hst1.
Qed.

(** X10: without a CPU limit ([max_cpus] unset) a sweep submits every ready
    task, in ascending order of [cpu_req], whatever is already running:
    they join the running tasks in that order with the status [submitted],
    and no other task changes its status. *)
Theorem _run_ready_tasks_unbounded (w : World) (jm : JobManager) :
  max_cpus (self w) = None →
  jobmanager w = Some jm →
  (∀ t, t ∈ ready_tasks (task_queue w) w → renderable w t) →
  ∃ w', _run_ready_tasks w = Ok tt w'
        ∧ running_of w'
          = running_tasks jm
            ++ sorted (λ t, cpu_req (task w t)) (ready_tasks (task_queue w) w)
        ∧ (∀ t, t ∈ ready_tasks (task_queue w) w →
             task_status (task w' t) = TaskStatus.submitted)
        ∧ (∀ u, u ∉ ready_tasks (task_queue w) w →
             task_status (task w' u) = task_status (task w u)).
Proof.
  intros Hmax Hjm Hr. unfold _run_ready_tasks. rewrite bind_eq. cbn [get].
  rewrite Hmax.
  destruct (sweep_unbounded
              (sorted (λ t, cpu_req (task w t)) (ready_tasks (task_queue w) w)) w jm Hjm)
    as (w'&Hsweep&Hrun&Hsub&Hother).
  { intros t Ht. apply Hr. by rewrite sorted_Permutation in Ht. }
  exists w'. split; [done|]. split; [done|]. split.
  - intros t Ht. apply Hsub. by rewrite sorted_Permutation.
  - intros u Hu. apply Hother. by rewrite sorted_Permutation.
Qed.

Lemma _run_ready_tasks_unbounded_witness :
  ∃ w', _run_ready_tasks (world_budget None) = Ok tt w'
        ∧ running_of w' = [1%nat].
Proof.
  destruct (_run_ready_tasks_unbounded (world_budget None) (mkJobManager [] false))
    as (w'&Hrun&Hrunning&_).
  - reflexivity.
  - reflexivity.
  - intros t Ht.
    assert (ready_tasks (task_queue (world_budget None)) (world_budget None) = [1%nat])
      as Hready by (vm_compute; reflexivity).
    rewrite Hready in Ht. apply list_elem_of_singleton in Ht as ->.
    right. vm_compute. eauto.
  - exists w'. split; [exact Hrun|]. rewrite Hrunning. vm_compute. reflexivity.
Defined.

Lemma in_degree_zero g t :
  in_degree g t = 0%nat ↔ ∀ u, (u, t) ∉ edges g.
Proof.
  unfold in_degree. split.
  - intros Hlen%nil_length_inv u Hin.
    assert ((u, t) ∈ filter (λ e, e.2 = t) (edges g)) as Hf
      by (by apply list_elem_of_filter).
    rewrite Hlen in Hf. by apply elem_of_nil in Hf.
  - intros Hno. destruct (filter _ _) as [|[u t'] l] eqn:Hf; [done|].
    assert ((u, t') ∈ filter (λ e, e.2 = t) (edges g)) as Hin
      by (rewrite Hf; by left).
    apply list_elem_of_filter in Hin as [Ht Hin]. simpl in Ht. subst t'.
    by destruct (Hno u).
Qed.

(** X11: whatever the CPU limit and the outcome of the sweep, the tasks a
    sweep adds to the running ones were queued with the status [no_attempt]
    and without any edge into them left in the queue: a task is not
    submitted while a task it depends on is still queued, and a task that
    was already submitted is not submitted again. *)
Theorem only_ready_tasks_submitted (w : World) (jm : JobManager) :
  jobmanager w = Some jm →
  ∃ submitted,
    running_of (state_of (_run_ready_tasks w)) = running_tasks jm ++ submitted
    ∧ ∀ t, t ∈ submitted →
        t ∈ nodes (task_queue w)
        ∧ task_status (task w t) = TaskStatus.no_attempt
        ∧ ∀ u, (u, t) ∉ edges (task_queue w).
Proof.
  intros Hjm. unfold _run_ready_tasks. rewrite bind_eq. cbn [get].
  set (cands := sorted _ _).
  destruct (sweep_spec (λ t, cpu_req (task w t)) (max_cpus (self w)) cands w jm)
    as (k&_&Hrun&_); [done..|].
  exists (take k cands). split; [done|]. intros t Ht.
  apply subseteq_take in Ht. subst cands. rewrite sorted_Permutation in Ht.
  unfold ready_tasks in Ht. apply list_elem_of_filter in Ht as [[Hdeg Hst] Hin].
  split; [done|]. split; [done|]. by apply in_degree_zero.
Qed.

Lemma only_ready_tasks_submitted_witness :
  ∃ submitted,
    running_of (state_of (_run_ready_tasks world_diamond)) = [] ++ submitted
    ∧ ∀ t, t ∈ submitted → ∀ u, (u, t) ∉ edges (task_queue world_diamond).
Proof.
  destruct (only_ready_tasks_submitted world_diamond (mkJobManager [] false))
    as (submitted&Hrun&Hready).
  - reflexivity.
  - exists submitted. split; [exact Hrun|]. intros t Ht. by apply Hready.
Defined.

(** *** What the set-up of [run] leaves on the queued tasks *)

Lemma render_paths_with_dir t w d :
  task_output_dir (task w t) = Some d →
  ∃ w1, render_paths t w = Ok tt w1
        ∧ task_output_dir (task w1 t) = Some d
        ∧ log_dir (task w1 t) = log_dir (task w t)
        ∧ Forall (λ f, is_Some (path f)) (output_files (task w1 t))
        ∧ ∀ u, u ≠ t → task w1 u = task w u.
Proof.
  intros Hd. unfold render_paths.
  destruct (forallb _ (output_files (task w t))) eqn:Hall.
  - exists w. split; [done|]. split; [done|]. split; [done|]. split; [|done].
    apply Forall_forall. intros f Hf%list_elem_of_In.
    eapply forallb_forall in Hall; [|exact Hf].
    apply bool_decide_eq_true in Hall. by destruct (path f).
  - rewrite Hd. eexists. split; [reflexivity|]. rewrite !task_upd_task_eq. simpl.
    split; [done|]. split; [done|]. split.
    + apply Forall_forall. intros f Hf%list_elem_of_In.
      apply in_map_iff in Hf as (f0&<-&_).
      destruct (path f0) eqn:Hp; simpl; [rewrite Hp|]; eauto.
    + intros u Hu. by rewrite task_upd_task_ne.
Qed.

Lemma set_output_dirs_Ok tod tlod queue :
  ∀ log_dirs w w',
    set_output_dirs tod tlod queue log_dirs w = Ok tt w' →
    NoDup queue →
    (∀ t, t ∈ queue →
       is_Some (task_output_dir (task w' t))
       ∧ (∃ l, log_dir (task w' t) = Some l ∧ log_dirs !! Some l = None)
       ∧ Forall (λ f, is_Some (path f)) (output_files (task w' t)))
    ∧ (∀ t u, t ∈ queue → u ∈ queue → t ≠ u →
         log_dir (task w' t) ≠ log_dir (task w' u))
    ∧ (∀ u, u ∉ queue → task w' u = task w u).
Proof.
  induction queue as [|t queue IH]; intros log_dirs w w' HOk Hnd.
  { injection HOk as <-. split; [by intros ? ?%elem_of_nil|].
    split; [by intros ? ? ?%elem_of_nil|done]. }
  apply NoDup_cons in Hnd as [Hnin Hnd].
  cbn [set_output_dirs] in HOk. revert HOk. mred.
  set (w1 := upd_task t _ w).
  set (l := tlod w1 (task w1 t)).
  destruct (log_dirs !! Some l) eqn:Hfree; [done|].
  mred. set (w2 := upd_task t _ w1).
  destruct (render_paths_with_dir t w2 (tod w (task w t)))
    as (w3&->&Hdir3&Hlog3&Hpaths3&Hother3).
  { subst w2 w1. by rewrite !task_upd_task_eq. }
  intros HOk. apply IH in HOk as (Hq&Hdistinct&Hother); [|done].
  assert (task w' t = task w3 t) as Ht by (by apply Hother).
  assert (log_dir (task w3 t) = Some l) as Hl.
  { rewrite Hlog3. subst w2. by rewrite task_upd_task_eq. }
  split; [|split].
  - intros u [->|Hu]%elem_of_cons.
    + rewrite Ht, Hdir3, Hl. split; [eauto|]. split; [eauto|done].
    + destruct (Hq u Hu) as (Hd&(l'&Hl'&Hfree')&Hp). split; [done|]. split; [|done].
      exists l'. split; [done|].
      apply lookup_insert_None in Hfree' as [? _]. done.
  - assert (∀ u, u ∈ queue → log_dir (task w' t) ≠ log_dir (task w' u)) as Hhead.
    { intros u Hu. destruct (Hq u Hu) as (_&(l'&Hl'&Hfree')&_).
      rewrite Ht, Hl, Hl'. apply lookup_insert_None in Hfree' as [_ Hne]. congruence. }
    intros u v [->|Hu]%elem_of_cons [->|Hv]%elem_of_cons Hne; try done.
    + by apply Hhead.
    + intros Heq. by apply (Hhead u Hu).
    + by apply Hdistinct.
  - intros u [Hne Hu]%not_elem_of_cons. rewrite Hother by done.
    rewrite Hother3 by done. subst w2 w1. by rewrite !task_upd_task_ne.
Qed.

Lemma set_commands_Ok gen queue :
  ∀ w, ∃ w', set_commands gen queue w = Ok tt w'
             ∧ task_queue w' = task_queue w
             ∧ session_rest (session w') = session_rest (session w)
             ∧ (∀ u, placed (task w u) (task w' u))
             ∧ (∀ u, is_Some (command (task w u)) → is_Some (command (task w' u)))
             ∧ (∀ t, t ∈ queue → NOOP (task w t) = false →
                  is_Some (command (task w' t))).
Proof.
  unfold set_commands. induction queue as [|t queue IH]; intros w.
  { exists w. split; [done|]. split; [done|]. split; [done|].
    split; [by intros u|]. split; [done|]. by intros ? ?%elem_of_nil. }
  cbn [for_each]. mred.
  destruct (NOOP (task w t)) eqn:Hnoop; cbn [negb]; mred.
  - destruct (IH w) as (w'&->&Hq&Hr&Hplaced&Hcmd&Hset).
    exists w'. split; [done|]. split; [done|]. split; [done|]. split; [done|].
    split; [done|].
    intros u [->|Hu]%elem_of_cons Hn; [congruence|by apply Hset].
  - set (w1 := upd_task t _ w).
    destruct (IH w1) as (w'&->&Hq&Hr&Hplaced&Hcmd&Hset).
    assert (∀ u, placed (task w u) (task w1 u)) as Hplaced1.
    { intros u. subst w1. rewrite task_upd_task.
      destruct (decide (t = u)) as [<-|]; by repeat split. }
    exists w'. split; [done|]. split; [done|]. split; [done|]. split; [|split].
    + intros u. destruct (Hplaced u) as (H1&H2&H3&H4).
      destruct (Hplaced1 u) as (G1&G2&G3&G4). unfold placed.
      rewrite H1, H2, H3, H4. done.
    + intros u Hu. apply Hcmd. subst w1. rewrite task_upd_task.
      destruct (decide (t = u)) as [<-|]; [simpl; eauto|done].
    + intros u [->|Hu]%elem_of_cons Hn.
      * apply Hcmd. subst w1. rewrite task_upd_task_eq. simpl. eauto.
      * apply Hset; [done|]. by destruct (Hplaced1 u) as (_&_&_&->).
Qed.

(** The nodes of a graph stay without repetition. *)
Lemma add_node_NoDup n g : NoDup (nodes g) → NoDup (nodes (add_node n g)).
Proof.
  intros H. unfold add_node. destruct (decide _) as [|Hnin]; [done|]. simpl.
  apply NoDup_app. split; [done|]. split; [|apply NoDup_singleton].
  intros x Hx ->%list_elem_of_singleton. done.
Qed.

Lemma add_edge_NoDup e g : NoDup (nodes g) → NoDup (nodes (add_edge e g)).
Proof.
  intros H. unfold add_edge. destruct (decide _); simpl; by do 2 apply add_node_NoDup.
Qed.

Lemma add_edges_from_NoDup es : ∀ g, NoDup (nodes g) → NoDup (nodes (add_edges_from es g)).
Proof.
  unfold add_edges_from. induction es as [|e es IH]; intros g H; simpl; [done|].
  by apply IH, add_edge_NoDup.
Qed.

Lemma add_nodes_from_NoDup ns : ∀ g, NoDup (nodes g) → NoDup (nodes (add_nodes_from ns g)).
Proof.
  unfold add_nodes_from. induction ns as [|n ns IH]; intros g H; simpl; [done|].
  by apply IH, add_node_NoDup.
Qed.

Lemma remove_nodes_from_nodes ns :
  ∀ g, nodes (remove_nodes_from ns g) = filter (λ m, m ∉ ns) (nodes g).
Proof.
  unfold remove_nodes_from. induction ns as [|n ns IH]; intros g; simpl.
  - symmetry. induction (nodes g) as [|m l IHl]; [done|].
    rewrite filter_cons_True by apply not_elem_of_nil. by f_equal.
  - rewrite IH. simpl. rewrite list_filter_filter. apply list_filter_iff.
    intros m. rewrite not_elem_of_cons. tauto.
Qed.

Lemma _copy_graph_NoDup g : NoDup (nodes (_copy_graph g)).
Proof.
  unfold _copy_graph. apply add_nodes_from_NoDup, add_edges_from_NoDup. simpl.
  constructor.
Qed.

Ltac ok_simpl :=
  repeat match goal with
         | H : get _ = Ok _ _ |- _ => cbn [get] in H; injection H as ? ?; subst
         | H : modify _ _ = Ok _ _ |- _ => cbn [modify] in H; injection H as ? ?; subst
         | H : ret _ _ = Ok _ _ |- _ => cbn [ret] in H; injection H as ? ?; subst
         end.

Lemma log_dirs_of_successful (w : World) (succ : list nat) :
  ∀ (d : gmap (option string) nat) u,
    (u ∈ succ ∨ is_Some (d !! log_dir (task w u))) →
    is_Some (foldl (λ d t, <[log_dir (task w t) := t]> d) d succ
             !! log_dir (task w u)).
Proof.
  induction succ as [|t succ IH]; intros d u [Hin|Hd]; simpl.
  - by apply elem_of_nil in Hin.
  - done.
  - apply IH. apply elem_of_cons in Hin as [->|Hin]; [right|by left].
    rewrite lookup_insert_eq. eauto.
  - apply IH. right.
    destruct (decide (log_dir (task w t) = log_dir (task w u))) as [->|Hne].
    + rewrite lookup_insert_eq. eauto.
    + by rewrite lookup_insert_ne.
Qed.

Lemma add_nodes_from_nodes ns :
  ∀ g n, n ∈ ns ∨ n ∈ nodes g → n ∈ nodes (add_nodes_from ns g).
Proof.
  unfold add_nodes_from. induction ns as [|m ns IH]; intros g n [Hin|Hin]; simpl.
  - by apply elem_of_nil in Hin.
  - done.
  - apply IH. apply elem_of_cons in Hin as [->|Hin]; [right|by left].
    unfold add_node. destruct (decide _); [done|]. simpl.
    apply elem_of_app. right. by apply list_elem_of_singleton.
  - apply IH. right. unfold add_node. destruct (decide _); [done|]. simpl.
    apply elem_of_app. by left.
Qed.

(** X12: when the set-up of [run] has passed, the queue has no node twice;
    every queued task has its output and log directories, a path for each
    output file and, unless it is a NOOP, its command; and the log
    directories of the queued tasks differ from one another and from those of
    the tasks of the recipe that were left out of the queue. *)
Theorem run_setup_prepares recipe tod tlod (w w_s : World) :
  run_setup recipe tod tlod w = Ok tt w_s →
  NoDup (nodes (task_queue w_s))
  ∧ (∀ t, t ∈ nodes (task_queue w_s) → prepared w_s t)
  ∧ (∀ t u, t ∈ nodes (task_queue w_s) → u ∈ nodes (task_queue w_s) → t ≠ u →
       log_dir (task w_s t) ≠ log_dir (task w_s u))
  ∧ (∀ t u, t ∈ nodes (task_queue w_s) → u ∈ nodes (task_g recipe) →
       u ∉ nodes (task_queue w_s) →
       log_dir (task w_s t) ≠ log_dir (task w_s u)).
Proof.
  intros H. unfold run_setup in H. ok_inv H. ok_simpl.
  match goal with
  | Hc : terminate_on_ctrl_c ?a = Ok _ ?b |- _ =>
      assert (task_queue b = task_queue a) as Hq0
        by (cbn [terminate_on_ctrl_c modify] in Hc; injection Hc as _ <-;
            by destruct (main_thread _));
      clear Hc
  end.
  match goal with
  | Hc : commit ?a = Ok _ ?b, Hs : set_output_dirs _ _ _ _ ?b = _ |- _ =>
      destruct (commit_Ok a (commit_Ok_session _ _ _ Hc)) as (b'&Hc'&Hq1&_&_&Hdel1&_);
      rewrite Hc in Hc'; injection Hc' as _ <-; clear Hc
  end.
  match goal with
  | Hc : commit ?a = Ok _ w_s |- _ =>
      destruct (commit_Ok a (commit_Ok_session _ _ _ Hc)) as (b'&Hc'&Hq4&_&_&_&_&_&_&_&Htasks4);
      rewrite Hc in Hc'; injection Hc' as <-; clear Hc
  end.
  match goal with
  | Hs : set_output_dirs _ _ _ _ ?b = Ok _ ?c |- _ =>
      rename b into w1; rename c into w2; rename Hs into Hdirs
  end.
  match goal with
  | Hg : set_commands _ _ _ = Ok _ ?d |- _ => rename d into w3; rename Hg into Hcmds
  end.
  clear H1 H2 H6. cbn [task_queue set_task_queue] in Hq0.
  repeat match goal with u : unit |- _ => destruct u end.
  set (succ := filter _ (nodes (task_g recipe))) in *.
  assert (nodes (task_queue w1)
          = filter (λ m, m ∉ succ) (nodes (_copy_graph (task_g recipe)))) as Hnodes.
  { by rewrite Hq1, Hq0, remove_nodes_from_nodes. }
  assert (NoDup (nodes (task_queue w1))) as Hnd.
  { rewrite Hnodes. apply NoDup_filter, _copy_graph_NoDup. }
  assert (∀ u, u ∈ nodes (task_g recipe) → u ∉ nodes (task_queue w1) → u ∈ succ)
    as Hskipped.
  { intros u Hu Hnq. destruct (decide (u ∈ succ)) as [|Hns]; [done|].
    exfalso. apply Hnq. rewrite Hnodes. apply list_elem_of_filter. split; [done|].
    apply add_nodes_from_nodes. by left. }
  match type of Hdirs with set_output_dirs _ _ _ ?ld _ = _ =>
    pose proof (set_output_dirs_task_frame tod tlod (nodes (task_queue w1)) ld w1)
      as ((_&Hrest2&_)&_&Hq2&_) end.
  rewrite Hdirs in Hrest2, Hq2. cbn [state_of] in Hrest2, Hq2.
  destruct (set_output_dirs_Ok _ _ _ _ _ _ Hdirs Hnd) as (Hprep&Hdistinct&Hother).
  destruct (set_commands_Ok (generate_command recipe) (nodes (task_queue w1)) w2)
    as (w3'&Hg'&Hq3&Hrest3&Hplaced&_&Hcmd).
  rewrite Hcmds in Hg'. injection Hg' as <-.
  assert (∀ t, task w_s t = task w3 t) as Htask.
  { intros t. unfold task. rewrite Htasks4; [done|].
    assert (deleted_tasks (session w3) = deleted_tasks (session w1)) as ->; [|done].
    unfold session_rest in Hrest2, Hrest3. congruence. }
  assert (task_queue w_s = task_queue w1) as Hq by congruence.
  rewrite Hq. split; [done|]. split; [|split].
  - intros t Ht. destruct (Hprep t Ht) as (Hd&(l&Hl&_)&Hp).
    destruct (Hplaced t) as (Hpd&Hpl&Hpf&Hpn). unfold prepared.
    rewrite Htask, Hpd, Hpl, Hpf, Hpn. split; [done|]. split; [rewrite Hl; eauto|].
    split; [done|]. intros Hn. by apply Hcmd.
  - intros t u Ht Hu Hne. rewrite !Htask.
    destruct (Hplaced t) as (_&->&_). destruct (Hplaced u) as (_&->&_).
    by apply Hdistinct.
  - intros t u Ht Hu Hnq. rewrite !Htask.
    destruct (Hplaced t) as (_&->&_). destruct (Hplaced u) as (_&->&_).
    destruct (Hprep t Ht) as (_&(l&Hl&Hfree)&_). rewrite Hl, (Hother u Hnq).
    intros Heq.
    destruct (log_dirs_of_successful w1 succ ∅ u) as [v Hv].
    { left. by apply Hskipped. }
    rewrite <- Heq in Hv. congruence.
Qed.

Lemma run_setup_prepares_witness :
  NoDup (nodes (task_queue world_set_up))
  ∧ prepared world_set_up 2
  ∧ log_dir (task world_set_up 1) ≠ log_dir (task world_set_up 2).
Proof.
  destruct (run_setup_prepares (recipe_chain true true) _default_task_output_dir
              _default_task_log_output_dir (world_started []) world_set_up)
    as (Hnd&Hprep&Hdistinct&_).
  - vm_compute. reflexivity.
  - split; [exact Hnd|]. split.
    + apply Hprep. apply (bool_decide_unpack (2%nat ∈ nodes (task_queue world_set_up))).
      vm_compute. exact I.
    + apply Hdistinct.
      * apply (bool_decide_unpack (1%nat ∈ nodes (task_queue world_set_up))).
        vm_compute. exact I.
      * apply (bool_decide_unpack (2%nat ∈ nodes (task_queue world_set_up))).
        vm_compute. exact I.
      * discriminate.
Defined.

(** *** [start] with [restart] *)


(** X13: [start] with [restart] on a name that is in the store, when the
    confirmation is asked for and refused: it raises [SystemExit('Quitting')]
    and no row and no directory is removed (loading the execution has made
    sure of its output directory). *)
Theorem start_restart_declined a_name d cpus argv (s : Session) (ex0 : Execution) :
  find (λ ex, bool_decide (name ex = a_name)) (executions s) = Some ex0 →
  start a_name (Some d) true true cpus false argv s
  = Raise (SystemExit "Quitting") (set_dirs (makedirs (output_dir ex0)) s).
Proof.
  intros Hfind. unfold start. mred. rewrite bool_decide_eq_true_2 by done. mred.
  rewrite (query_first_found _ _ _ Hfind). mred. simpl. by mred.
Qed.

Lemma start_restart_declined_witness :
  start "run1" (Some "/out") true true None false [] session_finished
  = Raise (SystemExit "Quitting") session_finished.
Proof.
  rewrite (start_restart_declined "run1" "/out" None [] session_finished
             finished_execution).
  - vm_compute. reflexivity.
  - vm_compute. reflexivity.
Defined.







(** *** Tasks that are never submitted *)

Lemma cores_used_nonneg w : (∀ u, 0 ≤ cpu_req (task w u)) → 0 ≤ cores_used w.
Proof.
  intros Hpos. unfold cores_used, sumZ.
  induction (running_of w) as [|u l IH]; [done|].
  rewrite fmap_cons. cbn [foldr]. specialize (Hpos u). lia.
Qed.

Lemma sweep_starved t mx cands :
  ∀ w w',
    sweep mx cands w = Ok tt w' →
    t ∉ running_of w →
    (∀ u, 0 ≤ cpu_req (task w u)) →
    t ∉ cands ∨ (∃ m, mx = Some m ∧ m < cpu_req (task w t)) →
    (t ∉ running_of w')
    ∧ task_queue w' = task_queue w
    ∧ task_status (task w' t) = task_status (task w t).
Proof.
  induction cands as [|u cands IH]; intros w w' HOk Hrun Hpos Hwhy.
  { by injection HOk as <-. }
  destruct (jobmanager w) as [jm|] eqn:Hjm; cycle 1.
  { simpl in HOk. rewrite bind_eq in HOk. unfold get_running_tasks in HOk.
    by rewrite Hjm in HOk. }
  rewrite (sweep_cons _ _ _ _ jm) in HOk by done.
  destruct (over_budget _ _ _) eqn:Hover; [by injection HOk as <-|].
  assert (u ≠ t) as Hne.
  { destruct Hwhy as [Hnin|(m&->&Hm)].
    - intros ->. apply Hnin. by left.
    - intros ->. simpl in Hover. apply bool_decide_eq_false in Hover.
      pose proof (cores_used_nonneg w Hpos). lia. }
  apply bind_Ok_inv in HOk as ([]&w1&Hrender&HOk).
  apply bind_Ok_inv in HOk as ([]&w2&Hsubmit&HOk).
  pose proof (render_paths_task_frame u w) as ((_&_&Hstat1)&Hjm1&Hq1&_&Hst1).
  rewrite Hrender in Hstat1, Hjm1, Hq1, Hst1. simpl in *. rewrite Hjm in Hjm1.
  destruct (submit_Ok u w1 jm Hjm1) as (w2'&Hsub'&Hjm2&Hq2&_&_&Hst2).
  rewrite Hsubmit in Hsub'. injection Hsub' as <-.
  pose proof (submit_respects u w1) as (_&_&Hstat2). rewrite Hsubmit in Hstat2.
  simpl in Hstat2.
  assert (∀ v, cpu_req (task w2 v) = cpu_req (task w v)) as Hcpu.
  { intros v. destruct (Hstat2 v) as (->&_). by destruct (Hstat1 v) as (->&_). }
  destruct (IH w2 w' HOk) as (Hrun'&Hq'&Hst').
  - unfold running_of in *. rewrite Hjm2. rewrite Hjm in Hrun. simpl.
    intros [Hin|Hin%list_elem_of_singleton]%elem_of_app; [done|]. by apply Hne.
  - intros v. rewrite Hcpu. apply Hpos.
  - destruct Hwhy as [Hnin|(m&->&Hm)].
    + left. by apply not_elem_of_cons in Hnin as [_ ?].
    + right. exists m. split; [done|]. by rewrite Hcpu.
  - split; [done|]. split; [by rewrite Hq', Hq2, Hq1|].
    by rewrite Hst', Hst2, Hst1 by done.
Qed.

Lemma for_each_process_starved t fin :
  ∀ w w',
    for_each fin (process_finished_task remove_from_queue) w = Ok tt w' →
    t ∉ fin →
    t ∈ nodes (task_queue w) →
    t ∈ nodes (task_queue w') ∧ jobmanager w' = jobmanager w.
Proof.
  induction fin as [|u fin IH]; intros w w' HOk Hnin Hin.
  { by injection HOk as <-. }
  apply not_elem_of_cons in Hnin as [Hne Hnin].
  simpl in HOk. apply bind_Ok_inv in HOk as ([]&w1&Hu&Hrest).
  apply process_finished_task_Ok_queue in Hu as (_&Hq&Hjm&_).
  destruct (IH w1 w' Hrest Hnin) as (Hin'&Hjm').
  - rewrite Hq. unfold drop_node. simpl. apply list_elem_of_filter. done.
  - split; [done|]. by rewrite Hjm', Hjm.
Qed.

Lemma loop_body_starved t w w' :
  loop_body w = Ok tt w' →
  (∀ u, 0 ≤ cpu_req (task w u)) →
  starved t w →
  (∀ u, 0 ≤ cpu_req (task w' u)) ∧ starved t w'.
Proof.
  intros HOk Hpos (Hin&Hrun&Hwhy).
  pose proof (loop_body_respects w) as (Hself&_&Hstat).
  rewrite HOk in Hself, Hstat. simpl in Hself, Hstat.
  split. { intros u. destruct (Hstat u) as (->&_). apply Hpos. }
  unfold loop_body in HOk. apply bind_Ok_inv in HOk as ([]&w1&Hready&Hdrain).
  unfold _run_ready_tasks in Hready. rewrite bind_eq in Hready. cbn [get] in Hready.
  apply (sweep_starved t) in Hready as (Hrun1&Hq1&Hst1); [|done..|]; cycle 1.
  { destruct Hwhy as [Hst|(m&Hm&Hlt)].
    - left. rewrite sorted_Permutation. unfold ready_tasks.
      intros [[_ Hno] _]%list_elem_of_filter. done.
    - right. exists m. done. }
  unfold iterate, _process_finished_tasks in Hdrain.
  apply bind_Ok_inv in Hdrain as (fin&w2&Hfin&Hrest).
  apply get_finished_tasks_Ok in Hfin as (Hfin&Hsub&Hq2&_&Hst2).
  assert (t ∉ fin) as Hnfin.
  { intros Ht. by destruct (Hfin t Ht). }
  destruct (for_each_process_starved t fin w2 w' Hrest Hnfin) as (Hin'&Hjm').
  { by rewrite Hq2, Hq1. }
  apply for_each_process_Ok in Hrest as (_&_&Hother).
  split; [done|]. split.
  - unfold running_of. rewrite Hjm'. intros Ht. by apply Hrun1, Hsub.
  - rewrite Hself. destruct (Hstat t) as (->&_).
    rewrite (Hother t Hnfin), Hst2, Hst1. done.
Qed.

Lemma scheduler_loop_starved t fuel :
  ∀ w w',
    (∀ u, 0 ≤ cpu_req (task w u)) →
    starved t w →
    scheduler_loop fuel w ≠ Ok tt w'.
Proof.
  induction fuel as [|fuel IH]; intros w w' Hpos Hst; simpl.
  - rewrite bool_decide_eq_true_2; [done|].
    destruct Hst as (Hin&_). destruct (nodes (task_queue w)); [|simpl; lia].
    by apply elem_of_nil in Hin.
  - rewrite bool_decide_eq_true_2; cycle 1.
    { destruct Hst as (Hin&_). destruct (nodes (task_queue w)); [|simpl; lia].
      by apply elem_of_nil in Hin. }
    intros HOk. apply bind_Ok_inv in HOk as ([]&w1&Hbody&Hloop).
    destruct (loop_body_starved t w w1 Hbody Hpos Hst) as (Hpos1&Hst1).
    by apply (IH w1 w' Hpos1 Hst1).
Qed.

(** X15: a task that is queued when the set-up of [run] has passed and that
    no sweep can submit, because its status is not [no_attempt] or because
    it asks for more CPUs than [max_cpus], is never submitted and never
    leaves the queue: whatever the resource manager answers and however long
    the loop goes on, [run] does not return. *)
Theorem run_starved recipe tod tlod fuel (w w_s : World) (t : nat) :
  run_setup recipe tod tlod w = Ok tt w_s →
  cpu_reqs_nonneg w_s →
  t ∈ nodes (task_queue w_s) →
  (task_status (task w_s t) ≠ TaskStatus.no_attempt
   ∨ ∃ m, max_cpus (self w) = Some m ∧ m < cpu_req (task w_s t)) →
  (∀ k w_k, iterations k w_s = Ok tt w_k → starved t w_k)
  ∧ ∀ w', run recipe tod tlod false fuel w ≠ Ok tt w'.
Proof.
  intros Hsetup Hnonneg Hin Hwhy.
  pose proof (cpu_reqs_nonneg_task w_s Hnonneg) as Hpos.
  pose proof (run_setup_post recipe tod tlod w
                (proj1 (run_setup_Ok_in_session _ _ _ _ _ Hsetup))) as Hpost.
  rewrite Hsetup in Hpost. simpl in Hpost. destruct Hpost as (_&_&Hjm&_&Hmax&_).
  assert (starved t w_s) as Hst.
  { split; [done|]. split.
    - unfold running_of. rewrite Hjm. apply not_elem_of_nil.
    - rewrite Hmax. done. }
  split.
  - intros k. revert Hpos Hst. generalize w_s. clear.
    induction k as [|k IH]; intros w Hpos Hst w_k Hk; simpl in Hk.
    { by injection Hk as <-. }
    destruct (bool_decide _); [|by injection Hk as <-].
    apply bind_Ok_inv in Hk as ([]&w1&Hbody&Hk).
    destruct (loop_body_starved t w w1 Hbody Hpos Hst) as (Hpos1&Hst1).
    by apply (IH w1).
  - intros w' Hrun. apply try_except_Ok_inv in Hrun. unfold run_body in Hrun.
    apply bind_Ok_inv in Hrun as ([]&w_s'&Hsetup'&Hrun).
    rewrite Hsetup in Hsetup'. injection Hsetup' as <-.
    apply bind_Ok_inv in Hrun as ([]&w2&Hloop&_). simpl in Hloop.
    apply bind_Ok_inv in Hloop as ([]&w_l&Hloop&_).
    by apply (scheduler_loop_starved t fuel w_s w_l Hpos Hst).
Qed.

Lemma run_starved_witness :
  ¬ ∃ w', run (recipe_chain true true) _default_task_output_dir
              _default_task_log_output_dir false 3 (world_with_budget 0) = Ok tt w'.
Proof.
  intros [w' Hrun].
  destruct (run_starved (recipe_chain true true) _default_task_output_dir
              _default_task_log_output_dir 3 (world_with_budget 0)
              (state_of (run_setup (recipe_chain true true) _default_task_output_dir
                           _default_task_log_output_dir (world_with_budget 0)))
              1%nat) as [_ Hnever].
  - vm_compute. reflexivity.
  - apply (bool_decide_unpack (cpu_reqs_nonneg _)). vm_compute. exact I.
  - apply (bool_decide_unpack (1%nat ∈ _)). vm_compute. exact I.
  - right. exists 0. split; [vm_compute; reflexivity|]. vm_compute. reflexivity.
  - exact (Hnever w' Hrun).
Defined.

(** *** [ListOfStrings]: what comes back from the column *)

Lemma append_cons c (a b : string) : String c a +:+ b = String c (a +:+ b).
Proof. done. Qed.

Lemma append_nil_r (s : string) : s +:+ "" = s.
Proof. induction s as [|c s IH]; [done|]. by rewrite append_cons, IH. Qed.

Lemma append_assoc (a b c : string) : (a +:+ b) +:+ c = a +:+ (b +:+ c).
Proof. induction a as [|x a IH]; [done|]. by rewrite !append_cons, IH. Qed.

Lemma contains_sep_cons c s :
  contains_sep (String c s)
  = match s with
    | String c' _ =>
        (bool_decide (c = ","%char) && bool_decide (c' = " "%char)) || contains_sep s
    | EmptyString => false
    end.
Proof. done. Qed.

Lemma split_from_sep cur r :
  split_from cur (", " +:+ r) = cur :: split_from "" r.
Proof. done. Qed.

(** A piece without the separator in front of a separator is cut off as it
    is. *)
Lemma split_from_piece x :
  ∀ cur r, contains_sep x = false →
    split_from cur (x +:+ ", " +:+ r) = (cur +:+ x) :: split_from "" r.
Proof.
  induction x as [|c x IH]; intros cur r Hx.
  { by rewrite append_nil_r. }
  rewrite contains_sep_cons in Hx.
  replace (cur +:+ String c x) with ((cur +:+ String c "") +:+ x)
    by (by rewrite append_assoc).
  destruct x as [|c' x].
  - rewrite <- (IH (cur +:+ String c "") r) by done. simpl.
    destruct (bool_decide (c = ","%char)); done.
  - apply orb_false_iff in Hx as [Hhead Hx].
    rewrite <- (IH (cur +:+ String c "") r) by done.
    change (String c (String c' x) +:+ ", " +:+ r)
      with (String c (String c' (x +:+ ", " +:+ r))).
    cbn [split_from]. by rewrite Hhead.
Qed.

Lemma split_from_last x :
  ∀ cur, contains_sep x = false → split_from cur x = [cur +:+ x].
Proof.
  induction x as [|c x IH]; intros cur Hx.
  { by rewrite append_nil_r. }
  rewrite contains_sep_cons in Hx.
  replace (cur +:+ String c x) with ((cur +:+ String c "") +:+ x)
    by (by rewrite append_assoc).
  destruct x as [|c' x].
  - by rewrite append_nil_r.
  - apply orb_false_iff in Hx as [Hhead Hx].
    rewrite <- (IH (cur +:+ String c "")) by done.
    cbn [split_from]. by rewrite Hhead.
Qed.

Lemma split_concat (l : list string) :
  l ≠ [] → Forall (λ x, contains_sep x = false) l →
  split_comma_space (String.concat ", " l) = l.
Proof.
  unfold split_comma_space.
  induction l as [|x l IH]; intros Hne Hall; [done|].
  apply Forall_cons in Hall as [Hx Hall].
  destruct l as [|y l].
  - simpl. by rewrite split_from_last.
  - change (String.concat ", " (x :: y :: l))
      with (x +:+ ", " +:+ String.concat ", " (y :: l)).
    rewrite split_from_piece by done. simpl. f_equal. by apply IH.
Qed.

(** [contains_sep] is [', ' in s]. *)
Lemma contains_sep_spec (s : string) :
  contains_sep s = true ↔ ∃ a b, s = a +:+ ", " +:+ b.
Proof.
  split.
  - induction s as [|c s IH]; [done|]. rewrite contains_sep_cons.
    destruct s as [|c' s]; [done|].
    intros [[Hc Hc']%andb_true_iff|Hs]%orb_true_iff.
    + apply bool_decide_eq_true in Hc, Hc'. subst. by exists "", s.
    + destruct (IH Hs) as (a&b&->). by exists (String c a), b.
  - intros (a&b&->). induction a as [|c a IH]; [done|].
    rewrite append_cons, contains_sep_cons.
    destruct (a +:+ ", " +:+ b) as [|c' r] eqn:Hr.
    + by destruct a.
    + rewrite IH. apply orb_true_r.
Qed.

Lemma contains_sep_app_l (a b : string) :
  contains_sep (a +:+ b) = false → contains_sep a = false.
Proof.
  induction a as [|c a IH]; [done|]. rewrite append_cons, !contains_sep_cons.
  destruct a as [|c' a]; [done|]. rewrite append_cons.
  intros [Hhead Hrest]%orb_false_iff. rewrite Hhead. simpl. by apply IH.
Qed.

Lemma contains_sep_snoc (a : string) (c d : ascii) :
  contains_sep (a +:+ String c "") = false →
  bool_decide (c = ","%char) && bool_decide (d = " "%char) = false →
  contains_sep (a +:+ String c (String d "")) = false.
Proof.
  intros Ha Hcd. induction a as [|x a IH].
  { change (contains_sep (String c (String d "")) = false).
    rewrite contains_sep_cons, Hcd. done. }
  destruct a as [|y a].
  - change (contains_sep (String x (String c "")) = false) in Ha.
    change (contains_sep (String x (String c (String d ""))) = false).
    rewrite contains_sep_cons in Ha. apply orb_false_iff in Ha as [Hxc _].
    rewrite contains_sep_cons, Hxc. cbn [orb].
    rewrite contains_sep_cons, Hcd. done.
  - change (contains_sep (String x (String y a +:+ String c "")) = false) in Ha.
    change (contains_sep (String x (String y a +:+ String c (String d ""))) = false).
    rewrite contains_sep_cons in Ha. rewrite contains_sep_cons.
    rewrite append_cons in Ha. rewrite append_cons.
    apply orb_false_iff in Ha as [Hxy Ha]. rewrite Hxy. cbn [orb].
    rewrite <- append_cons. apply IH. by rewrite append_cons.
Qed.

Lemma split_from_cons c c' s cur :
  split_from cur (String c (String c' s))
  = if bool_decide (c = ","%char) && bool_decide (c' = " "%char)
    then cur :: split_from "" s
    else split_from (cur +:+ String c "") (String c' s).
Proof. done. Qed.

(** No piece of a split contains the separator. *)
Lemma split_from_pieces (n : nat) :
  ∀ s cur,
    (String.length s ≤ n)%nat →
    contains_sep cur = false →
    (∀ c s', s = String c s' → contains_sep (cur +:+ String c "") = false) →
    Forall (λ p, contains_sep p = false) (split_from cur s).
Proof.
  induction n as [|n IH]; intros s cur Hlen Hcur Hnext.
  { destruct s as [|c s]; [by constructor|].
    change (S (String.length s) ≤ 0)%nat in Hlen. lia. }
  destruct s as [|c s]; [by constructor|].
  specialize (Hnext c s eq_refl).
  destruct s as [|c' s].
  { simpl. by constructor. }
  rewrite split_from_cons.
  change (S (S (String.length s)) ≤ S n)%nat in Hlen.
  destruct (bool_decide (c = ","%char) && bool_decide (c' = " "%char)) eqn:Hhead.
  - constructor; [done|]. apply IH; [lia|done|].
    intros x s' _. done.
  - apply IH; [change (S (String.length s) ≤ n)%nat; lia|done|].
    intros x s' [= <- <-]. rewrite append_assoc.
    by apply contains_sep_snoc.
Qed.

Lemma process_result_value_nonempty (s : string) :
  s ≠ "" → ListOfStrings.process_result_value (Some s) = split_comma_space s.
Proof. by destruct s. Qed.

(** X16: a list of strings comes back from the column as it went in exactly
    when no element contains the separator [', '] and the list is not
    [['']]: an element with the separator in it comes back cut in pieces,
    and the list of one empty string comes back empty. *)
Theorem ListOfStrings_round_trip (l : list string) :
  ListOfStrings.process_result_value (ListOfStrings.process_bind_param l) = l
  ↔ Forall (λ x, contains_sep x = false) l ∧ l ≠ [""].
Proof.
  destruct l as [|x l]; [done|].
  change (ListOfStrings.process_bind_param (x :: l))
    with (Some (String.concat ", " (x :: l))).
  split.
  - intros Hback.
    assert (String.concat ", " (x :: l) ≠ "") as Hne.
    { intros Hempty. by rewrite Hempty in Hback. }
    split.
    + rewrite process_result_value_nonempty in Hback by done.
      rewrite <- Hback. unfold split_comma_space.
      apply (split_from_pieces (String.length (String.concat ", " (x :: l)))); [lia|done|].
      by intros c s' _.
    + intros [= -> ->]. by apply Hne.
  - intros [Hall Hne].
    rewrite process_result_value_nonempty; [by apply split_concat|].
    destruct l as [|y l].
    + simpl. intros ->. done.
    + change (String.concat ", " (x :: y :: l))
        with (x +:+ ", " +:+ String.concat ", " (y :: l)).
      by destruct x.
Qed.

(** *** The task queue [run] starts from *)

Lemma add_node_elem n g m : m ∈ nodes (add_node n g) ↔ m = n ∨ m ∈ nodes g.
Proof.
  unfold add_node. destruct (decide _) as [Hin|Hnin]; simpl.
  - split; [by right|]. by intros [->|?].
  - rewrite elem_of_app, list_elem_of_singleton. tauto.
Qed.

Lemma add_node_edges n g : edges (add_node n g) = edges g.
Proof. unfold add_node. by destruct (decide _). Qed.

Lemma add_edge_elem e g m :
  m ∈ nodes (add_edge e g) ↔ m = e.1 ∨ m = e.2 ∨ m ∈ nodes g.
Proof.
  unfold add_edge. destruct (decide _); simpl; rewrite !add_node_elem; tauto.
Qed.

Lemma add_edge_edges e g e' : e' ∈ edges (add_edge e g) ↔ e' = e ∨ e' ∈ edges g.
Proof.
  unfold add_edge. destruct (decide _) as [Hin|Hnin]; simpl;
    rewrite ?elem_of_app, ?list_elem_of_singleton, ?add_node_edges in *.
  - split; [by right|]. by intros [->|?].
  - tauto.
Qed.

Lemma add_edges_from_elem es :
  ∀ g m, m ∈ nodes (add_edges_from es g)
         ↔ m ∈ nodes g ∨ ∃ e, e ∈ es ∧ (m = e.1 ∨ m = e.2).
Proof.
  unfold add_edges_from. induction es as [|e es IH]; intros g m; simpl.
  - split; [by left|]. intros [?|(e&[]%elem_of_nil&_)]. done.
  - rewrite IH, add_edge_elem. split.
    + intros [[He|[He|Hg]]|(e'&He'&Hm)].
      * right. exists e. split; [by left|by left].
      * right. exists e. split; [by left|by right].
      * by left.
      * right. exists e'. split; [by right|done].
    + intros [Hg|(e'&[->|He']%elem_of_cons&Hm)].
      * left. by right; right.
      * left. destruct Hm; [by left|by right; left].
      * right. by exists e'.
Qed.

Lemma add_edges_from_edges es :
  ∀ g e', e' ∈ edges (add_edges_from es g) ↔ e' ∈ es ∨ e' ∈ edges g.
Proof.
  unfold add_edges_from. induction es as [|e es IH]; intros g e'; simpl.
  - split; [by right|]. by intros [[]%elem_of_nil|?].
  - rewrite IH, add_edge_edges, elem_of_cons. tauto.
Qed.

Lemma add_nodes_from_elem ns :
  ∀ g m, m ∈ nodes (add_nodes_from ns g) ↔ m ∈ ns ∨ m ∈ nodes g.
Proof.
  unfold add_nodes_from. induction ns as [|n ns IH]; intros g m; simpl.
  - split; [by right|]. by intros [[]%elem_of_nil|?].
  - rewrite IH, add_node_elem, elem_of_cons. tauto.
Qed.

Lemma add_nodes_from_edges ns : ∀ g, edges (add_nodes_from ns g) = edges g.
Proof.
  unfold add_nodes_from. induction ns as [|n ns IH]; intros g; simpl; [done|].
  by rewrite IH, add_node_edges.
Qed.

Lemma remove_nodes_from_edges ns :
  ∀ g, edges (remove_nodes_from ns g)
       = filter (λ e, (e.1 ∉ ns) ∧ (e.2 ∉ ns)) (edges g).
Proof.
  unfold remove_nodes_from. induction ns as [|n ns IH]; intros g; simpl.
  - symmetry. induction (edges g) as [|e l IHl]; [done|].
    rewrite filter_cons_True by (split; apply not_elem_of_nil). by f_equal.
  - rewrite IH. simpl. rewrite list_filter_filter. apply list_filter_iff.
    intros e. rewrite !not_elem_of_cons. tauto.
Qed.

(** X17: the queue [run] builds from the task graph and the tasks it skips:
    its nodes are the tasks of the graph that are not skipped, its edges the
    edges of the graph between two such tasks, and a queued task has no edge
    into it, and so is ready from the start, exactly when every task it
    depends on is skipped. *)
Theorem task_queue_of_graph (g : DiGraph) (skipped : list nat) :
  (∀ e, e ∈ edges g → e.1 ∈ nodes g ∧ e.2 ∈ nodes g) →
  (∀ n, n ∈ nodes (remove_nodes_from skipped (_copy_graph g))
        ↔ n ∈ nodes g ∧ n ∉ skipped)
  ∧ (∀ e, e ∈ edges (remove_nodes_from skipped (_copy_graph g))
          ↔ e ∈ edges g ∧ (e.1 ∉ skipped) ∧ (e.2 ∉ skipped))
  ∧ (∀ t, t ∉ skipped →
          in_degree (remove_nodes_from skipped (_copy_graph g)) t = 0%nat
          ↔ ∀ u, (u, t) ∈ edges g → u ∈ skipped).
Proof.
  intros Hwf.
  assert (∀ e, e ∈ edges (remove_nodes_from skipped (_copy_graph g))
               ↔ e ∈ edges g ∧ (e.1 ∉ skipped) ∧ (e.2 ∉ skipped)) as Hedges.
  { intros e. rewrite remove_nodes_from_edges, list_elem_of_filter.
    unfold _copy_graph. rewrite add_nodes_from_edges, add_edges_from_edges. simpl.
    rewrite elem_of_nil. tauto. }
  split; [|split; [done|]].
  - intros n. rewrite remove_nodes_from_nodes, list_elem_of_filter.
    unfold _copy_graph. rewrite add_nodes_from_elem, add_edges_from_elem. simpl.
    rewrite elem_of_nil. split.
    + intros [Hn [Hin|[[]|(e&He&Hends)]]]; (split; [|done]); [done|].
      destruct (Hwf e He) as [H1 H2]. by destruct Hends as [->| ->].
    + intros [Hin Hn]. split; [done|]. by left.
  - intros t Ht. rewrite in_degree_zero. split.
    + intros Hno u Hu. destruct (decide (u ∈ skipped)) as [|Hnu]; [done|].
      destruct (Hno u). apply Hedges. done.
    + intros Hall u [Hu [Hnu _]]%Hedges. by apply Hnu, Hall.
Qed.

Lemma task_queue_of_graph_witness :
  in_degree (remove_nodes_from [1%nat] (_copy_graph (task_g (recipe_chain true true))))
            2 = 0%nat.
Proof.
  destruct (task_queue_of_graph (task_g (recipe_chain true true)) [1%nat])
    as (_&_&Hready).
  - intros e He. apply (list_elem_of_singleton e (1%nat, 2%nat)) in He. subst e.
    split.
    + apply (bool_decide_unpack (1%nat ∈ [1; 2]%nat)). vm_compute. exact I.
    + apply (bool_decide_unpack (2%nat ∈ [1; 2]%nat)). vm_compute. exact I.
  - apply Hready.
    + apply (bool_decide_unpack (2%nat ∉ [1%nat])). vm_compute. exact I.
    + intros u Hu. apply (list_elem_of_singleton (u, 2%nat) (1%nat, 2%nat)) in Hu.
      injection Hu as ->. by left.
Defined.

(** *** [parse_and_start] *)

Lemma upsert_last ex rows :
  (∀ r, r ∈ rows → id r ≠ id ex) → upsert ex (rows ++ [ex]) = rows ++ [ex].
Proof.
  induction rows as [|r rows IH]; intros Hne; simpl.
  - by rewrite decide_True.
  - rewrite decide_False by (apply Hne; by left).
    rewrite IH; [done|]. intros r' Hr'. apply Hne. by right.
Qed.

(** X18: [parse_and_start] without [--output_dir].  Unless [root_output_dir]
    is given, not empty and an existing directory, it raises an
    [AssertionError] and changes nothing.  Otherwise the output directory is
    [root_output_dir/name]: for a valid name that is not in the store and a
    directory that does not exist yet, the execution is created there, with
    a fresh id and the CPU limit of the command line, and it is committed
    twice, by [start] and by [parse_and_start]. *)
Theorem parse_and_start_default_dir (parsed : Parsed) (root : option string)
    confirm argv (s : Session) :
  p_output_dir parsed = None →
  ((root = None ∨ root = Some "" ∨ ∃ r, root = Some r ∧ r ∉ dirs s) →
     parse_and_start parsed root confirm argv s
     = Raise (AssertionError "root_output_dir does not exist.") s)
  ∧ (∀ r, root = Some r → r ≠ "" → r ∈ dirs s →
       find (λ ex, bool_decide (name ex = p_name parsed)) (executions s) = None →
       validate_name (p_name parsed) = true →
       opj r (p_name parsed) ∉ dirs s →
       ∃ ex s',
         parse_and_start parsed root confirm argv s = Ok ex s'
         ∧ ex = mkExecution (Some (fresh_id (executions s))) (p_name parsed) false
                            (opj r (p_name parsed)) None None (p_max_cpus parsed)
                            {["last_cmd_executed" := get_last_cmd_executed argv]}
                            ExecutionStatus.no_attempt
         ∧ executions s' = executions s ++ [ex]
         ∧ opj r (p_name parsed) ∈ dirs s'
         ∧ history s' = ex :: ex :: history s).
Proof.
  intros Hnone. unfold parse_and_start. rewrite Hnone. split.
  - intros Hroot. mred.
    assert (match root with
            | Some r => negb (bool_decide (r = "")) && bool_decide (r ∈ dirs s)
            | None => false
            end = false) as ->; [|done].
    destruct Hroot as [->|[->|(r&->&Hr)]]; [done|done|].
    rewrite (bool_decide_eq_false_2 (r ∈ dirs s)) by done. apply andb_false_r.
  - intros r -> Hr Hin Hfind Hname Hfree. mred.
    rewrite (bool_decide_eq_false_2 (r = "")) by done.
    rewrite (bool_decide_eq_true_2 (r ∈ dirs s)) by done. cbn [negb andb]. mred.
    cbn [default].
    unfold start. mred. rewrite bool_decide_eq_true_2 by done. mred.
    assert ((if p_restart parsed
             then found ← query_first (p_name parsed);
                  match found with
                  | Some ex =>
                      (if p_prompt_confirm parsed && negb confirm
                       then raise (SystemExit "Quitting") else ret tt) ;;
                      delete_execution ex true ;; ret (id ex)
                  | None => ret None
                  end
             else ret None) s = Ok None s) as Hold.
    { destruct (p_restart parsed); mred; [|done].
      rewrite (query_first_missing _ _ Hfind). by mred. }
    rewrite Hold. mred. rewrite (query_first_missing _ _ Hfind). mred.
    rewrite bool_decide_eq_true_2 by done. mred. unfold mkdir. mred.
    rewrite Hname. mred. unfold session_commit, flush. simpl.
    assert (∀ r0, r0 ∈ executions s → id r0 ≠ Some (fresh_id (executions s))) as Hfresh.
    { intros r0 Hr0 Hid. pose proof (fresh_id_above _ _ Hr0) as Hlt.
      rewrite Hid in Hlt. simpl in Hlt. lia. }
    eexists _, _. split; [reflexivity|]. split; [done|].
    cbn [executions dirs history].
    rewrite (upsert_fresh _ (executions s)) by exact Hfresh.
    split; [by apply upsert_last|].
    split; [unfold makedirs; set_solver|done].
Qed.

Lemma parse_and_start_default_dir_witness :
  ∃ ex s', parse_and_start (mkParsed "run2" None false true (Some 4)) (Some "/out")
                           false ["recipe.py"; "-n"; "run2"] session_finished
           = Ok ex s'
           ∧ output_dir ex = "/out/run2"
           ∧ history s' = [ex; ex].
Proof.
  destruct (parse_and_start_default_dir (mkParsed "run2" None false true (Some 4))
              (Some "/out") false ["recipe.py"; "-n"; "run2"] session_finished)
    as (_&Hok).
  - reflexivity.
  - destruct (Hok "/out") as (ex&s'&Hstart&Hex&_&_&Hhist).
    + reflexivity.
    + discriminate.
    + apply (bool_decide_unpack ("/out" ∈ dirs session_finished)). vm_compute. exact I.
    + vm_compute. reflexivity.
    + vm_compute. reflexivity.
    + apply (bool_decide_unpack (opj "/out" "run2" ∉ dirs session_finished)).
      vm_compute. exact I.
    + exists ex, s'. split; [exact Hstart|]. rewrite Hhist, Hex.
      split; [vm_compute; reflexivity|reflexivity].
Defined.

(** *** The one way the set-up of [run] fails *)

Lemma log_dirs_lookup (w : World) (succ : list nat) :
  ∀ (d : gmap (option string) nat) k u,
    foldl (λ d t, <[log_dir (task w t) := t]> d) d succ !! k = Some u →
    (u ∈ succ ∧ log_dir (task w u) = k) ∨ d !! k = Some u.
Proof.
  induction succ as [|t succ IH]; intros d k u Hk; simpl in Hk; [by right|].
  apply IH in Hk as [[Hin Hlog]|Hk].
  - left. split; [by right|done].
  - destruct (decide (log_dir (task w t) = k)) as [<-|Hne].
    + rewrite lookup_insert_eq in Hk. injection Hk as <-. left. split; [by left|done].
    + rewrite lookup_insert_ne in Hk by done. by right.
Qed.

Lemma set_output_dirs_outcome tod tlod queue :
  ∀ (log_dirs : gmap (option string) nat) w,
    NoDup queue →
    (∀ l u, log_dirs !! Some l = Some u → (u ∉ queue) ∧ log_dir (task w u) = Some l) →
    (∃ w', set_output_dirs tod tlod queue log_dirs w = Ok tt w')
    ∨ (∃ w' t u,
         set_output_dirs tod tlod queue log_dirs w
         = Raise (AssertionError (duplicate_log_dir t u)) w'
         ∧ t ∈ queue ∧ u ≠ t
         ∧ log_dir (task w' u) = Some (tlod w' (task w' t))
         ∧ task_queue w' = task_queue w).
Proof.
  induction queue as [|t queue IH]; intros log_dirs w Hnd Hseen.
  { left. by exists w. }
  apply NoDup_cons in Hnd as [Hnin Hnd].
  cbn [set_output_dirs]. mred.
  set (w1 := upd_task t _ w).
  set (l := tlod w1 (task w1 t)).
  destruct (log_dirs !! Some l) as [u|] eqn:Hl.
  - right. exists w1, t, u. mred.
    destruct (Hseen l u Hl) as [[Hne _]%not_elem_of_cons Hlog].
    split; [done|]. split; [by left|]. split; [done|]. split; [|done].
    subst w1. by rewrite task_upd_task_ne.
  - mred.
    set (w2 := upd_task t _ w1).
    destruct (render_paths_with_dir t w2 (tod w (task w t)))
      as (w3&Hr&Hdir3&Hlog3&Hpaths3&Hother3).
    { subst w2 w1. by rewrite !task_upd_task_eq. }
    pose proof (render_paths_task_frame t w2) as (_&_&Hq3&_).
    rewrite Hr in Hq3. cbn [state_of] in Hq3. rewrite Hr.
    destruct (IH (<[Some l := t]> log_dirs) w3 Hnd)
      as [(w'&HOk)|(w'&t'&u'&Hr'&Ht'&Hne'&Hlog'&Hq')].
    + intros l' u' Hl'. destruct (decide (l' = l)) as [->|Hne].
      * rewrite lookup_insert_eq in Hl'. injection Hl' as <-. split; [done|].
        rewrite Hlog3. subst w2. by rewrite task_upd_task_eq.
      * rewrite lookup_insert_ne in Hl' by congruence.
        destruct (Hseen l' u' Hl') as [[Hne' Hnin']%not_elem_of_cons Hlog'].
        split; [done|].
        rewrite Hother3 by done. subst w2 w1. by rewrite !task_upd_task_ne.
    + left. by exists w'.
    + right. exists w', t', u'. split; [done|]. split; [by right|].
      split; [done|]. split; [done|]. by rewrite Hq', Hq3.
Qed.

Lemma run_setup_cases recipe tod tlod (w : World) :
  in_session w = true →
  (∃ w', run_setup recipe tod tlod w = Ok tt w')
  ∨ (∃ w' t u,
       run_setup recipe tod tlod w = Raise (AssertionError (duplicate_log_dir t u)) w'
       ∧ t ∈ nodes (task_queue w') ∧ u ≠ t
       ∧ log_dir (task w' u) = Some (tlod w' (task w' t))).
Proof.
  intros Hsess. unfold run_setup. rewrite bind_eq. cbn [get]. rewrite Hsess. mred.
  destruct (set_status_outcome ExecutionStatus.running w Hsess) as (w1&Hset&_).
  pose proof (Ok_bound _ _ _ _ (set_status_bound _) Hset) as Hb1.
  rewrite Hset. mred.
  match goal with |- context [match ?m ?y with Ok _ _ => _ | _ => _ end] =>
    assert (∃ wx, m y = Ok tt wx ∧ in_session wx = true) as (wx&->&Hbx)
      by (destruct (started_on _); eexists; (split; [reflexivity|]); simpl; congruence)
  end.
  mred. unfold terminate_on_ctrl_c. mred.
  match goal with |- context [commit ?x] => set (wc := x) end.
  destruct (commit_Ok wc) as (w0&Hc&Hq0&_).
  { subst wc. by destruct (main_thread _). }
  rewrite Hc. mred.
  set (succ := filter _ (nodes (task_g recipe))) in *.
  assert (nodes (task_queue w0)
          = filter (λ m, m ∉ succ) (nodes (_copy_graph (task_g recipe)))) as Hnodes.
  { rewrite Hq0. subst wc. destruct (main_thread _);
      cbn [task_queue set_task_queue set_sigint_handler];
      apply remove_nodes_from_nodes. }
  match goal with |- context [set_output_dirs tod tlod ?q ?ld w0] =>
    pose proof (set_output_dirs_bound tod tlod q ld w0) as Hb2;
    destruct (set_output_dirs_outcome tod tlod q ld w0)
      as [(w2&HOk)|(w2&t&u&Hr&Ht&Hne&Hlog&Hq2)];
      [ rewrite Hnodes; apply NoDup_filter, _copy_graph_NoDup
      | intros l u' [[Hin Hl]|Hl]%log_dirs_lookup; [|by rewrite lookup_empty in Hl];
        split; [|done]; rewrite Hnodes;
        by intros [Hnin _]%list_elem_of_filter
      | rewrite HOk in Hb2 |- *; mred
      | rewrite Hr; mred ]
  end.
  - left.
    destruct (set_commands_Ok (generate_command recipe) (nodes (task_queue w0)) w2)
      as (w3&Hcmd&_).
    pose proof (set_commands_bound (generate_command recipe) (nodes (task_queue w0)) w2)
      as Hb3.
    rewrite Hcmd in Hb3 |- *. unfold bound in Hb2, Hb3. cbn [state_of] in Hb2, Hb3.
    destruct (commit_Ok w3) as (w4&Hc4&_); [|by exists w4].
    rewrite Hb3, Hb2. apply (commit_Ok_in_session _ _ Hc).
  - right. exists w2, t, u. split; [done|].
    split; [by rewrite Hq2|]. done.
Qed.

(** X19: the set-up of [run] can fail in two ways only (no interrupt being
    delivered while it runs).  Outside a session it raises the assertion error
    of its first line and changes nothing.  Inside a session either it passes,
    or it raises the [AssertionError] for a duplicate log directory, whose
    message names the two tasks, and then the directory computed for the
    first, a queued task, is the log directory of the second; in both
    failures [run] passes the error on, without terminating the execution. *)
Theorem run_setup_only_failure recipe tod tlod (w : World) :
  (in_session w = false →
     run_setup recipe tod tlod w
     = Raise (AssertionError "Execution must be part of a sqlalchemy session") w
     ∧ ∀ dry fuel,
         run recipe tod tlod dry fuel w
         = Raise (AssertionError "Execution must be part of a sqlalchemy session") w)
  ∧ (in_session w = true →
     (∃ w', run_setup recipe tod tlod w = Ok tt w')
     ∨ (∃ w' t u,
          run_setup recipe tod tlod w
          = Raise (AssertionError (duplicate_log_dir t u)) w'
          ∧ t ∈ nodes (task_queue w') ∧ u ≠ t
          ∧ log_dir (task w' u) = Some (tlod w' (task w' t))
          ∧ status (self w') = ExecutionStatus.running
          ∧ ∀ dry fuel, run recipe tod tlod dry fuel w
                        = Raise (AssertionError (duplicate_log_dir t u)) w')).
Proof.
  assert (∀ msg w', run_setup recipe tod tlod w = Raise (AssertionError msg) w' →
          ∀ dry fuel, run recipe tod tlod dry fuel w = Raise (AssertionError msg) w')
    as Hrun.
  { intros msg w' Hs dry fuel. unfold run, try_except_ExecutionFailed, run_body.
    by rewrite bind_eq, Hs. }
  split.
  { intros Hin. pose proof (run_setup_detached recipe tod tlod w Hin) as Hs.
    split; [done|]. by apply Hrun. }
  intros Hsess.
  pose proof (run_setup_post recipe tod tlod w Hsess) as (Hrunning&_). cbv zeta in Hrunning.
  destruct (run_setup_cases recipe tod tlod w Hsess) as [HOk|(w'&t&u&Hr&Ht&Hne&Hlog)];
    [by left|].
  right. exists w', t, u. rewrite Hr in Hrunning. split_and!; try done. by apply Hrun.
Qed.

Lemma run_setup_only_failure_witness :
  (run_setup (recipe_chain true true) _default_task_output_dir
             _default_task_log_output_dir world_detached
   = Raise (AssertionError "Execution must be part of a sqlalchemy session") world_detached
   ∧ ∀ dry fuel,
       run (recipe_chain true true) _default_task_output_dir
           _default_task_log_output_dir dry fuel world_detached
       = Raise (AssertionError "Execution must be part of a sqlalchemy session")
           world_detached)
  ∧ ((∃ w', run_setup (recipe_chain true true) _default_task_output_dir
                      _default_task_log_output_dir (world_started []) = Ok tt w')
     ∨ (∃ w' t u,
          run_setup (recipe_chain true true) _default_task_output_dir
                    _default_task_log_output_dir (world_started [])
          = Raise (AssertionError (duplicate_log_dir t u)) w'
          ∧ t ∈ nodes (task_queue w') ∧ u ≠ t
          ∧ log_dir (task w' u)
            = Some (_default_task_log_output_dir w' (task w' t))
          ∧ status (self w') = ExecutionStatus.running
          ∧ ∀ dry fuel, run (recipe_chain true true) _default_task_output_dir
                            _default_task_log_output_dir dry fuel (world_started [])
                        = Raise (AssertionError (duplicate_log_dir t u)) w')).
Proof.
  split.
  - apply (run_setup_only_failure (recipe_chain true true) _default_task_output_dir
             _default_task_log_output_dir world_detached).
    reflexivity.
  - apply (run_setup_only_failure (recipe_chain true true) _default_task_output_dir
             _default_task_log_output_dir (world_started [])).
    reflexivity.
Defined.

(** *** Tasks that are not queued *)

#[local] Instance swept_only_refl u cands : Reflexive (swept_only u cands).
Proof. intros w. split; [done|]. split; [done|]. intros x Hx. by left. Qed.

#[local] Instance swept_only_trans u cands : Transitive (swept_only u cands).
Proof.
  intros w1 w2 w3 (Ht1&Hq1&Hr1) (Ht2&Hq2&Hr2).
  split; [congruence|]. split; [congruence|].
  intros x Hx. destruct (Hr2 x Hx) as [Hx2|?]; [|by right]. by apply Hr1.
Qed.

#[local] Instance drained_only_refl u fin : Reflexive (drained_only u fin).
Proof. intros w. split; [done|]. split; [done|]. split; [by intros x ? _|done]. Qed.

#[local] Instance drained_only_trans u fin : Transitive (drained_only u fin).
Proof.
  intros w1 w2 w3 (Ht1&Hj1&Hk1&Hs1) (Ht2&Hj2&Hk2&Hs2).
  split; [congruence|]. split; [congruence|]. split.
  - intros x Hx Hnin. by apply Hk2; [apply Hk1|].
  - intros x Hx. by apply Hs1, Hs2.
Qed.

#[local] Instance untouched_refl u : Reflexive (untouched u).
Proof. intros w Hrq Hu. done. Qed.

#[local] Instance untouched_trans u : Transitive (untouched u).
Proof.
  intros w1 w2 w3 H12 H23 Hrq Hu.
  destruct (H12 Hrq Hu) as (Ht2&Hrq2&Hu2).
  destruct (H23 Hrq2 Hu2) as (Ht3&Hrq3&Hu3).
  split; [congruence|done].
Qed.

Lemma render_paths_other t w u :
  u ≠ t → task (state_of (render_paths t w)) u = task w u.
Proof.
  intros Hne. unfold render_paths. destruct (forallb _ _); [done|].
  destruct (task_output_dir _); [|done]. simpl. by rewrite task_upd_task_ne.
Qed.

Lemma sweep_swept u mx cands l :
  (∀ t, t ∈ l → t ∈ cands ∧ t ≠ u) →
  respects (swept_only u cands) (sweep mx l).
Proof.
  induction l as [|t l IH]; intros Hl; cbn [sweep]; [apply respects_ret; apply _|].
  destruct (Hl t) as [Ht Hne]; [by left|].
  apply respects_bind; [apply _| |].
  { intros w. unfold get_running_tasks. destruct (jobmanager w); reflexivity. }
  intros running. apply respects_get_bind. intros w.
  destruct (over_budget _ _ _); [reflexivity|].
  apply (respects_bind (swept_only u cands) (render_paths t)
           (λ _, submit t ;; sweep mx l)).
  { intros w0. split; [by apply render_paths_other|].
    pose proof (render_paths_task_frame t w0) as (_&Hjm&Hq&_).
    split; [done|]. intros x Hx. left. unfold running_of in *. by rewrite <- Hjm. }
  intros _. apply respects_bind; [apply _| |].
  { intros w0. unfold submit. destruct (jobmanager w0) as [jm|] eqn:Hjm; [|reflexivity].
    split; [|split].
    - rewrite set_task_status_task. by rewrite decide_False.
    - by rewrite set_task_status_state.
    - intros x. rewrite set_task_status_state. unfold running_of. simpl.
      rewrite Hjm. intros [Hx|Hx%list_elem_of_singleton]%elem_of_app; [by left|].
      right. by subst. }
  intros _. apply IH. intros t' Ht'. apply Hl. by right.
Qed.

Lemma set_profiles_other (done : list (nat * gmap string Z)) u :
  ∀ w, u ∉ done.*1 → task (set_profiles done w) u = task w u.
Proof.
  unfold set_profiles. induction done as [|[t p] done IH]; intros w Hu; simpl; [done|].
  apply not_elem_of_cons in Hu as [Hne Hu]. rewrite IH by done.
  by rewrite task_upd_task_ne.
Qed.

Lemma get_finished_tasks_other b w u :
  u ∉ running_of w → task (state_of (get_finished_tasks b w)) u = task w u.
Proof.
  intros Hu. unfold get_finished_tasks, running_of in *.
  destruct (jobmanager w) as [jm|]; [|done].
  destruct (drm w) as [|batch rest]; [by destruct b|].
  destruct (_ && _); [done|]. simpl. rewrite set_profiles_other; [done|].
  intros Hin. by apply Hu, (report_was_running batch).
Qed.

Lemma get_finished_tasks_stuck b w :
  match get_finished_tasks b w with
  | Ok _ _ => True
  | r => state_of r = w
  end.
Proof.
  unfold get_finished_tasks. destruct (jobmanager w); [|done].
  destruct (drm w); [by destruct b|]. by destruct (_ && _).
Qed.

Lemma process_finished_task_drained u fin t :
  t ∈ fin → t ≠ u →
  respects (drained_only u fin) (process_finished_task remove_from_queue t).
Proof.
  intros Ht Hne.
  assert (∀ v, respects (drained_only u fin) (set_task_status t v)) as Hset.
  { intros v w. split; [|by rewrite set_task_status_state].
    rewrite set_task_status_task. by rewrite decide_False. }
  assert (respects (drained_only u fin) (remove_from_queue t)) as Hrm.
  { intros w. unfold remove_from_queue, remove_node.
    destruct (decide _); [|reflexivity]. simpl.
    split; [done|]. split; [done|]. split.
    - intros x Hx Hnin. apply list_elem_of_filter. split; [|done]. by intros ->.
    - by intros x [_ ?]%list_elem_of_filter. }
  unfold process_finished_task. apply respects_get_bind. intros w.
  destruct (_ || _).
  - apply respects_bind; [apply _|apply Hset|]. intros _. apply Hrm.
  - apply respects_bind; [apply _| |intros _; apply Hset].
    destruct (negb _); [apply Hrm|apply respects_ret; apply _].
Qed.

Lemma for_each_process_drained u fin l :
  (∀ t, t ∈ l → t ∈ fin ∧ t ≠ u) →
  respects (drained_only u fin)
           (for_each l (process_finished_task remove_from_queue)).
Proof.
  induction l as [|t l IH]; intros Hl; cbn [for_each]; [apply respects_ret; apply _|].
  destruct (Hl t) as [Ht Hne]; [by left|].
  apply respects_bind; [apply _|by apply process_finished_task_drained|].
  intros _. apply IH. intros t' Ht'. apply Hl. by right.
Qed.

Lemma _run_ready_tasks_untouched u : respects (untouched u) _run_ready_tasks.
Proof.
  intros w Hrq Hu. unfold _run_ready_tasks. rewrite bind_eq. cbn [get].
  set (cands := sorted _ _).
  assert (∀ t, t ∈ cands → t ∈ nodes (task_queue w)) as Hcands.
  { intros t Ht. subst cands. rewrite sorted_Permutation in Ht.
    unfold ready_tasks in Ht. by apply list_elem_of_filter in Ht as [_ ?]. }
  destruct (sweep_swept u (max_cpus (self w)) cands cands) with (w := w)
    as (Htask&Hq&Hrun).
  { intros t Ht. split; [done|]. intros ->. by apply Hu, Hcands. }
  split; [done|]. rewrite Hq. split; [|done].
  intros x Hx. rewrite Hq. destruct (Hrun x Hx) as [?|?]; [by apply Hrq|by apply Hcands].
Qed.

Lemma iterate_process_untouched u b :
  respects (untouched u) (iterate (_process_finished_tasks b) remove_from_queue).
Proof.
  intros w Hrq Hu. unfold iterate, _process_finished_tasks. rewrite bind_eq.
  pose proof (get_finished_tasks_other b w u) as Hother.
  pose proof (get_finished_tasks_stuck b w) as Hstuck.
  destruct (get_finished_tasks b w) as [fin w1| | |] eqn:Hfin;
    cbn [state_of] in *.
  2-4: by subst.
  apply get_finished_tasks_Ok in Hfin as (Hfin&Hsub&Hq1&_).
  assert (u ∉ running_of w) as Hnrun by (intros ?; by apply Hu, Hrq).
  destruct (for_each_process_drained u fin fin) with (w := w1)
    as (Htask&Hjm&Hkeep&Hshrink).
  { intros t Ht. split; [done|]. intros ->. by destruct (Hfin u Ht). }
  split; [by rewrite Htask, Hother|]. split.
  - intros x Hx. unfold running_of in Hx. rewrite Hjm in Hx.
    apply Hkeep.
    + rewrite Hq1. by apply Hrq, Hsub.
    + intros Hxfin. by destruct (Hfin x Hxfin).
  - intros Hin. apply Hshrink in Hin. rewrite Hq1 in Hin. done.
Qed.

Lemma loop_body_untouched u : respects (untouched u) loop_body.
Proof.
  unfold loop_body. apply respects_bind; [apply _|apply _run_ready_tasks_untouched|].
  intros _. apply iterate_process_untouched.
Qed.

Lemma scheduler_loop_untouched u fuel : respects (untouched u) (scheduler_loop fuel).
Proof.
  induction fuel as [|fuel IH]; intros w; simpl.
  - destruct (bool_decide _); reflexivity.
  - destruct (bool_decide _); [|reflexivity].
    apply (respects_bind (untouched u) loop_body (λ _, scheduler_loop fuel));
      [apply loop_body_untouched|intros _; apply IH].
Qed.

#[local] Instance kept_refl u : Reflexive (kept u).
Proof. intros w Hdel. done. Qed.

#[local] Instance kept_trans u : Transitive (kept u).
Proof.
  intros w1 w2 w3 H12 H23 Hdel. destruct (H12 Hdel) as [Ht2 Hdel2].
  destruct (H23 Hdel2) as [Ht3 Hdel3]. split; [congruence|done].
Qed.

Lemma commit_kept u : respects (kept u) commit.
Proof.
  intros w Hdel. destruct (in_session w) eqn:Hsess.
  - destruct (commit_Ok w Hsess) as (w'&->&_&_&_&Hdel'&_&_&_&_&Htasks).
    cbn [state_of]. split; [|done]. unfold task. by rewrite Htasks.
  - unfold commit. by rewrite Hsess.
Qed.

Lemma set_status_kept u v : respects (kept u) (set_status v).
Proof.
  intros w Hdel. destruct (decide (status (self w) = v)) as [Heq|Hne].
  - by rewrite set_status_same.
  - destruct (in_session w) eqn:Hsess.
    + destruct (set_status_change v w Hsess Hne)
        as (w'&->&_&_&_&_&_&_&Hdel'&_&Htasks).
      cbn [state_of]. split; [|done]. unfold task. by rewrite Htasks.
    + destruct (set_status_detached v w Hsess Hne) as (w'&->&_&Hs&_).
      cbn [state_of]. unfold task. by rewrite Hs.
Qed.

Lemma terminate_kept u : respects (kept u) terminate.
Proof.
  unfold terminate. apply respects_get_bind. intros w.
  apply (respects_bind (kept u) _ (λ _, set_status ExecutionStatus.killed));
    [|intros _; apply set_status_kept].
  destruct (jobmanager w) as [jm|] eqn:Hjm; [|apply respects_ret; apply _].
  intros w0. unfold JobManager_terminate. destruct (jobmanager w0); [|reflexivity].
  intros Hdel. done.
Qed.

Lemma iterations_untouched u k : respects (untouched u) (iterations k).
Proof.
  induction k as [|k IH]; intros w; simpl; [reflexivity|].
  destruct (bool_decide _); [|reflexivity].
  apply (respects_bind (untouched u) loop_body (λ _, iterations k));
    [apply loop_body_untouched|intros _; apply IH].
Qed.

(** X20: a task that is not in the queue when the set-up of [run] has passed,
    such as a task that was successful in an earlier run, is never submitted
    and never changed: whatever the resource manager answers and in whatever
    way [run] ends, it is afterwards as the set-up left it. *)
Theorem run_leaves_unqueued_tasks recipe tod tlod dry fuel (w w_s : World) (u : nat) :
  run_setup recipe tod tlod w = Ok tt w_s →
  u ∉ nodes (task_queue w_s) →
  task (state_of (run recipe tod tlod dry fuel w)) u = task w_s u
  ∧ ∀ k w_k, iterations k w_s = Ok tt w_k →
      task w_k u = task w_s u ∧ u ∉ running_of w_k.
Proof.
  intros Hsetup Hu.
  destruct (run_setup_Ok_in_session _ _ _ _ _ Hsetup) as [Hsess Hsess_s].
  pose proof (run_setup_post recipe tod tlod w Hsess) as Hpost.
  rewrite Hsetup in Hpost. simpl in Hpost. destruct Hpost as (_&_&Hjm&_).
  pose proof (run_setup_deleted _ _ _ _ _ Hsetup) as Hdel.
  assert (running_queued w_s) as Hrq.
  { intros t. unfold running_of. rewrite Hjm. by intros ?%elem_of_nil. }
  split.
  - unfold run, try_except_ExecutionFailed, run_body. rewrite bind_eq, Hsetup.
    destruct dry; cbn [negb].
    { rewrite bind_eq. cbn [ret]. destruct (commit_kept u w_s Hdel) as [Ht _].
      destruct (commit_Ok w_s Hsess_s) as (w1&Hc&_). rewrite Hc in Ht |- *. exact Ht. }
    rewrite !bind_eq.
    destruct (scheduler_loop_untouched u fuel w_s Hrq Hu) as (Hloop&_).
    pose proof (scheduler_loop_respects fuel w_s) as (_&Hrest&_).
    pose proof (scheduler_loop_bound fuel w_s) as Hb_l.
    destruct (scheduler_loop fuel w_s) as [[] w_l|e w_l|w_l|w_l];
      cbn [state_of] in Hloop, Hrest, Hb_l.
    + assert (deleted_tasks (session w_l) = []) as Hdel_l.
      { unfold session_rest in Hrest. congruence. }
      assert (in_session w_l = true) as Hsess_l by (unfold bound in Hb_l; congruence).
      destruct (set_status_kept u ExecutionStatus.successful w_l Hdel_l) as [Ht2 Hdel2].
      destruct (set_status_outcome ExecutionStatus.successful w_l Hsess_l) as (w2&Hs&_).
      pose proof (Ok_bound _ _ _ _ (set_status_bound _) Hs) as Hb2.
      rewrite Hs in Ht2, Hdel2 |- *. cbn [state_of] in Ht2, Hdel2.
      destruct (commit_kept u w2 Hdel2) as [Ht3 _].
      destruct (commit_Ok w2) as (w3&Hc&_); [congruence|]. rewrite Hc in Ht3 |- *.
      cbn [state_of] in *. congruence.
    + assert (deleted_tasks (session w_l) = []) as Hdel_l.
      { unfold session_rest in Hrest. congruence. }
      destruct e; try done.
      destruct (terminate_kept u w_l Hdel_l) as [Ht2 _].
      destruct (terminate w_l); cbn [state_of] in *; congruence.
    + done.
    + done.
  - intros k w_k Hk.
    destruct (iterations_untouched u k w_s Hrq Hu) as (Ht&Hrq_k&Hu_k).
    rewrite Hk in Ht, Hrq_k, Hu_k. cbn [state_of] in *.
    split; [done|]. intros Hin. by apply Hu_k, Hrq_k.
Qed.

Lemma run_leaves_unqueued_tasks_witness :
  task (state_of (run recipe_resumed _default_task_output_dir
                      _default_task_log_output_dir false 5 world_resumed)) 1
  = task world_resumed_set_up 1.
Proof.
  destruct (run_leaves_unqueued_tasks recipe_resumed
              _default_task_output_dir _default_task_log_output_dir false 5
              world_resumed world_resumed_set_up 1%nat) as [Hrun _].
  - vm_compute. reflexivity.
  - apply (bool_decide_unpack (1%nat ∉ nodes (task_queue world_resumed_set_up))).
    vm_compute. exact I.
  - exact Hrun.
Defined.

(** *** The tasks of a batch *)

Lemma report_NoDup batch : ∀ running, NoDup (report batch running).1.*1.
Proof.
  induction batch as [|[u p] batch IH]; intros running; simpl; [constructor|].
  destruct (decide (u ∈ running)); simpl; [|apply IH].
  apply NoDup_cons. split; [|apply IH].
  intros Hin%report_was_running. apply list_elem_of_filter in Hin as [? _]. done.
Qed.

Lemma get_finished_tasks_NoDup b w fin w1 :
  get_finished_tasks b w = Ok fin w1 → NoDup fin.
Proof.
  unfold get_finished_tasks. destruct (jobmanager w); [|done].
  destruct (drm w) as [|batch rest].
  { destruct b; [done|]. intros [= <- _]. constructor. }
  destruct (_ && _); [done|]. intros [= <- _]. apply report_NoDup.
Qed.

Lemma hard_failure_false w t :
  hard_failure w t = false →
  finished_ok w t = true ∨ (finished_ok w t = false ∧ must_succeed (task w t) = false).
Proof.
  unfold hard_failure. destruct (finished_ok w t), (must_succeed (task w t)); simpl;
    intros H; try done; eauto.
Qed.

(** A finished task at which the setter does not raise: it gets its status
    and leaves the queue. *)
Lemma process_finished_task_step t w :
  t ∈ nodes (task_queue w) →
  hard_failure w t = false →
  ∃ w', process_finished_task remove_from_queue t w = Ok tt w'
        ∧ task_status (task w' t) = verdict w t
        ∧ (∀ u, u ≠ t → task w' u = task w u)
        ∧ task_queue w' = drop_node t (task_queue w)
        ∧ self w' = self w
        ∧ (∀ u, finished_ok w' u = finished_ok w u)
        ∧ (∀ u, must_succeed (task w' u) = must_succeed (task w u)).
Proof.
  intros Hin Hhard.
  assert (∃ w', process_finished_task remove_from_queue t w = Ok tt w') as [w' HOk].
  { destruct (hard_failure_false w t Hhard) as [Hok|[Hok Hmust]].
    - unfold process_finished_task. rewrite bind_eq. cbn [get].
      unfold finished_ok in Hok. rewrite Hok, bind_eq.
      destruct (set_task_status_Ok t TaskStatus.successful w) as [w1 Hw1]; [by left|].
      pose proof (set_task_status_state t TaskStatus.successful w) as Hstate.
      rewrite Hw1 in Hstate |- *. cbn [state_of] in Hstate.
      rewrite remove_from_queue_Ok; [eauto|]. by rewrite Hstate.
    - destruct (soft_failure_step t w Hin Hmust Hok) as (w'&H&_). eauto. }
  exists w'. split; [done|].
  destruct (process_finished_task_Ok _ _ _ HOk) as (Hst&Hprof&Hnoop&Hother).
  destruct (process_finished_task_Ok_queue _ _ _ HOk) as (_&Hq&_&Hmust&_).
  pose proof (process_finished_task_respects remove_from_queue t
                remove_from_queue_respects w) as (Hself&_).
  rewrite HOk in Hself. cbn [state_of] in Hself.
  split_and!; try done.
  intros u. unfold finished_ok. destruct (decide (u = t)) as [->|Hne].
  - by rewrite Hprof, Hnoop.
  - by rewrite Hother.
Qed.

(** A finished task at which the setter raises: it is [failed], it stays in
    the queue, and nothing else has changed. *)
Lemma process_finished_task_raises yield t w :
  hard_failure w t = true →
  ∃ w', process_finished_task yield t w = Raise ExecutionFailed w'
        ∧ task_status (task w' t) = TaskStatus.failed
        ∧ (∀ u, u ≠ t → task w' u = task w u)
        ∧ task_queue w' = task_queue w
        ∧ self w' = self w
        ∧ jobmanager w' = jobmanager w
        ∧ (∀ u, finished_ok w' u = finished_ok w u).
Proof.
  intros [Hmust Hok%negb_true_iff]%andb_true_iff.
  unfold process_finished_task. rewrite bind_eq. cbn [get].
  pose proof Hok as Hok'. unfold finished_ok in Hok'. rewrite Hok', Hmust, bind_eq. simpl.
  unfold set_task_status. rewrite Hmust. simpl.
  eexists. split; [reflexivity|].
  split; [by rewrite task_upd_task_eq|].
  split; [by intros u Hne; rewrite task_upd_task_ne|].
  split; [done|]. split; [done|]. split; [done|].
  intros u. unfold finished_ok. destruct (decide (t = u)) as [<-|Hne].
  - by rewrite task_upd_task_eq.
  - by rewrite task_upd_task_ne.
Qed.

(** A batch with no such task is processed to its end. *)
Lemma for_each_process_clean fin :
  ∀ w,
    NoDup fin →
    (∀ t, t ∈ fin → t ∈ nodes (task_queue w)) →
    (∀ t, t ∈ fin → hard_failure w t = false) →
    ∃ w', for_each fin (process_finished_task remove_from_queue) w = Ok tt w'
          ∧ (∀ t, t ∈ fin → task_status (task w' t) = verdict w t)
          ∧ (∀ u, u ∉ fin → task w' u = task w u)
          ∧ (∀ u, u ∈ nodes (task_queue w') ↔ u ∈ nodes (task_queue w) ∧ u ∉ fin)
          ∧ self w' = self w
          ∧ (∀ u, finished_ok w' u = finished_ok w u)
          ∧ (∀ u, must_succeed (task w' u) = must_succeed (task w u)).
Proof.
  induction fin as [|t fin IH]; intros w Hnd Hq Hclean.
  { exists w. split; [done|]. split; [by intros ? ?%elem_of_nil|]. split; [done|].
    split; [|done]. intros u. split; [|by intros [? _]].
    intros ?. split; [done|apply not_elem_of_nil]. }
  apply NoDup_cons in Hnd as [Hnin Hnd].
  destruct (process_finished_task_step t w) as (w1&Ht&Hst&Hother&Hq1&Hself1&Hok1&Hmust1).
  { apply Hq. by left. }
  { apply Hclean. by left. }
  destruct (IH w1 Hnd) as (w'&Hrest&IHst&IHother&IHq&IHself&IHok&IHmust).
  { intros u Hu. rewrite Hq1. simpl. apply list_elem_of_filter.
    split; [by intros ->|]. apply Hq. by right. }
  { intros u Hu. unfold hard_failure. rewrite Hmust1, Hok1. apply Hclean. by right. }
  exists w'. split.
  { simpl. by rewrite bind_eq, Ht. }
  split; [|split; [|split; [|split; [|split]]]].
  - intros u [->|Hu]%elem_of_cons.
    + by rewrite IHother.
    + rewrite IHst by done. unfold verdict. by rewrite Hok1.
  - intros u [Hne Hu]%not_elem_of_cons. rewrite IHother by done. by apply Hother.
  - intros u. rewrite IHq, Hq1. simpl. rewrite list_elem_of_filter, not_elem_of_cons.
    tauto.
  - congruence.
  - intros u. by rewrite IHok.
  - intros u. by rewrite IHmust.
Qed.

(** A batch is processed up to the first task at which the setter raises;
    the tasks after it are not processed. *)
Lemma for_each_process_abort pre t post w :
  NoDup (pre ++ t :: post) →
  (∀ u, u ∈ pre ++ t :: post → u ∈ nodes (task_queue w)) →
  (∀ p, p ∈ pre → hard_failure w p = false) →
  hard_failure w t = true →
  ∃ w', for_each (pre ++ t :: post) (process_finished_task remove_from_queue) w
        = Raise ExecutionFailed w'
        ∧ (∀ p, p ∈ pre → task_status (task w' p) = verdict w p)
        ∧ task_status (task w' t) = TaskStatus.failed
        ∧ (∀ u, u ∉ pre → u ≠ t → task w' u = task w u)
        ∧ (∀ u, u ∈ nodes (task_queue w') ↔ u ∈ nodes (task_queue w) ∧ u ∉ pre)
        ∧ self w' = self w
        ∧ (∀ u, finished_ok w' u = finished_ok w u).
Proof.
  intros Hnd Hq Hclean Hhard.
  apply NoDup_app in Hnd as (Hnd_pre&Hdisj&Hnd_post).
  assert (t ∉ pre) as Hnin.
  { intros Hin. apply (Hdisj t Hin). by left. }
  destruct (for_each_process_clean pre w Hnd_pre)
    as (w_p&Hpre&Hst&Hother&Hq_p&Hself&Hok&Hmust).
  { intros u Hu. apply Hq, elem_of_app. by left. }
  { done. }
  destruct (process_finished_task_raises remove_from_queue t w_p)
    as (w'&Hstep&Hfailed&Hother'&Hq'&Hself'&_&Hok').
  { unfold hard_failure. by rewrite Hmust, Hok. }
  exists w'. split.
  { rewrite for_each_app, bind_eq, Hpre. simpl. by rewrite bind_eq, Hstep. }
  split_and!.
  - intros p Hp. rewrite Hother' by (by intros ->). by apply Hst.
  - done.
  - intros u Hu Hne. rewrite Hother' by done. by apply Hother.
  - intros u. by rewrite Hq', Hq_p.
  - congruence.
  - intros u. by rewrite Hok'.
Qed.

(** The first task of a list with a property. *)
Lemma first_such (P : nat → bool) (l : list nat) p :
  p ∈ l → P p = true →
  ∃ l1 q l2, l = l1 ++ q :: l2 ∧ (∀ x, x ∈ l1 → P x = false) ∧ P q = true.
Proof.
  induction l as [|x l IH]; intros Hin HP; [by apply elem_of_nil in Hin|].
  destruct (P x) eqn:Hx.
  { exists [], x, l. split; [done|]. split; [by intros ? ?%elem_of_nil|done]. }
  apply elem_of_cons in Hin as [->|Hin]; [congruence|].
  destruct (IH Hin HP) as (l1&q&l2&->&Hl1&Hq).
  exists (x :: l1), q, l2. split; [done|]. split; [|done].
  intros y [->|Hy]%elem_of_cons; [done|by apply Hl1].
Qed.

Lemma iterations_loop_inv queue0 k :
  ∀ w w', iterations k w = Ok tt w' → loop_inv queue0 w → loop_inv queue0 w'.
Proof.
  induction k as [|k IH]; intros w w' Hk Hinv; simpl in Hk.
  { by injection Hk as <-. }
  destruct (bool_decide _); [|by injection Hk as <-].
  apply bind_Ok_inv in Hk as ([]&w1&Hbody&Hk).
  apply (IH w1 w' Hk). by eapply loop_body_loop_inv.
Qed.

Lemma status_by_exit_verdict w1 w' t :
  task_status (task w' t) = verdict w1 t → status_by_exit w1 w' t.
Proof.
  intros H. unfold status_by_exit. rewrite H.
  split; [apply verdict_successful|apply verdict_failed].
Qed.

Lemma iterate_process_eq b w fin w1 :
  get_finished_tasks b w = Ok fin w1 →
  iterate (_process_finished_tasks b) remove_from_queue w
  = for_each fin (process_finished_task remove_from_queue) w1.
Proof.
  intros Hfin. unfold iterate, _process_finished_tasks. by rewrite bind_eq, Hfin.
Qed.

(** C7 (amended): the tasks returned by [get_finished_tasks] are processed in
    the order of the batch, the tasks in flight being queued and [submitted].
    If the setter raises at none of them (no task of the batch must succeed
    and has failed) the batch is processed to its end, and each of its tasks
    is [successful] exactly when it is a NOOP or its profile has [exit_status]
    0, and [failed] exactly when it is not a NOOP and its [exit_status] is
    missing or not 0.  Otherwise the loop ends with [ExecutionFailed] at the
    first task [t] that must succeed and has failed: the tasks up to [t], [t]
    included, have the status their exit status asks for, and the tasks
    returned after [t] get no status: they are left as they were,
    [submitted].  No task outside the batch is touched. *)
Theorem C7_finished_task_status (b : bool) (w w1 : World) (fin : list nat) :
  get_finished_tasks b w = Ok fin w1 →
  (∀ t, t ∈ running_of w →
     t ∈ nodes (task_queue w) ∧ task_status (task w t) = TaskStatus.submitted) →
  let r := iterate (_process_finished_tasks b) remove_from_queue w in
  ((∀ t, t ∈ fin → hard_failure w1 t = false) →
     r = Ok tt (state_of r)
     ∧ ∀ t, t ∈ fin → status_by_exit w1 (state_of r) t)
  ∧ (∀ pre t post,
       fin = pre ++ t :: post →
       (∀ p, p ∈ pre → hard_failure w1 p = false) →
       hard_failure w1 t = true →
       r = Raise ExecutionFailed (state_of r)
       ∧ (∀ p, p ∈ pre ++ [t] → status_by_exit w1 (state_of r) p)
       ∧ (∀ u, u ∈ post →
            task (state_of r) u = task w1 u
            ∧ task_status (task (state_of r) u) = TaskStatus.submitted))
  ∧ (∀ u, u ∉ fin → task (state_of r) u = task w1 u).
Proof.
  intros Hfin Hrun r. subst r. rewrite (iterate_process_eq _ _ _ _ Hfin).
  pose proof (get_finished_tasks_NoDup _ _ _ _ Hfin) as Hnd.
  destruct (get_finished_tasks_Ok _ _ _ _ Hfin) as (Hwas&_&Hq&_&Hst).
  assert (∀ t, t ∈ fin → t ∈ nodes (task_queue w1)
                         ∧ task_status (task w1 t) = TaskStatus.submitted) as Hfin_q.
  { intros t Ht. destruct (Hwas t Ht) as [Hr _]. destruct (Hrun t Hr) as [? ?].
    rewrite Hq, Hst. done. }
  assert (∀ pre t post,
            fin = pre ++ t :: post →
            (∀ p, p ∈ pre → hard_failure w1 p = false) →
            hard_failure w1 t = true →
            ∃ w', for_each fin (process_finished_task remove_from_queue) w1
                  = Raise ExecutionFailed w'
                  ∧ (∀ p, p ∈ pre ++ [t] → status_by_exit w1 w' p)
                  ∧ (∀ u, u ∈ post →
                       task w' u = task w1 u
                       ∧ task_status (task w' u) = TaskStatus.submitted)
                  ∧ (∀ u, u ∉ fin → task w' u = task w1 u)) as Habort.
  { intros pre t post -> Hclean Hhard.
    destruct (for_each_process_abort pre t post w1 Hnd)
      as (w'&Hr&Hpre&Hfailed&Hother&_); [by intros u Hu; apply Hfin_q|done..|].
    exists w'. split; [done|].
    apply NoDup_app in Hnd as (_&Hdisj&[Hnin _]%NoDup_cons).
    split; [|split].
    - intros p [Hp|Hp%list_elem_of_singleton]%elem_of_app;
        apply status_by_exit_verdict.
      + by apply Hpre.
      + subst p. rewrite Hfailed. unfold verdict.
        apply andb_true_iff in Hhard as [_ Hok%negb_true_iff]. by rewrite Hok.
    - intros u Hu.
      assert (task w' u = task w1 u) as Heq.
      { apply Hother; [|by intros ->].
        intros Hin. apply (Hdisj u Hin). by right. }
      split; [done|]. rewrite Heq. apply Hfin_q, elem_of_app. right. by right.
    - intros u Hu. apply Hother.
      + intros Hin. apply Hu, elem_of_app. by left.
      + intros ->. apply Hu, elem_of_app. right. by left. }
  split; [|split].
  - intros Hclean.
    destruct (for_each_process_clean fin w1 Hnd) as (w'&Hr&Hstat&_);
      [by intros u Hu; apply Hfin_q|done|].
    rewrite Hr. split; [done|]. intros t Ht.
    apply status_by_exit_verdict. by apply Hstat.
  - intros pre t post Heq Hclean Hhard.
    destruct (Habort pre t post Heq Hclean Hhard) as (w'&Hr&Hpre&Hpost&_).
    rewrite Hr. done.
  - intros u Hu.
    destruct (Forall_Exists_dec (λ t, hard_failure w1 t = false)
                (λ t, hard_failure w1 t = true)
                (λ t, match hard_failure w1 t as h
                        return {h = false} + {h = true} with
                      | true => right eq_refl
                      | false => left eq_refl
                      end) fin) as [Hall|Hex].
    + destruct (for_each_process_clean fin w1 Hnd) as (w'&Hr&_&Hother&_);
        [by intros t Ht; apply Hfin_q
        |by intros t Ht; apply (proj1 (Forall_forall _ _) Hall)|].
      rewrite Hr. by apply Hother.
    + apply Exists_exists in Hex as (p&Hp&Hhard).
      destruct (first_such (hard_failure w1) fin p Hp Hhard) as (pre&t&post&Heq&Hpre&Ht).
      destruct (Habort pre t post Heq Hpre Ht) as (w'&Hr&_&_&Hother).
      rewrite Hr. by apply Hother.
Qed.

Lemma C7_finished_task_status_witness :
  iterate (_process_finished_tasks true) remove_from_queue world_three_running
  = Raise ExecutionFailed
      (state_of (iterate (_process_finished_tasks true) remove_from_queue
                   world_three_running))
  ∧ task_status
      (task (state_of (iterate (_process_finished_tasks true) remove_from_queue
                         world_three_running)) 3%nat)
    = TaskStatus.submitted.
Proof.
  destruct (C7_finished_task_status true world_three_running
              (state_of (get_finished_tasks true world_three_running))
              [1; 2; 3]%nat) as (_&Habort&_).
  - vm_compute. reflexivity.
  - intros t Ht.
    apply (proj1 (Forall_forall
                    (λ t, t ∈ nodes (task_queue world_three_running)
                          ∧ task_status (task world_three_running t)
                            = TaskStatus.submitted)
                    (running_of world_three_running))); [|exact Ht].
    apply (bool_decide_unpack _). vm_compute. exact I.
  - destruct (Habort [1%nat] 2%nat [3%nat]) as (Hr&_&Hpost).
    + reflexivity.
    + intros p Hp. apply list_elem_of_singleton in Hp. subst p. vm_compute. reflexivity.
    + vm_compute. reflexivity.
    + split; [exact Hr|]. apply (Hpost 3%nat). apply list_elem_of_singleton. reflexivity.
Defined.

(** C7 (counterexample): three tasks are in flight and the resource manager
    reports them in one batch; task 2 must succeed and exits with status 3,
    task 3 exits with status 0.  [run] ends with [ExecutionFailed] at task 2,
    and task 3, returned by [get_finished_tasks] with exit status 0, is not
    [successful]: it is still [submitted] and queued. *)
Lemma C7_counterexample :
  run_three = Raise ExecutionFailed (state_of run_three)
  ∧ get_finished_tasks true world_three_running
    = Ok [1; 2; 3]%nat (state_of (get_finished_tasks true world_three_running))
  ∧ NOOP (task (state_of run_three) 3%nat) = false
  ∧ profile (task (state_of run_three) 3%nat) !! "exit_status" = Some 0
  ∧ task_status (task (state_of run_three) 3%nat) = TaskStatus.submitted
  ∧ 3%nat ∈ nodes (task_queue (state_of run_three))
  ∧ task_status (task (state_of run_three) 3%nat) ≠ TaskStatus.successful.
Proof.
  split_and!; [vm_compute; reflexivity..| |].
  - apply (bool_decide_unpack _). vm_compute. exact I.
  - vm_compute. intros H. discriminate H.
Qed.

(** *** A soft failure and the outcome of [run] *)

Lemma sweep_Ok_queue mx cands :
  ∀ w w', sweep mx cands w = Ok tt w' → task_queue w' = task_queue w.
Proof.
  induction cands as [|t cands IH]; intros w w' HOk.
  { by injection HOk as <-. }
  destruct (jobmanager w) as [jm|] eqn:Hjm; cycle 1.
  { simpl in HOk. rewrite bind_eq in HOk. unfold get_running_tasks in HOk.
    by rewrite Hjm in HOk. }
  rewrite (sweep_cons _ _ _ _ jm) in HOk by done.
  destruct (over_budget _ _ _); [by injection HOk as <-|].
  apply bind_Ok_inv in HOk as ([]&w1&Hrender&HOk).
  apply bind_Ok_inv in HOk as ([]&w2&Hsubmit&HOk).
  pose proof (render_paths_task_frame t w) as (_&Hjm1&Hq1&_).
  rewrite Hrender in Hjm1, Hq1. simpl in *. rewrite Hjm in Hjm1.
  destruct (submit_Ok t w1 jm Hjm1) as (w2'&Hsub'&_&Hq2&_).
  rewrite Hsubmit in Hsub'. injection Hsub' as <-.
  rewrite (IH w2 w' HOk). congruence.
Qed.

(** A task that has left the queue has the status its exit status asked
    for. *)
Lemma loop_body_verdict queue0 w w' :
  loop_body w = Ok tt w' →
  loop_inv queue0 w →
  (∀ t, t ∈ queue0 → t ∉ nodes (task_queue w) →
     task_status (task w t) = verdict w t) →
  ∀ t, t ∈ queue0 → t ∉ nodes (task_queue w') →
    task_status (task w' t) = verdict w' t.
Proof.
  intros Hbody [Ha _] Hv t Ht Hnin'.
  destruct (decide (t ∈ nodes (task_queue w))) as [Hin|Hnin].
  - unfold loop_body in Hbody. apply bind_Ok_inv in Hbody as ([]&wa&Hready&Hdrain).
    unfold iterate, _process_finished_tasks in Hdrain.
    apply bind_Ok_inv in Hdrain as (fin&w1&Hfin&Hrest).
    pose proof (for_each_process_Ok fin w1 w' Hrest) as (Hst&Hok&_).
    assert (t ∈ fin) as Hfin_t.
    { destruct (decide (t ∈ fin)) as [|Hn]; [done|]. exfalso. apply Hnin'.
      pose proof (for_each_process_drained t fin fin) as Hd.
      destruct (Hd (λ x Hx, conj Hx (λ Heq, Hn (eq_ind x (λ y, y ∈ fin) Hx t Heq))) w1)
        as (_&_&Hkeep&_).
      rewrite Hrest in Hkeep. cbn [state_of] in Hkeep. apply Hkeep; [|done].
      apply get_finished_tasks_Ok in Hfin as (_&_&->&_).
      unfold _run_ready_tasks in Hready. rewrite bind_eq in Hready. cbn [get] in Hready.
      by rewrite (sweep_Ok_queue _ _ _ _ Hready). }
    rewrite (Hst t Hfin_t). unfold verdict. by rewrite Hok.
  - assert (running_queued w) as Hrq by (intros u Hu; by destruct (Ha u Hu)).
    destruct (loop_body_untouched t w Hrq Hnin) as (Heq&_).
    rewrite Hbody in Heq. cbn [state_of] in Heq.
    unfold verdict, finished_ok. rewrite Heq. by apply Hv.
Qed.

Lemma scheduler_loop_verdict queue0 fuel :
  ∀ w w',
    scheduler_loop fuel w = Ok tt w' →
    loop_inv queue0 w →
    (∀ t, t ∈ queue0 → t ∉ nodes (task_queue w) →
       task_status (task w t) = verdict w t) →
    ∀ t, t ∈ queue0 → t ∉ nodes (task_queue w') →
      task_status (task w' t) = verdict w' t.
Proof.
  induction fuel as [|fuel IH]; intros w w'; simpl;
    destruct (bool_decide_reflect (0 < length (nodes (task_queue w)))%nat) as [Hpos|Hzero];
    try done.
  - by intros [= <-] Hinv Hv.
  - intros HOk Hinv Hv. apply bind_Ok_inv in HOk as ([]&w1&Hbody&Hloop).
    apply (IH w1 w' Hloop); [by eapply loop_body_loop_inv|].
    by eapply loop_body_verdict.
  - by intros [= <-] Hinv Hv.
Qed.

(** C1 (amended): every [run] that returns has drained the queue; each task
    it queued is then [successful], or [failed] without having to succeed,
    and has the status its exit status asks for, so that a task that need not
    succeed and finished with a non-zero exit status is [failed] and out of
    the queue; and the terminal status of the execution is [successful], with
    the flag up, not [failed].  In a batch returned by [get_finished_tasks],
    the tasks in flight being queued, a task [t] that need not succeed and
    has failed is marked [failed] and removed, the execution is left as it
    is, and the loop goes on with the tasks after [t], when no task before
    [t] in the batch must succeed and has failed; when one has, the loop ends
    with [ExecutionFailed] before [t] is reached, and [t] stays queued as it
    was. *)
Theorem C1_soft_failure_run_successful recipe tod tlod fuel (w : World) :
  (∀ w', run recipe tod tlod false fuel w = Ok tt w' →
     status (self w') = ExecutionStatus.successful
     ∧ successful (self w') = true
     ∧ nodes (task_queue w') = []
     ∧ ∃ w_s, run_setup recipe tod tlod w = Ok tt w_s
              ∧ ∀ t, t ∈ nodes (task_queue w_s) →
                  settled w' t ∧ task_status (task w' t) = verdict w' t)
  ∧ (∀ b w0 w1 pre t post,
       running_queued w0 →
       get_finished_tasks b w0 = Ok (pre ++ t :: post) w1 →
       must_succeed (task w1 t) = false →
       finished_ok w1 t = false →
       ((∀ p, p ∈ pre → hard_failure w1 p = false) →
          ∃ w_t,
            for_each (pre ++ [t]) (process_finished_task remove_from_queue) w1
            = Ok tt w_t
            ∧ task_status (task w_t t) = TaskStatus.failed
            ∧ (t ∉ nodes (task_queue w_t))
            ∧ self w_t = self w1
            ∧ iterate (_process_finished_tasks b) remove_from_queue w0
              = for_each post (process_finished_task remove_from_queue) w_t)
       ∧ (∀ p, p ∈ pre → hard_failure w1 p = true →
            ∃ w_f,
              iterate (_process_finished_tasks b) remove_from_queue w0
              = Raise ExecutionFailed w_f
              ∧ task w_f t = task w1 t
              ∧ t ∈ nodes (task_queue w_f))).
Proof.
  split.
  - intros w' Hrun. apply try_except_Ok_inv in Hrun. unfold run_body in Hrun.
    apply bind_Ok_inv in Hrun as ([]&w_s&Hsetup&Hrun).
    apply bind_Ok_inv in Hrun as ([]&w2&Hloop&Hcommit). simpl in Hloop.
    apply bind_Ok_inv in Hloop as ([]&w_l&Hloop&Hstatus).
    destruct (run_setup_Ok_in_session _ _ _ _ _ Hsetup) as [Hin Hin_s].
    pose proof (Ok_bound _ _ _ _ (scheduler_loop_bound fuel) Hloop) as Hin_l.
    rewrite Hin_s in Hin_l.
    pose proof (run_setup_post recipe tod tlod w Hin) as Hpost.
    rewrite Hsetup in Hpost. simpl in Hpost. destruct Hpost as (Hrunning&_&Hjm&_).
    pose proof (run_setup_deleted _ _ _ _ _ Hsetup) as Hdel.
    assert (loop_inv (nodes (task_queue w_s)) w_s) as Hinv.
    { split; [|by intros t ? ?]. intros t Ht. unfold running_of in Ht.
      rewrite Hjm in Ht. by apply elem_of_nil in Ht. }
    destruct (scheduler_loop_Ok (nodes (task_queue w_s)) fuel w_s w_l Hloop Hinv)
      as [[_ Hsettled] Hempty].
    pose proof (scheduler_loop_verdict (nodes (task_queue w_s)) fuel w_s w_l Hloop Hinv)
      as Hverdict.
    pose proof (scheduler_loop_respects fuel w_s) as Hframe.
    rewrite Hloop in Hframe. simpl in Hframe.
    pose proof (sched_frame_deleted _ _ Hframe) as Hdel_l. rewrite Hdel in Hdel_l.
    destruct Hframe as (Hself&_).
    destruct (set_status_change ExecutionStatus.successful w_l Hin_l)
      as (w2'&Hst&Hstat2&Hq2&_&_&Hsucc2&_&Hdel2&_&Htasks2).
    { rewrite Hself, Hrunning. done. }
    rewrite Hstatus in Hst. injection Hst as <-.
    destruct (commit_Ok w2) as (w''&Hc&Hq&_&_&_&Hstat&Hsucc&_&_&Htasks).
    { by apply commit_Ok_in_session in Hcommit as [? _]. }
    rewrite Hcommit in Hc. injection Hc as <-.
    split; [by rewrite Hstat|]. split; [by rewrite Hsucc, Hsucc2|].
    split; [by rewrite Hq, Hq2|].
    exists w_s. split; [done|]. intros t Ht.
    assert (task w' t = task w_l t) as Heq.
    { unfold task. by rewrite Htasks, Htasks2. }
    assert (t ∉ nodes (task_queue w_l)) as Hout.
    { rewrite Hempty. apply not_elem_of_nil. }
    split.
    + apply (settled_frame w_l); [done|]. by apply Hsettled.
    + unfold verdict, finished_ok. rewrite Heq. apply Hverdict; [|done..].
      by intros u Hu Hnin.
  - intros b w0 w1 pre t post Hrq Hfin Hmust Hok.
    pose proof (get_finished_tasks_NoDup _ _ _ _ Hfin) as Hnd.
    destruct (get_finished_tasks_Ok _ _ _ _ Hfin) as (Hwas&_&Hq&_).
    assert (∀ u, u ∈ pre ++ t :: post → u ∈ nodes (task_queue w1)) as Hfin_q.
    { intros u Hu. destruct (Hwas u Hu) as [Hr _]. rewrite Hq. by apply Hrq. }
    rewrite (iterate_process_eq _ _ _ _ Hfin).
    split.
    + intros Hclean.
      destruct (for_each_process_clean (pre ++ [t]) w1)
        as (w_t&Hr&Hstat&_&Hq_t&Hself&_).
      { rewrite cons_middle, app_assoc in Hnd. by apply NoDup_app in Hnd as (?&_). }
      { intros u Hu. apply Hfin_q. rewrite cons_middle, app_assoc.
        apply elem_of_app. by left. }
      { intros u [Hu|Hu%list_elem_of_singleton]%elem_of_app; [by apply Hclean|].
        subst u. unfold hard_failure. by rewrite Hmust. }
      exists w_t. split; [done|].
      assert (t ∈ pre ++ [t]) as Ht by (apply elem_of_app; right; by left).
      split; [|split; [|split; [done|]]].
      * rewrite (Hstat t Ht). unfold verdict. by rewrite Hok.
      * rewrite Hq_t. by intros [_ ?].
      * rewrite cons_middle, app_assoc, for_each_app, bind_eq, Hr. done.
    + intros p Hp Hhard.
      destruct (first_such (hard_failure w1) pre p Hp Hhard) as (l1&q&l2&->&Hl1&Hq_hard).
      rewrite <- app_assoc in Hnd, Hfin_q |- *. simpl in Hnd, Hfin_q |- *.
      destruct (for_each_process_abort l1 q (l2 ++ t :: post) w1 Hnd Hfin_q Hl1 Hq_hard)
        as (w_f&Hr&_&_&Hother&Hq_f&_).
      exists w_f. split; [done|].
      apply NoDup_app in Hnd as (_&Hdisj&[Hnin _]%NoDup_cons).
      assert (t ∉ l1) as Ht1.
      { intros Hin. apply (Hdisj t Hin). right. apply elem_of_app. right. by left. }
      split.
      * apply Hother; [done|]. intros ->. apply Hnin, elem_of_app. right. by left.
      * rewrite Hq_f. split; [|done]. apply Hfin_q, elem_of_app. right. right.
        apply elem_of_app. right. by left.
Qed.

Lemma C1_soft_failure_run_successful_witness :
  (status (self (state_of run_soft_failure)) = ExecutionStatus.successful
   ∧ successful (self (state_of run_soft_failure)) = true)
  ∧ ∃ w_t,
      for_each [1%nat] (process_finished_task remove_from_queue)
               (state_of (get_finished_tasks true world_three_running))
      = Ok tt w_t
      ∧ task_status (task w_t 1%nat) = TaskStatus.failed.
Proof.
  destruct (C1_soft_failure_run_successful
              (recipe_chain false true) _default_task_output_dir
              _default_task_log_output_dir 5
              (world_started [[(1%nat, exit_status 1)]; [(2%nat, exit_status 0)]]))
    as [Hrun Hbatch].
  split.
  - destruct (Hrun (state_of run_soft_failure)) as (Hst&Hsucc&_).
    + vm_compute. reflexivity.
    + split; [exact Hst|exact Hsucc].
  - destruct (Hbatch true world_three_running
                (state_of (get_finished_tasks true world_three_running))
                [] 1%nat [2; 3]%nat) as [Hsoft _].
    + intros t Ht.
      apply (proj1 (Forall_forall
                      (λ t, t ∈ nodes (task_queue world_three_running))
                      (running_of world_three_running))); [|exact Ht].
      apply (bool_decide_unpack _). vm_compute. exact I.
    + vm_compute. reflexivity.
    + vm_compute. reflexivity.
    + vm_compute. reflexivity.
    + destruct Hsoft as (w_t&Hr&Hfailed&_).
      * intros p Hp. by apply elem_of_nil in Hp.
      * exists w_t. split; [exact Hr|exact Hfailed].
Defined.

(** *** A failure of a task that must succeed, in a batch *)

(** X1: the run has passed its set-up and [k] turns of the loop; in the next
    turn the job manager reports the batch [pre], [t], [post], in which [t]
    is the first task that must succeed and has failed: it is no NOOP and has
    no exit status 0, and no task of [pre] is such a task.  Then the
    scheduler loop raises [ExecutionFailed] at [t], [run] calls [terminate],
    which sets the execution to [killed] and tells the job manager to
    terminate, and raises [ExecutionFailed] to its caller.  Afterwards [t] is
    [failed], the tasks of [pre] have the status their exit status asks for,
    and the tasks of [post] have not been processed: they are still queued
    and [submitted]. *)
Theorem must_succeed_failure_kills_run recipe tod tlod (k n : nat)
    (w w_s w_k w_a w_b : World) (pre post : list nat) (t : nat) :
  run_setup recipe tod tlod w = Ok tt w_s →
  iterations k w_s = Ok tt w_k →
  (0 < length (nodes (task_queue w_k)))%nat →
  _run_ready_tasks w_k = Ok tt w_a →
  get_finished_tasks true w_a = Ok (pre ++ t :: post) w_b →
  (∀ p, p ∈ pre → hard_failure w_b p = false) →
  must_succeed (task w_b t) = true →
  finished_ok w_b t = false →
  ∃ w_f w',
    scheduler_loop (k + S n) w_s = Raise ExecutionFailed w_f
    ∧ task_status (task w_f t) = TaskStatus.failed
    ∧ terminate w_f = Ok tt w'
    ∧ run recipe tod tlod false (k + S n) w = Raise ExecutionFailed w'
    ∧ status (self w') = ExecutionStatus.killed
    ∧ task_status (task w' t) = TaskStatus.failed
    ∧ (terminated <$> jobmanager w') = Some true
    ∧ (∀ p, p ∈ pre → task_status (task w' p) = verdict w_b p)
    ∧ (∀ u, u ∈ post →
         task_status (task w' u) = TaskStatus.submitted
         ∧ u ∈ nodes (task_queue w')).
Proof.
  intros Hsetup Hk Hpos Hready Hfin Hclean Hmust Hok.
  (* the tasks in flight are queued and submitted *)
  destruct (run_setup_Ok_in_session _ _ _ _ _ Hsetup) as [Hin Hin_s].
  pose proof (run_setup_post recipe tod tlod w Hin) as Hpost.
  rewrite Hsetup in Hpost. simpl in Hpost. destruct Hpost as (Hrunning&_&Hjm&_).
  assert (loop_inv (nodes (task_queue w_s)) w_a) as [Hflight _].
  { eapply _run_ready_tasks_loop_inv; [exact Hready|].
    eapply iterations_loop_inv; [exact Hk|].
    split; [|by intros u ? ?]. intros u Hu. unfold running_of in Hu.
    rewrite Hjm in Hu. by apply elem_of_nil in Hu. }
  pose proof (get_finished_tasks_NoDup _ _ _ _ Hfin) as Hnd.
  destruct (get_finished_tasks_Ok _ _ _ _ Hfin) as (Hwas&_&Hq&_&Hst).
  assert (∀ u, u ∈ pre ++ t :: post →
               u ∈ nodes (task_queue w_b)
               ∧ task_status (task w_b u) = TaskStatus.submitted) as Hfin_q.
  { intros u Hu. destruct (Hwas u Hu) as [Hr _]. destruct (Hflight u Hr) as [? ?].
    rewrite Hq, Hst. done. }
  (* the batch up to [t] *)
  assert (hard_failure w_b t = true) as Hhard.
  { unfold hard_failure. by rewrite Hmust, Hok. }
  destruct (for_each_process_abort pre t post w_b Hnd)
    as (w_f&Hraise&Hpre_st&_&Hother&Hq_f&_); [by intros u Hu; apply Hfin_q|done..|].
  pose proof Hnd as Hnd'.
  apply NoDup_app in Hnd' as (Hnd_pre&Hdisj&[Hnin _]%NoDup_cons).
  destruct (for_each_process_clean pre w_b Hnd_pre)
    as (w_t&Hpre&_&Hother_t&_&_&Hok_t&Hmust_t).
  { intros u Hu. apply Hfin_q, elem_of_app. by left. }
  { done. }
  destruct (hard_failure_kills_run_from recipe tod tlod k n w w_s w_k w_a w_b w_t
              pre post t Hsetup Hk Hpos Hready Hfin Hpre)
    as (w_f'&w'&Hloop&Hfailed&Hterm&Hrun&Hkilled&Hfailed'&Hjm').
  { by rewrite Hmust_t. }
  { by rewrite Hok_t. }
  assert (w_f' = w_f) as ->.
  { assert (scheduler_loop (k + S n) w_s = Raise ExecutionFailed w_f) as Hloop'.
    { rewrite (scheduler_loop_split k (S n) w_s w_k Hk). simpl.
      rewrite bool_decide_eq_true_2 by done.
      unfold loop_body. rewrite !bind_eq, Hready.
      by rewrite (iterate_process_eq _ _ _ _ Hfin), Hraise. }
    rewrite Hloop in Hloop'. by injection Hloop'. }
  (* [terminate] leaves the tasks and the queue as they are *)
  assert (in_session w_f = true) as Hin_f.
  { pose proof (scheduler_loop_bound (k + S n) w_s) as Hb.
    rewrite Hloop in Hb. unfold bound in Hb. simpl in Hb. congruence. }
  assert (task_queue w' = task_queue w_f) as Hq'.
  { by destruct (terminate_Ok_inv _ _ Hterm) as (_&_&_&?). }
  assert (∀ u, task w' u = task w_f u) as Htask.
  { intros u. pose proof (scheduler_loop_respects (k + S n) w_s) as Hframe.
    rewrite Hloop in Hframe. cbn [state_of] in Hframe.
    pose proof (sched_frame_deleted _ _ Hframe) as Hdel.
    rewrite (run_setup_deleted _ _ _ _ _ Hsetup) in Hdel.
    destruct (terminate_kept u w_f Hdel) as [Ht _]. by rewrite Hterm in Ht. }
  exists w_f, w'. split_and!; try done.
  - intros p Hp. rewrite Htask. by apply Hpre_st.
  - intros u Hu.
    assert (u ∉ pre) as Hu_pre.
    { intros Hin'. apply (Hdisj u Hin'). by right. }
    assert (u ≠ t) as Hu_t by (by intros ->).
    destruct (Hfin_q u) as [Huq Hus]; [apply elem_of_app; right; by right|].
    split.
    + rewrite Htask. by rewrite Hother.
    + rewrite Hq', Hq_f. done.
Qed.

Lemma must_succeed_failure_kills_run_witness :
  ∃ w', run_three = Raise ExecutionFailed w'
        ∧ status (self w') = ExecutionStatus.killed
        ∧ task_status (task w' 2%nat) = TaskStatus.failed
        ∧ task_status (task w' 3%nat) = TaskStatus.submitted.
Proof.
  pose (w_s := state_of (run_setup recipe_three _default_task_output_dir
                           _default_task_log_output_dir world_three)).
  pose (w_a := state_of (_run_ready_tasks w_s)).
  pose (w_b := state_of (get_finished_tasks true w_a)).
  destruct (must_succeed_failure_kills_run
              recipe_three _default_task_output_dir
              _default_task_log_output_dir 0 2 world_three
              w_s w_s w_a w_b [1%nat] [3%nat] 2%nat)
    as (w_f&w'&_&_&_&Hrun&Hkilled&Hfailed&_&_&Hpost).
  - vm_compute. reflexivity.
  - reflexivity.
  - vm_compute. lia.
  - vm_compute. reflexivity.
  - vm_compute. reflexivity.
  - intros p Hp. apply list_elem_of_singleton in Hp. subst p. vm_compute. reflexivity.
  - vm_compute. reflexivity.
  - vm_compute. reflexivity.
  - exists w'. split; [exact Hrun|]. split; [exact Hkilled|]. split; [exact Hfailed|].
    apply (Hpost 3%nat). apply list_elem_of_singleton. reflexivity.
Defined.
